(** * MultiADSweep: sweep normalisation, run collection, reconciliation,
      log aggregation and the text utilities, embedded from the Python
      sources [simulation.py], [logging.py], [utilities.py] and
      [evaluation.py]. *)

From Stdlib Require Import List String Ascii ZArith Lia Bool Arith.
From Stdlib Require QArith.
From Stdlib.Strings Require Byte.
From Stdlib Require Import DecimalString.
From Equations Require Import Equations.
Import ListNotations.

Set Implicit Arguments.
Unset Strict Implicit.

Local Open Scope list_scope.
Local Open Scope string_scope.

(* ===================================================================== *)
(** * Part I.  The model                                                  *)
(* ===================================================================== *)

(** ** Python exceptions and the result of a call that may raise *)

Inductive exn : Type :=
| ValueError (msg : string)
| TypeError (msg : string)
| IndexError
| KeyError (key : string)
| FileNotFoundError (msg : string)
| ChildProcessError (msg : string)
| StopIteration (msg : string)
| OtherError (cls : string) (msg : string).

(** [e.__class__.__name__] *)
Definition class_name (e : exn) : string :=
  match e with
  | ValueError _ => "ValueError"
  | TypeError _ => "TypeError"
  | IndexError => "IndexError"
  | KeyError _ => "KeyError"
  | FileNotFoundError _ => "FileNotFoundError"
  | ChildProcessError _ => "ChildProcessError"
  | StopIteration _ => "StopIteration"
  | OtherError c _ => c
  end.

(** [str(e)] *)
Definition exn_str (e : exn) : string :=
  match e with
  | ValueError m | TypeError m | FileNotFoundError m
  | ChildProcessError m | StopIteration m | OtherError _ m => m
  | IndexError => "list index out of range"
  | KeyError k => k
  end.

Inductive result (A : Type) : Type :=
| Ok (a : A)
| Raise (e : exn).
Arguments Ok {A} a.
Arguments Raise {A} e.

Definition bind {A B : Type} (r : result A) (k : A -> result B) : result B :=
  match r with
  | Ok a => k a
  | Raise e => Raise e
  end.

Notation "x <- c1 ;; c2" := (bind c1 (fun x => c2))
  (at level 61, c1 at next level, right associativity).

Definition raises {A : Type} (r : result A) : Prop := exists e, r = Raise e.

(** [mapM]: a Python loop whose body may raise, collecting the results. *)
Fixpoint mapM {A B : Type} (f : A -> result B) (l : list A) : result (list B) :=
  match l with
  | [] => Ok []
  | a :: l' => b <- f a ;; bs <- mapM f l' ;; Ok (b :: bs)
  end.

(** ** Strings *)

(** The line feed, Python's ["\n"]. *)
Definition nl : ascii := ascii_of_nat 10.
Definition nl_str : string := String nl EmptyString.

(** [s.startswith(p)] *)
Fixpoint startswith (s p : string) {struct p} : bool :=
  match p, s with
  | EmptyString, _ => true
  | String _ _, EmptyString => false
  | String b p', String a s' => Ascii.eqb a b && startswith s' p'
  end.

(** No line feed occurs in [s]. *)
Fixpoint no_nl (s : string) : bool :=
  match s with
  | EmptyString => true
  | String c r => negb (Ascii.eqb c nl) && no_nl r
  end.

(** The character [c] does not occur in [s]. *)
Fixpoint no_char (c : ascii) (s : string) : bool :=
  match s with
  | EmptyString => true
  | String a r => negb (Ascii.eqb a c) && no_char c r
  end.

(** A name as a netlist has them: neither [=] nor a blank in it. *)
Definition plain_name (n : string) : bool :=
  no_char "="%char n && no_char " "%char n.

(** Decimal rendering of a natural number, Python's [str(n)] / [f"{n}"]. *)
Definition str_of_nat (n : nat) : string :=
  NilEmpty.string_of_uint (Nat.to_uint n).

(** ** Python dictionaries: insertion-ordered, one entry per key *)

(** Keys with their equality test.  A label is a column or level name as
    pandas has it: a string or [None]. *)
Class Key (K : Type) : Type := {
  key_eqb : K -> K -> bool;
  key_eqb_eq : forall a b, key_eqb a b = true <-> a = b
}.

#[export] Instance string_key : Key string :=
  {| key_eqb := String.eqb; key_eqb_eq := String.eqb_eq |}.

Definition label : Type := option string.

Definition label_eqb (a b : label) : bool :=
  match a, b with
  | Some s, Some t => String.eqb s t
  | None, None => true
  | _, _ => false
  end.

Lemma label_eqb_eq (a b : label) : label_eqb a b = true <-> a = b.
Proof.
  destruct a as [s|], b as [t|]; simpl; split; intro H;
    try discriminate; try reflexivity.
  - apply String.eqb_eq in H. congruence.
  - injection H as ->. apply String.eqb_refl.
Qed.

#[export] Instance label_key : Key label :=
  {| key_eqb := label_eqb; key_eqb_eq := label_eqb_eq |}.

Section Dict.
Context {K : Type} {HK : Key K}.
Variable V : Type.

Definition dict := list (K * V).

Fixpoint dict_get (d : dict) (k : K) : option V :=
  match d with
  | [] => None
  | (k', v) :: d' => if key_eqb k k' then Some v else dict_get d' k
  end.

(** [d[k] = v]: an existing key keeps its place, a new one goes last. *)
Fixpoint dict_set (d : dict) (k : K) (v : V) : dict :=
  match d with
  | [] => [(k, v)]
  | (k', v') :: d' =>
      if key_eqb k k' then (k', v) :: d' else (k', v') :: dict_set d' k v
  end.

Definition dict_keys (d : dict) : list K := map fst d.

(** [k in d] *)
Definition dict_mem (d : dict) (k : K) : bool :=
  match dict_get d k with Some _ => true | None => false end.

(** [dict(pairs)], and the dictionary comprehension over [zip]. *)
Definition dict_of_pairs (pairs : list (K * V)) : dict :=
  fold_left (fun d kv => dict_set d (fst kv) (snd kv)) pairs [].
End Dict.
Arguments dict K V : clear implicits.

(** [x in l] *)
Definition mem {K : Type} {HK : Key K} (x : K) (l : list K) : bool :=
  existsb (key_eqb x) l.

(* ===================================================================== *)
(** ** utilities.py                                                       *)
(* ===================================================================== *)

(** *** [modify_netlist] *)

(** [file.readlines()] on the text of a file: every line keeps its line
    feed; the last one may come without.  The text is the file as Python's
    text layer presents it. *)
Fixpoint readlines (s : string) : list string :=
  match s with
  | EmptyString => []
  | String c r =>
      if Ascii.eqb c nl then nl_str :: readlines r
      else match readlines r with
           | [] => [String c EmptyString]
           | l :: ls => String c l :: ls
           end
  end.

(** The lines [readlines] yields: a full line is free of line feeds but for
    the one that ends it; the last line of a text may lack it, and is then
    not empty. *)
Definition is_full_line (l : string) : Prop :=
  exists b, no_nl b = true /\ l = b ++ nl_str.

Definition is_last_line (l : string) : Prop :=
  no_nl l = true /\ l <> "".

Inductive wf_lines : list string -> Prop :=
| wf_nil : wf_lines []
| wf_last l : is_last_line l -> wf_lines [l]
| wf_cons l ls : is_full_line l -> wf_lines ls -> wf_lines (l :: ls).

(** [file.writelines(lines)] into an emptied file. *)
Definition writelines (lines : list string) : string :=
  fold_right String.append EmptyString lines.

Section Netlist.
(** The values of the patch mapping and their rendering by an f-string. *)
Variable value : Type.
Variable format_value : value -> string.

(** The body of the inner loop: one variable tried on the current line. *)
Definition patch_line (line : string) (entry : string * value) : string :=
  let (var_name, var_value) := entry in
  if startswith line (var_name ++ "=") then
    var_name ++ "=" ++ format_value var_value ++ nl_str
  else if startswith line ("global " ++ var_name ++ "=") then
    "global " ++ var_name ++ "=" ++ format_value var_value ++ nl_str
  else line.

(** The inner loop: every variable of the dictionary, in order, each on
    the line as the previous ones left it. *)
Definition patch (vars_dict : dict string value) (line : string) : string :=
  fold_left patch_line vars_dict line.

(** The outer loop: the list [modified_lines] for the text read. *)
Definition modified_lines (text : string) (vars_dict : dict string value)
  : list string :=
  map (patch vars_dict) (readlines text).

(** The text written back for the text read. *)
Definition modify_text (text : string) (vars_dict : dict string value) : string :=
  writelines (modified_lines text vars_dict).

(** A file system: the text stored under each path. *)
Definition filesystem := string -> option string.

Definition fs_write (fs : filesystem) (path text : string) : filesystem :=
  fun p => if String.eqb p path then Some text else fs p.

(** [modify_netlist(path, vars_dict)]: the file is read, its lines are
    patched, and the file is written anew; [open] raises when there is no
    such file. *)
Definition modify_netlist (fs : filesystem) (path : string)
           (vars_dict : dict string value) : result filesystem :=
  match fs path with
  | None => Raise (FileNotFoundError path)
  | Some text => Ok (fs_write fs path (modify_text text vars_dict))
  end.
End Netlist.

(** *** [robust_byte_decode] *)

(** The outcome of [bytes.decode(format)]: the text, or the
    [UnicodeDecodeError] with its [start] and [end]. *)
Inductive decoded : Type :=
| Decoded (text : string)
| UnicodeDecodeError (start stop : nat).

(** An encoding, the [format] argument.  A codec reports a non-empty range
    of offending bytes inside the input. *)
Class Codec : Type := {
  decode : list Byte.byte -> decoded;
  decode_range : forall bs start stop,
      decode bs = UnicodeDecodeError start stop ->
      start < stop /\ stop <= List.length bs
}.

(** [bytes.hex()]: two lower-case digits a byte. *)
Definition hex_digit (n : nat) : ascii :=
  match n with
  | 0 => "0" | 1 => "1" | 2 => "2" | 3 => "3" | 4 => "4" | 5 => "5"
  | 6 => "6" | 7 => "7" | 8 => "8" | 9 => "9" | 10 => "a" | 11 => "b"
  | 12 => "c" | 13 => "d" | 14 => "e" | _ => "f"
  end%char.

Definition hex_byte (b : Byte.byte) : string :=
  let n := Byte.to_nat b in
  String (hex_digit (n / 16)) (String (hex_digit (n mod 16)) EmptyString).

Definition hex (bs : list Byte.byte) : string :=
  fold_right (fun b acc => hex_byte b ++ acc) EmptyString bs.

(** [byte_str[start:stop]] *)
Definition slice (bs : list Byte.byte) (start stop : nat) : list Byte.byte :=
  firstn (stop - start) (skipn start bs).

(** A [decode] outside the [try]: its error propagates. *)
Definition decode_strict {C : Codec} (bs : list Byte.byte) : result string :=
  match decode bs with
  | Decoded text => Ok text
  | UnicodeDecodeError _ _ => Raise (OtherError "UnicodeDecodeError" "")
  end.

(** [robust_byte_decode(byte_str, format)]: the decoding, or the text
    before the reported bytes, their escape and the rest decoded in the
    same way. *)
Equations? robust_byte_decode {C : Codec} (byte_str : list Byte.byte)
  : result string by wf (List.length byte_str) lt :=
  robust_byte_decode byte_str with Equations.Prop.Logic.inspect (decode byte_str) := {
    | exist _ (Decoded text) _ => Ok text
    | exist _ (UnicodeDecodeError start stop) E =>
        let faulty_byte := slice byte_str start stop in
        let replacement := "\x" ++ hex faulty_byte in
        bind (decode_strict (firstn start byte_str)) (fun head =>
        bind (robust_byte_decode (skipn stop byte_str)) (fun rest =>
        Ok (head ++ replacement ++ rest))) }.
Proof.
  apply decode_range in E. rewrite length_skipn. lia.
Qed.

(** The ASCII codec: the first byte above 127 is the error, alone. *)
Definition ascii_ok (b : Byte.byte) : bool := Nat.ltb (Byte.to_nat b) 128.

Fixpoint ascii_scan (i : nat) (bs : list Byte.byte) : decoded :=
  match bs with
  | [] => Decoded EmptyString
  | b :: bs' =>
      if ascii_ok b then
        match ascii_scan (S i) bs' with
        | Decoded t => Decoded (String (ascii_of_byte b) t)
        | err => err
        end
      else UnicodeDecodeError i (S i)
  end.

Lemma ascii_scan_range (bs : list Byte.byte) (i start stop : nat) :
  ascii_scan i bs = UnicodeDecodeError start stop ->
  i <= start /\ stop = S start /\ stop <= i + List.length bs.
Proof.
  revert i. induction bs as [|b bs IH]; intros i H; simpl in H.
  - discriminate.
  - destruct (ascii_ok b).
    + destruct (ascii_scan (S i) bs) eqn:E; [discriminate|].
      injection H as -> ->. destruct (IH _ E) as [H1 [H2 H3]].
      simpl. lia.
    + injection H as <- <-. simpl. lia.
Qed.

#[export] Instance ascii_codec : Codec.
Proof.
  refine {| decode := ascii_scan 0 |}.
  intros bs start stop H. apply ascii_scan_range in H. lia.
Defined.

(* ===================================================================== *)
(** ** simulation.py: the sweep specification                             *)
(* ===================================================================== *)

(** Python values that occur as sweep values and index entries. *)
#[warnings="-register-all"]
Inductive pyobj : Type :=
| PInt (z : Z)
| PFloat (q : QArith_base.Q)
| PNaN
| PStr (s : string)
| PNone
| PTuple (items : list pyobj).

(** [isinstance(o, Iterable)] *)
Definition is_iterable (o : pyobj) : bool :=
  match o with
  | PStr _ | PTuple _ => true
  | _ => false
  end.

(** [isinstance(o, (int, float))] *)
Definition is_number (o : pyobj) : bool :=
  match o with
  | PInt _ | PFloat _ | PNaN => true
  | _ => false
  end.

(** A [pandas.MultiIndex]: the level names and the tuples, in order. *)
Record MultiIndex : Type := {
  names : list label;
  tuples : list (list pyobj)
}.

(** The [vars] argument. *)
Inductive sweep_input : Type :=
| InMultiIndex (idx : MultiIndex)
| InList (items : list pyobj)
| InOther.

(** The [var_names] argument. *)
Inductive names_arg : Type :=
| NoNames
| NameStr (s : string)
| NameList (l : list label).

(** *** pandas, as far as the constructor uses it *)

(** One element of the list handed to [from_tuples], read as a row. *)
Definition row_of (o : pyobj) : result (list pyobj) :=
  match o with
  | PTuple items => Ok items
  | PStr s => Ok (map (fun c => PStr (String c EmptyString)) (list_ascii_of_string s))
  | PNone | PNaN => Ok [o]
  | PInt _ | PFloat _ => Raise (TypeError "object has no len()")
  end.

Definition pad (k : nat) (row : list pyobj) : list pyobj :=
  (row ++ repeat PNaN (k - List.length row))%list.

Definition is_empty_tuple (o : pyobj) : bool :=
  match o with
  | PTuple [] => true
  | _ => false
  end.

(** [MultiIndex.from_tuples(rows, names=names)] on a Python list: the
    number of levels is the length of the longest row, shorter rows are
    filled with missing values, and the names must be a list with one name
    a level. *)
Definition from_tuples (rows : list pyobj) (nms : names_arg) : result MultiIndex :=
  match nms with
  | NameStr _ => Raise (ValueError "Names should be list-like for a MultiIndex")
  | NoNames =>
      match rows with
      | [] => Raise (TypeError "Cannot infer number of levels from empty list")
      | _ =>
          rs <- mapM row_of rows ;;
          let k := fold_right Nat.max 0 (map (@List.length pyobj) rs) in
          if forallb is_empty_tuple rows then
            Ok {| names := [None]; tuples := map (fun o => [o]) rows |}
          else
            Ok {| names := repeat None k; tuples := map (pad k) rs |}
      end
  | NameList l =>
      match rows with
      | [] =>
          match l with
          | [] => Raise (ValueError "Must pass non-zero number of levels/codes")
          | _ => Ok {| names := l; tuples := [] |}
          end
      | _ =>
          rs <- mapM row_of rows ;;
          let k := fold_right Nat.max 0 (map (@List.length pyobj) rs) in
          if forallb is_empty_tuple rows then
            if Nat.eqb (List.length l) 1 then
              Ok {| names := l; tuples := map (fun o => [o]) rows |}
            else
              Raise (ValueError "Length of names must match number of levels in MultiIndex.")
          else if Nat.eqb (List.length l) k then
            Ok {| names := l; tuples := map (pad k) rs |}
          else
            Raise (ValueError "Length of names must match number of levels in MultiIndex.")
      end
  end.

(** [idx.reorder_levels(order)]: level [i] of the result is level
    [order[i]] of [idx]. *)
Definition reorder_levels (idx : MultiIndex) (order : list nat) : MultiIndex :=
  {| names := map (fun i => nth i (names idx) None) order;
     tuples := map (fun t => map (fun i => nth i t PNaN) order) (tuples idx) |}.

(** *** [SimulationManager.__init__]: checking and casting of [vars] *)

Definition is_none (n : label) : bool :=
  match n with
  | None => true
  | Some _ => false
  end.

Definition check_vars (vars : sweep_input) (var_names : names_arg)
  : result MultiIndex :=
  match vars with
  | InMultiIndex idx =>
      if existsb is_none (names idx) then
        Raise (ValueError "Names are missing for some elements in the MultiIndex.")
      else Ok idx
  | InList items =>
      if forallb (fun item => is_iterable item || is_number item) items then
        match items with
        | [] => Raise IndexError
        | first :: _ =>
            if is_iterable first then
              match var_names with
              | NoNames =>
                  Raise (ValueError "The 'names' argument must be provided when passing a list of tuples.")
              | _ => from_tuples items var_names
              end
            else if is_number first then
              match var_names with
              | NameStr s =>
                  from_tuples (map (fun item => PTuple [item]) items) (NameList [Some s])
              | _ =>
                  Raise (ValueError "The 'names' argument must be a string when passing a list of numbers.")
              end
            else
              Raise (ValueError "Unsupported data type for elements within 'vars'.")
        end
      else
        Raise (ValueError "Unsupported data type for 'vars'. Please pass a MultiIndex, an iterable of tuples, or an iterable of numbers.")
  | InOther => Raise (ValueError "Unsupported data type for 'vars'.")
  end.

(** [reversed(range(n))] *)
Definition reversed_range (n : nat) : list nat := rev (seq 0 n).

(** The attribute [self.newSweepingVars] the constructor ends with. *)
Definition newSweepingVars (vars : sweep_input) (var_names : names_arg)
  : result MultiIndex :=
  idx <- check_vars vars var_names ;;
  Ok (reorder_levels idx (reversed_range (List.length (names idx)))).

(* ===================================================================== *)
(** ** simulation.py: tables, blocks and one run                          *)
(* ===================================================================== *)

(** Two index entries are the same entry. *)
Fixpoint pyobj_eqb (a b : pyobj) {struct a} : bool :=
  match a, b with
  | PInt x, PInt y => Z.eqb x y
  | PFloat x, PFloat y =>
      Z.eqb (QArith_base.Qnum x) (QArith_base.Qnum y)
      && Pos.eqb (QArith_base.Qden x) (QArith_base.Qden y)
  | PNaN, PNaN => true
  | PStr s, PStr t => String.eqb s t
  | PNone, PNone => true
  | PTuple l, PTuple m =>
      (fix go (l m : list pyobj) {struct l} : bool :=
         match l, m with
         | [], [] => true
         | x :: l', y :: m' => pyobj_eqb x y && go l' m'
         | _, _ => false
         end) l m
  | _, _ => false
  end.

Fixpoint list_eqb {A : Type} (eqb : A -> A -> bool) (l m : list A) : bool :=
  match l, m with
  | [], [] => true
  | x :: l', y :: m' => eqb x y && list_eqb eqb l' m'
  | _, _ => false
  end.

Definition tuple_eqb : list pyobj -> list pyobj -> bool := list_eqb pyobj_eqb.

(** A [pandas.DataFrame] with a default index, as [block.data] is. *)
Record Table : Type := {
  columns : list label;
  rows : list (list pyobj)
}.

(** A [pandas.DataFrame] with a [MultiIndex]: every row is its index tuple
    and its cells. *)
Record DataFrame : Type := {
  index_names : list label;
  df_columns : list label;
  df_rows : list (list pyobj * list pyobj)
}.

(** A [pwdt.Block]. *)
Record Block : Type := {
  blk_name : string;
  blk_metadata : dict string pyobj;
  blk_ivarnames : list label;
  blk_data : Table
}.

(** An entry of [processedBlocks] and of [concatBlocks]. *)
Inductive item : Type :=
| IFrame (df : DataFrame)
| IBlock (b : Block).

(** An entry of the [metadata] list. *)
Record BlockMeta : Type := {
  bm_name : string;
  bm_metadata : dict string pyobj
}.

(** [t[c] = v] with a scalar [v]: the column [c] is filled with [v], and
    comes last when it is new. *)
Definition assign_column (t : Table) (c : label) (v : pyobj) : Table :=
  if mem c (columns t) then
    {| columns := columns t;
       rows := map (fun r => map (fun cx => if label_eqb c (fst cx) then v else snd cx)
                               (combine (columns t) r))
                   (rows t) |}
  else
    {| columns := (columns t ++ [c])%list;
       rows := map (fun r => (r ++ [v])%list) (rows t) |}.

(** The cell of a row under a column label. *)
Fixpoint cell (cols : list label) (r : list pyobj) (c : label) : pyobj :=
  match cols, r with
  | c' :: cols', x :: r' => if label_eqb c c' then x else cell cols' r' c
  | _, _ => PNaN
  end.

Definition label_str (l : label) : string :=
  match l with
  | Some s => s
  | None => "None"
  end.

(** [t.set_index(keys)]: the key columns become the index levels and
    leave the columns. *)
Definition set_index (t : Table) (keys : list label) : result DataFrame :=
  match find (fun k => negb (mem k (columns t))) keys with
  | Some k => Raise (KeyError (label_str k))
  | None =>
      Ok {| index_names := keys;
            df_columns := filter (fun c => negb (mem c keys)) (columns t);
            df_rows :=
              map (fun r =>
                     (map (cell (columns t) r) keys,
                      map snd (filter (fun cx => negb (mem (fst cx) keys))
                                      (combine (columns t) r))))
                  (rows t) |}
  end.

(** An element of a [readError] list: the exception object or a text. *)
Inductive rerr_item : Type :=
| RExn (e : exn)
| RText (s : string).

(** The dictionary [SimulationHandler.run] returns, with the [readError]
    key the worker function may add. *)
Record FinishedWorker : Type := {
  returnCode : Z;
  workerName : string;
  fw_dirs : dict string string;
  fw_vars : dict label pyobj;
  fw_staticVars : dict string pyobj;
  logStr : string;
  errStr : string;
  origDataFilePath : string;
  convDataFilePath : option string;
  readError : option (list rerr_item)
}.

(** [fw["readError"] = items] *)
Definition set_readError (fw : FinishedWorker) (items : list rerr_item)
  : FinishedWorker :=
  {| returnCode := returnCode fw; workerName := workerName fw;
     fw_dirs := fw_dirs fw; fw_vars := fw_vars fw;
     fw_staticVars := fw_staticVars fw; logStr := logStr fw;
     errStr := errStr fw; origDataFilePath := origDataFilePath fw;
     convDataFilePath := convDataFilePath fw; readError := Some items |}.

(** What the worker function returns. *)
Record RetVals : Type := {
  rv_fw : FinishedWorker;
  rv_data : option (list item);
  rv_metadata : option (list BlockMeta)
}.

(** The manager, as far as [run] reads it. *)
Record SimulationManager : Type := {
  mgr_sweep : MultiIndex;                (* self.newSweepingVars *)
  mgr_simName : string;
  mgr_writeLogs : bool;
  mgr_dirs : dict string string;
  mgr_staticVars : dict string pyobj
}.

(** What lies outside the package: the simulator run of one handler, the
    file system after it, the dataset reader, regular expressions, float
    parsing and printing, and [pandas.concat] on frames whose index names
    or columns differ. *)
Class Externals : Type := {
  handler_run : SimulationManager -> dict label pyobj -> result FinishedWorker;
  isfile : string -> bool;
  read_file : string -> result (list Block);
  concat_other : DataFrame -> DataFrame -> result DataFrame;
  re_search : string -> string -> option string;
  re_findall : string -> string -> list (string * string);
  pyfloat : Type;
  float_zero : pyfloat;
  float_add : pyfloat -> pyfloat -> pyfloat;
  float_of_str : string -> option pyfloat;
  cpu_time_line : pyfloat -> string
}.

Section Worker.
Context {E : Externals}.

(** The loop body over [simData.members]. *)
Definition process_block (vars : dict label pyobj) (block : Block) : result item :=
  if Nat.eqb (List.length (blk_ivarnames block)) 0 then
    Ok (IBlock block)
  else
    let ivarnames := (dict_keys vars ++ blk_ivarnames block)%list in
    let data :=
      fold_left (fun t kv => assign_column t (fst kv) (snd kv)) vars (blk_data block) in
    df <- set_index data ivarnames ;;
    Ok (IFrame df).

Definition meta_of (block : Block) : BlockMeta :=
  {| bm_name := blk_name block; bm_metadata := blk_metadata block |}.

Definition no_output_message : string :=
  "No output file generated: Please check workspace settings, available license count and simulator convergence".

Definition unreadable_message : string :=
  "Output File unreadable: Please check available license count and simulator convergence".

(** [SimulationManager._sim_worker_fcn] *)
Definition _sim_worker_fcn (mgr : SimulationManager) (tuple : list pyobj)
  : result RetVals :=
  let vars := dict_of_pairs (combine (names (mgr_sweep mgr)) tuple) in
  fw <- handler_run mgr vars ;;
  if negb (isfile (origDataFilePath fw)) then
    let e := FileNotFoundError
               ("Output File not found in expected location " ++ origDataFilePath fw) in
    Ok {| rv_fw := set_readError fw
                     [RExn e; RText no_output_message;
                      RText (class_name e); RText (exn_str e)];
          rv_data := None; rv_metadata := None |}
  else
    match read_file (origDataFilePath fw) with
    | Raise (ChildProcessError m) =>
        let e := ChildProcessError m in
        Ok {| rv_fw := set_readError fw
                         [RText unreadable_message;
                          RText (class_name e); RText (exn_str e)];
              rv_data := None; rv_metadata := None |}
    | Raise (StopIteration m) =>
        let e := StopIteration m in
        Ok {| rv_fw := set_readError fw
                         [RText unreadable_message;
                          RText (class_name e); RText (exn_str e)];
              rv_data := None; rv_metadata := None |}
    | Raise e => Raise e
    | Ok members =>
        processedBlocks <- mapM (process_block vars) members ;;
        Ok {| rv_fw := fw; rv_data := Some processedBlocks;
              rv_metadata := Some (map meta_of members) |}
    end.
End Worker.

(* ===================================================================== *)
(** ** simulation.py: [run], collecting and reconciling                   *)
(* ===================================================================== *)

(** [l[i] = x] on a list that has the position. *)
Fixpoint list_set {A : Type} (l : list A) (i : nat) (x : A) : list A :=
  match l, i with
  | [], _ => []
  | _ :: l', 0 => x :: l'
  | a :: l', S i' => a :: list_set l' i' x
  end.

(** [enumerate(l)] *)
Definition enumerate {A : Type} (l : list A) : list (nat * A) :=
  combine (seq 0 (List.length l)) l.

Section Collect.
Context {E : Externals}.

(** [pd.concat([a, b])] of two frames: with the same index names and
    columns the rows of [b] follow those of [a]. *)
Definition concat_frames (a b : DataFrame) : result DataFrame :=
  if list_eqb label_eqb (index_names a) (index_names b)
     && list_eqb label_eqb (df_columns a) (df_columns b)
  then Ok {| index_names := index_names a;
             df_columns := df_columns a;
             df_rows := (df_rows a ++ df_rows b)%list |}
  else concat_other a b.

(** [pd.concat([x, block])] where [x] is what [concatBlocks] holds: only
    frames can be concatenated. *)
Definition pd_concat (x : item) (block : DataFrame) : result item :=
  match x with
  | IBlock _ =>
      Raise (TypeError "cannot concatenate object of type Block; only Series and DataFrame objs are valid")
  | IFrame a => r <- concat_frames a block ;; Ok (IFrame r)
  end.

(** The body of [for b, block in enumerate(retvals["data"])]. *)
Definition merge_block (concatBlocks : list item) (bx : nat * item)
  : result (list item) :=
  let (b, block) := bx in
  match block with
  | IFrame df =>
      match nth_error concatBlocks b with
      | None => Raise IndexError
      | Some x => y <- pd_concat x df ;; Ok (list_set concatBlocks b y)
      end
  | IBlock _ => Ok concatBlocks
  end.

(** A loop whose body may raise, threading its state. *)
Fixpoint foldM {S A : Type} (f : S -> A -> result S) (l : list A) (s : S)
  : result S :=
  match l with
  | [] => Ok s
  | a :: l' => s' <- f s a ;; foldM f l' s'
  end.

(** The local variables of [run] while the results come in. *)
Record Collected : Type := {
  finishedWorkers : list FinishedWorker;
  concatBlocks : list item;
  concatBlocksMetadata : list BlockMeta;
  isFirstValidWorker : bool
}.

Definition collect_start : Collected :=
  {| finishedWorkers := []; concatBlocks := [];
     concatBlocksMetadata := []; isFirstValidWorker := true |}.

(** The body of the loop over the results of the pool. *)
Definition collect_retvals (st : Collected) (retvals : RetVals) : result Collected :=
  let fws := (finishedWorkers st ++ [rv_fw retvals])%list in
  match rv_data retvals with
  | None =>
      Ok {| finishedWorkers := fws; concatBlocks := concatBlocks st;
            concatBlocksMetadata := concatBlocksMetadata st;
            isFirstValidWorker := isFirstValidWorker st |}
  | Some data =>
      if isFirstValidWorker st then
        Ok {| finishedWorkers := fws;
              concatBlocks := (concatBlocks st ++ data)%list;
              concatBlocksMetadata :=
                match rv_metadata retvals with Some m => m | None => [] end;
              isFirstValidWorker := false |}
      else
        blocks <- foldM merge_block (enumerate data) (concatBlocks st) ;;
        Ok {| finishedWorkers := fws; concatBlocks := blocks;
              concatBlocksMetadata := concatBlocksMetadata st;
              isFirstValidWorker := false |}
  end.

(** [pool.imap] hands the results over in the order of the sweep; a
    worker that raised is raised again when its turn comes. *)
Definition collect (mgr : SimulationManager) : result Collected :=
  foldM (fun st tuple => retvals <- _sim_worker_fcn mgr tuple ;;
                         collect_retvals st retvals)
        (tuples (mgr_sweep mgr)) collect_start.

(** *** Reindexing *)

Definition count_label (n : label) (l : list label) : nat :=
  List.length (filter (label_eqb n) l).

Fixpoint position (n : label) (l : list label) : nat :=
  match l with
  | [] => 0
  | n' :: l' => if label_eqb n n' then 0 else S (position n l')
  end.

(** The entries of the rows at the level called [name]. *)
Definition level_values (df : DataFrame) (name : label) : list pyobj :=
  map (fun row => nth (position name (index_names df)) (fst row) PNaN) (df_rows df).

(** [df.index.get_level_values(name)] *)
Definition get_level_values (df : DataFrame) (name : label) : result (list pyobj) :=
  match count_label name (index_names df) with
  | 0 => Raise (KeyError (label_str name))
  | 1 => Ok (level_values df name)
  | _ => Raise (ValueError "The name occurs multiple times, use a level number")
  end.

(** [values.unique()]: the values in the order they first occur. *)
Fixpoint unique (l : list pyobj) : list pyobj :=
  match l with
  | [] => []
  | x :: l' => x :: filter (fun y => negb (pyobj_eqb x y)) (unique l')
  end.

(** The tuples of a product, the first list varying slowest. *)
Fixpoint cartesian (ls : list (list pyobj)) : list (list pyobj) :=
  match ls with
  | [] => [[]]
  | l :: ls' => flat_map (fun x => map (cons x) (cartesian ls')) l
  end.

(** [MultiIndex.from_product(iterables, names=names)] *)
Definition from_product (iterables : list (list pyobj)) (nms : list label)
  : result MultiIndex :=
  match iterables with
  | [] => Raise (ValueError "Must pass non-zero number of levels/codes")
  | _ =>
      if Nat.eqb (List.length nms) (List.length iterables) then
        Ok {| names := nms; tuples := cartesian iterables |}
      else
        Raise (ValueError "Length of names must match number of levels in MultiIndex.")
  end.

(** The row of a frame under an index tuple. *)
Definition lookup_row (df : DataFrame) (key : list pyobj) : option (list pyobj) :=
  option_map snd (find (fun row => tuple_eqb key (fst row)) (df_rows df)).

Definition nan_row (df : DataFrame) : list pyobj :=
  repeat PNaN (List.length (df_columns df)).

Fixpoint unique_keys (keys : list (list pyobj)) : bool :=
  match keys with
  | [] => true
  | k :: keys' => negb (existsb (tuple_eqb k) keys') && unique_keys keys'
  end.

(** [df.reindex(target)]: the rows in the order of [target], a row of
    missing values where the frame has none.  An index equal to the
    target is taken over as it is; otherwise pandas wants the index of
    the frame free of duplicates. *)
Definition reindex (df : DataFrame) (target : MultiIndex) : result DataFrame :=
  if list_eqb tuple_eqb (map fst (df_rows df)) (tuples target) then
    Ok {| index_names := names target; df_columns := df_columns df;
          df_rows := df_rows df |}
  else if unique_keys (map fst (df_rows df)) then
    Ok {| index_names := names target; df_columns := df_columns df;
          df_rows :=
            map (fun key =>
                   (key, match lookup_row df key with
                         | Some r => r
                         | None => nan_row df
                         end))
                (tuples target) |}
  else Raise (ValueError "cannot handle a non-unique multi-index!").

(** The column a level becomes under [reset_index]. *)
Definition level_column (i : nat) (n : label) : label :=
  match n with
  | Some s => Some s
  | None => Some ("level_" ++ str_of_nat i)
  end.

Definition level_columns (nms : list label) : list label :=
  map (fun ix => level_column (fst ix) (snd ix)) (enumerate nms).

(** [df.reset_index()]: the levels become the leading columns. *)
Definition reset_index (df : DataFrame) : result Table :=
  let cols := level_columns (index_names df) in
  if existsb (fun c => mem c (df_columns df)) cols then
    Raise (ValueError "cannot insert level, already exists")
  else
    Ok {| columns := (cols ++ df_columns df)%list;
          rows := map (fun row => (fst row ++ snd row)%list) (df_rows df) |}.

(** The names of the levels as a metadata value. *)
Definition names_obj (l : list label) : pyobj :=
  PTuple (map (fun n => match n with Some s => PStr s | None => PNone end) l).

(** The body of [for nBlock, block in enumerate(concatBlocks)] for a
    frame. *)
Definition reconcile_frame (mgr : SimulationManager)
           (metadata : list BlockMeta) (nBlock : nat) (block : DataFrame)
  : result Block :=
  let sweep := mgr_sweep mgr in
  let ivarnames := index_names block in
  let orig_ivarnames := filter (fun name => negb (mem name (names sweep))) ivarnames in
  unique_values <-
    mapM (fun name => lv <- get_level_values block name ;; Ok (unique lv))
         orig_ivarnames ;;
  reindexedOrigIvars <- from_product unique_values orig_ivarnames ;;
  newIndex <-
    from_tuples
      (map (fun ab => PTuple (fst ab ++ snd ab)%list)
           (list_prod (tuples sweep) (tuples reindexedOrigIvars)))
      (NameList (names sweep ++ names reindexedOrigIvars)%list) ;;
  block' <- reindex block newIndex ;;
  table <- reset_index block' ;;
  match nth_error metadata nBlock with
  | None => Raise IndexError
  | Some m =>
      Ok {| blk_name := bm_name m;
            blk_metadata := dict_set (bm_metadata m) "__ivarnames__" (names_obj ivarnames);
            blk_ivarnames := ivarnames;
            blk_data := table |}
  end.

Definition reconcile_item (mgr : SimulationManager) (metadata : list BlockMeta)
           (nx : nat * item) : result Block :=
  match snd nx with
  | IFrame df => reconcile_frame mgr metadata (fst nx) df
  | IBlock b => Ok b
  end.

(** The loop that turns the frames back into blocks. *)
Definition reconcile (mgr : SimulationManager) (st : Collected)
  : result (list Block) :=
  mapM (reconcile_item mgr (concatBlocksMetadata st)) (enumerate (concatBlocks st)).
End Collect.

(* ===================================================================== *)
(** ** logging.py                                                         *)
(* ===================================================================== *)

(** The characters [str.strip()] removes, by code point. *)
Definition whitespace : list nat := [9; 10; 11; 12; 13; 28; 29; 30; 31; 32; 133; 160].

Definition is_space (c : ascii) : bool :=
  existsb (Nat.eqb (nat_of_ascii c)) whitespace.

Fixpoint lstrip_with (p : ascii -> bool) (s : string) : string :=
  match s with
  | EmptyString => EmptyString
  | String c r => if p c then lstrip_with p r else s
  end.

Definition string_rev (s : string) : string :=
  string_of_list_ascii (rev (list_ascii_of_string s)).

Definition rstrip_with (p : ascii -> bool) (s : string) : string :=
  string_rev (lstrip_with p (string_rev s)).

(** [s.strip()] *)
Definition strip (s : string) : string :=
  rstrip_with is_space (lstrip_with is_space s).

(** [s.lstrip(chars)]: leading characters that occur in [chars] go. *)
Definition lstrip_chars (chars s : string) : string :=
  lstrip_with (fun c => existsb (Ascii.eqb c) (list_ascii_of_string chars)) s.

(** The double quote, for the patterns that hold one. *)
Definition dq : string := String (ascii_of_nat 34) EmptyString.

(** An entry of [LogFileHandler.data]. *)
Record LogEntry : Type := {
  le_returnCode : Z;
  le_readError : option (list rerr_item);
  le_logContent : string;
  le_errlogContent : string;
  le_dirs : dict string string;
  le_vars : dict label pyobj;
  le_staticVars : dict string pyobj;
  le_simulatorData : dict string (option string);
  le_simulatorErrors : dict string (list string);
  le_simulatorWarnings : dict string (list string)
}.

(** [readErrorsSummary] *)
Record ReadErrors : Type := {
  totalSims : nat;
  readErrorCount : nat;
  errors : list rerr_item
}.

(** [x in l] for the first elements of read errors: texts compare by
    value, exception objects are the same only as the same object, and
    every run has made its own. *)
Definition rerr_in (x : rerr_item) (l : list rerr_item) : bool :=
  match x with
  | RExn _ => false
  | RText s => existsb (fun y => match y with
                                 | RText t => String.eqb s t
                                 | RExn _ => false
                                 end) l
  end.

(** [str(x)] as [print] shows it. *)
Definition rerr_str (x : rerr_item) : string :=
  match x with
  | RExn e => exn_str e
  | RText s => s
  end.

(** Insertion that keeps a list sorted by falling count, an entry going
    behind those of the same count. *)
Fixpoint insert_by_count (x : string * nat) (l : list (string * nat))
  : list (string * nat) :=
  match l with
  | [] => [x]
  | y :: l' =>
      if Nat.ltb (snd y) (snd x) then x :: y :: l'
      else y :: insert_by_count x l'
  end.

(** [sorted(items, key=lambda x: x[1], reverse=True)] *)
Definition sorted_by_count (items : list (string * nat)) : list (string * nat) :=
  fold_left (fun acc x => insert_by_count x acc) items [].

(** [LogFileHandler.__summarize_list_duplicates] *)
Definition __summarize_list_duplicates (inputList : list string) : list string :=
  let countDict :=
    fold_left (fun d it =>
                 dict_set d it (match dict_get d it with
                                | Some n => n + 1
                                | None => 0 + 1
                                end))
              inputList ([] : dict string nat) in
  map (fun kv =>
         if Nat.ltb 1 (snd kv)
         then fst kv ++ nl_str ++ "(" ++ str_of_nat (snd kv) ++ " Occurences)"
         else fst kv)
      (sorted_by_count countDict).

(** A key added to a grouping dictionary of lists. *)
Definition group_append {A : Type} (d : dict string (list A)) (k : string) (x : A)
  : dict string (list A) :=
  match dict_get d k with
  | Some l => dict_set d k (l ++ [x])%list
  | None => dict_set d k [x]
  end.

Section Logging.
Context {E : Externals}.

(** [LogFileHandler.__extract_value] *)
Definition __extract_value (content pattern : string) : option string :=
  option_map strip (re_search pattern content).

(** [LogFileHandler.__extract_warnings_errors] *)
Definition __extract_warnings_errors (content pattern : string)
  : dict string (list string) :=
  let matches := re_findall pattern content in
  let groupedWarnings :=
    fold_left (fun g m =>
                 let (header, warningContent) := (m : string * string) in
                 group_append g header
                   (strip (lstrip_chars header (strip warningContent))))
              matches ([] : dict string (list string)) in
  map (fun kv => (fst kv, __summarize_list_duplicates (snd kv))) groupedWarnings.

Definition simulator_data (logContent : string) : dict string (option string) :=
  [ ("Simulation Start Time",
     __extract_value logContent ("Simulation started at (.+?)" ++ nl_str));
    ("Simulation End Time",
     __extract_value logContent ("Simulation finished at (.+?)" ++ nl_str));
    ("Host",
     __extract_value logContent ("Running on host: " ++ dq ++ "(.+?)" ++ dq));
    ("Directory",
     __extract_value logContent ("In Directory: " ++ dq ++ "(.+?)" ++ dq));
    ("User",
     __extract_value logContent ("User: " ++ dq ++ "(.+?)" ++ dq));
    ("Process ID",
     __extract_value logContent ("Process ID: (.+?)" ++ nl_str));
    ("Total CPU time",
     __extract_value logContent "Total CPU time +?= +?(.+?) seconds.");
    ("Total stopwatch time",
     __extract_value logContent "Total stopwatch time +?= +?(.+?) seconds.") ].

Definition log_entry (fw : FinishedWorker) : LogEntry :=
  {| le_returnCode := returnCode fw;
     le_readError := readError fw;
     le_logContent := logStr fw;
     le_errlogContent := errStr fw;
     le_dirs := fw_dirs fw;
     le_vars := fw_vars fw;
     le_staticVars := fw_staticVars fw;
     le_simulatorData := simulator_data (logStr fw);
     le_simulatorErrors :=
       __extract_warnings_errors (logStr fw) "(Error detected .+?)\n(.+?\n\n)";
     le_simulatorWarnings :=
       __extract_warnings_errors (logStr fw) "(Warning detected .+?)\n(.+?\n\n)" |}.

(** [LogFileHandler.__process_worker_logs] *)
Definition __process_worker_logs (finishedWorkers : list FinishedWorker)
  : dict string LogEntry :=
  fold_left (fun data fw => dict_set data (workerName fw) (log_entry fw))
            finishedWorkers [].
End Logging.

(** [for message in messages: summary[message].append(key)], the inner
    loop of the summary over the keys of one run's dictionary. *)
Definition group_messages (summary : dict string (list string))
           (messages : list string) (key : string) : dict string (list string) :=
  fold_left (fun s message => group_append s message key) messages summary.

Definition count_read_error (r : ReadErrors) (readError : option (list rerr_item))
  : ReadErrors :=
  match readError with
  | Some (first :: _) =>
      {| totalSims := totalSims r + 1;
         readErrorCount := readErrorCount r + 1;
         errors := if rerr_in first (errors r) then errors r
                   else (errors r ++ [first])%list |}
  | _ =>
      {| totalSims := totalSims r + 1;
         readErrorCount := readErrorCount r;
         errors := errors r |}
  end.

(** [LogFileHandler.__summarize_logfiles]: the warnings, the errors and
    the read errors of all runs.  A loop over a dictionary goes over its
    keys. *)
Definition __summarize_logfiles (jsonData : dict string LogEntry)
  : dict string (list string) * dict string (list string) * ReadErrors :=
  fold_left
    (fun acc kv =>
       let '(warningsSummary, errorsSummary, readErrorsSummary) := acc in
       let (key, value) := (kv : string * LogEntry) in
       (group_messages warningsSummary (dict_keys (le_simulatorWarnings value)) key,
        group_messages errorsSummary (dict_keys (le_simulatorErrors value)) key,
        count_read_error readErrorsSummary (le_readError value)))
    jsonData
    ([], [], {| totalSims := 0; readErrorCount := 0; errors := [] |}).

Definition dashes : string := "----------------------------------------".

(** What [print_summary] prints for one message and its runs; every
    element is the argument of one [print]. *)
Definition message_lines (total : nat) (entry : string * list string) : list string :=
  let (message, simulation_list) := entry in
  let n := List.length simulation_list in
  (if Nat.eqb n total then
     [message; str_of_nat n ++ " occurrences (All Simulations)"]
   else
     (message
        :: (str_of_nat n ++ " "
              ++ (if Nat.eqb n 1 then "occurrence" else "occurrences") ++ ":")
        :: map (fun simulation => "    " ++ simulation) simulation_list))
    ++ [nl_str].

(** The section of the summary for the errors or for the warnings. *)
Definition section_lines (title none : string) (trailer : list string)
           (total : nat) (summary : dict string (list string)) : list string :=
  [title; dashes]
    ++ match summary with
       | [] => none :: trailer
       | _ => flat_map (message_lines total) summary
       end.

Section Summary.
Context {E : Externals}.

(** The sum of the CPU times; [float(None)] and [float] of a text that
    is no number raise. *)
Definition cumulated_cpu_time (data : dict string LogEntry) : result pyfloat :=
  foldM (fun acc kv =>
           match dict_get (le_simulatorData (snd kv)) "Total CPU time" with
           | Some (Some text) =>
               match float_of_str text with
               | Some x => Ok (float_add acc x)
               | None => Raise (ValueError "could not convert string to float")
               end
           | _ => Raise (TypeError "float() argument must be a string or a real number, not 'NoneType'")
           end)
        data float_zero.

(** [LogFileHandler.print_summary]: the printed texts, in order. *)
Definition print_summary (data : dict string LogEntry) : result (list string) :=
  cumulatedCpuTime <- cumulated_cpu_time data ;;
  let '(warnings, errs, readErrors) := __summarize_logfiles data in
  let read_line :=
    "Read " ++ str_of_nat (totalSims readErrors - readErrorCount readErrors)
            ++ "/" ++ str_of_nat (totalSims readErrors) ++ " Files sucessfully " in
  let read_error_lines :=
    if Nat.eqb (readErrorCount readErrors) 0 then []
    else (["Read Errors:"; dashes]
            ++ map rerr_str (errors readErrors) ++ [EmptyString])%list in
  Ok ([cpu_time_line cumulatedCpuTime; read_line]
        ++ read_error_lines
        ++ section_lines "Simulation Errors:" "No errors occurred." [nl_str]
             (List.length data) errs
        ++ section_lines "Simulation Warnings:" "No warnings occurred." []
             (List.length data) warnings)%list.

(** [LogFileHandler.write_logfile]: [json.dump] turns down an object
    that is no text, number, list or dictionary, as an exception is. *)
Definition json_serializable (entry : LogEntry) : bool :=
  match le_readError entry with
  | None => true
  | Some items => forallb (fun x => match x with RText _ => true | RExn _ => false end) items
  end.

Definition write_logfile (data : dict string LogEntry) : result unit :=
  if forallb (fun kv => json_serializable (snd kv)) data then Ok tt
  else Raise (TypeError "Object of type FileNotFoundError is not JSON serializable").

(** A [pwdt.Group]. *)
Record Group : Type := {
  members : list Block;
  grp_name : string
}.

(** [SimulationManager.run]: the texts [print_summary] printed and the
    attribute [self.simResults]. *)
Definition run (mgr : SimulationManager) : result (list string * Group) :=
  st <- collect mgr ;;
  let data := __process_worker_logs (finishedWorkers st) in
  printed <- print_summary data ;;
  _ <- (if mgr_writeLogs mgr then write_logfile data else Ok tt) ;;
  blocks <- reconcile mgr st ;;
  Ok (printed, {| members := blocks; grp_name := mgr_simName mgr |}).
End Summary.

(* ===================================================================== *)
(** ** utilities.py: the cell name of a netlist                           *)
(* ===================================================================== *)

(** [file.readline()] on a file just opened: the first line with its line
    feed, the empty text when the file is empty. *)
Definition readline (text : string) : string := hd EmptyString (readlines text).

Definition quote : ascii := ascii_of_nat 34.

(** [re.findall(pattern, line)] for the pattern of the source, a double
    quote, a group of characters other than the double quote, and a double
    quote: the texts that stand between a double quote and the next one,
    the pairs taken from the left; a quote that is never closed opens no
    match.  [inside] holds the text read since the opening quote. *)
Fixpoint findall_quoted (inside : option string) (line : string) : list string :=
  match line with
  | EmptyString => []
  | String c r =>
      match inside with
      | None =>
          if Ascii.eqb c quote then findall_quoted (Some EmptyString) r
          else findall_quoted None r
      | Some acc =>
          if Ascii.eqb c quote then acc :: findall_quoted None r
          else findall_quoted (Some (acc ++ String c EmptyString)) r
      end
  end.

(** [s.split(sep)] for a separator of one character: the pieces between
    the separators, empty ones kept. *)
Fixpoint split_on (sep : ascii) (s : string) : list string :=
  match s with
  | EmptyString => [EmptyString]
  | String c r =>
      if Ascii.eqb c sep then EmptyString :: split_on sep r
      else match split_on sep r with
           | [] => [String c EmptyString]
           | p :: ps => String c p :: ps
           end
  end.

(** [get_cell_name_from_netlist(path)]: the second last piece of the
    first quoted text of the first line.  Both [\[0\]] on an empty list of
    matches and [\[-2\]] on a list of one piece raise [IndexError]. *)
Definition get_cell_name_from_netlist (fs : filesystem) (path : string)
  : result string :=
  match fs path with
  | None => Raise (FileNotFoundError path)
  | Some text =>
      match findall_quoted None (readline text) with
      | [] => Raise IndexError
      | first :: _ =>
          let hierarchy := split_on ":"%char first in
          match rev hierarchy with
          | _ :: name :: _ => Ok name
          | _ => Raise IndexError
          end
      end
  end.

(** The escape [robust_byte_decode] writes for one byte the ASCII codec
    turns down, and the character of one it takes. *)
Definition escape_ascii (b : Byte.byte) : string :=
  if ascii_ok b then String (ascii_of_byte b) EmptyString
  else "\x" ++ hex_byte b.

(* ===================================================================== *)
(** ** logging.py: reading a log file back                                *)
(* ===================================================================== *)

Section ReadLog.
Context {E : Externals}.

(** The dictionary [read_logfile] builds for one entry of the file.  It
    has no [readError] key, and the paths of the dataset, which the
    processing does not read, are not in it either. *)
Definition worker_of_entry (kv : string * LogEntry) : FinishedWorker :=
  let (name, data) := kv in
  {| returnCode := le_returnCode data;
     workerName := name;
     fw_dirs := le_dirs data;
     fw_vars := le_vars data;
     fw_staticVars := le_staticVars data;
     logStr := le_logContent data;
     errStr := le_errlogContent data;
     origDataFilePath := EmptyString;
     convDataFilePath := None;
     readError := None |}.

(** [LogFileHandler.read_logfile], from the object [json.load] has
    returned: the new value of [self.data]. *)
Definition read_logfile (json_data : dict string LogEntry) : dict string LogEntry :=
  __process_worker_logs (map worker_of_entry json_data).
End ReadLog.

(* ===================================================================== *)
(** ** evaluation.py                                                      *)
(* ===================================================================== *)

(** [block_to_dataframe(block)]: the data of the block, indexed by its
    independent variables. *)
Definition block_to_dataframe (block : Block) : result DataFrame :=
  let independent_var_names := blk_ivarnames block in
  set_index (blk_data block) independent_var_names.

(* ===================================================================== *)
(** ** simulation.py: the handler of one run                              *)
(* ===================================================================== *)

(** [s.replace(a, b)] for two characters. *)
Fixpoint replace_char (a b : ascii) (s : string) : string :=
  match s with
  | EmptyString => EmptyString
  | String c r => String (if Ascii.eqb c a then b else c) (replace_char a b r)
  end.

Section Handler.
(** [str(value)] as an f-string renders a value. *)
Variable format_value : pyobj -> string.

(** The text a variable adds to a name: the f-string of its name and its
    value, every full stop replaced. *)
Definition var_suffix (var_name : string) (var_value : pyobj) : string :=
  replace_char "."%char "p"%char ("_" ++ var_name ++ "_" ++ format_value var_value).

(** [self.workerName] after the loop of [SimulationHandler.__init__]; a
    name that is [None] is rendered as the f-string renders it. *)
Definition handler_workerName (workspaceName : string) (vars : dict label pyobj)
  : string :=
  fold_left (fun w kv => w ++ var_suffix (label_str (fst kv)) (snd kv))
            vars workspaceName.

(** [staticVarApdx] after the loop of [write_output_files]. *)
Definition staticVarApdx (staticVars : dict string pyobj) : string :=
  fold_left (fun a kv => a ++ var_suffix (fst kv) (snd kv)) staticVars EmptyString.

(** The dictionary display with the two unpackings, [vars] first and
    [static_vars] second. *)
Definition merged_vars (vars : dict label pyobj) (static_vars : dict string pyobj)
  : dict label pyobj :=
  fold_left (fun d kv => dict_set d (Some (fst kv)) (snd kv)) static_vars vars.

(** The entries of that dictionary as the loop of [modify_netlist] reads
    them, the names rendered by its f-strings. *)
Definition netlist_vars (vars : dict label pyobj) (static_vars : dict string pyobj)
  : dict string pyobj :=
  map (fun kv => (label_str (fst kv), snd kv)) (merged_vars vars static_vars).

(** The last statement of [SimulationHandler.__init__]: the netlist of
    the copied workspace is patched with the variables of the run and the
    static ones. *)
Definition handler_patch_netlist (fs : filesystem) (netlist : string)
           (vars : dict label pyobj) (static_vars : dict string pyobj)
  : result filesystem :=
  modify_netlist format_value fs netlist (netlist_vars vars static_vars).
End Handler.

(** *** [SimulationHandler.update_environment] *)

(** [os.path.join(a, b)] on a POSIX system. *)
Definition os_path_join (a b : string) : string :=
  if startswith b "/" then b
  else if String.eqb a EmptyString || startswith (string_rev a) "/" then a ++ b
  else a ++ "/" ++ b.

(** [sorted(list(set(l)))] on texts: every text once, in the order of the
    code points. *)
Fixpoint insert_unique (x : string) (l : list string) : list string :=
  match l with
  | [] => [x]
  | y :: l' =>
      match String.compare x y with
      | Eq => l
      | Lt => x :: l
      | Gt => y :: insert_unique x l'
      end
  end.

Definition sorted_set (l : list string) : list string :=
  fold_right insert_unique [] l.

(** [os.environ] as a dictionary; reading a variable that is not set
    raises [KeyError], after [HPEESOF_DIR] has been set. *)
Definition update_environment (environ : dict string string)
           (ADSInstallationDir : string) : result (dict string string) :=
  let environ := dict_set environ "HPEESOF_DIR" ADSInstallationDir in
  match dict_get environ "PATH" with
  | None => Raise (KeyError "PATH")
  | Some path =>
      let path_strings := split_on ";"%char path in
      let path_strings :=
        (path_strings ++ [os_path_join ADSInstallationDir "bin"])%list in
      let path_strings := sorted_set path_strings in
      Ok (dict_set environ "PATH" (String.concat ";" path_strings ++ ";."))
  end.

(* ===================================================================== *)
(** ** simulation.py: the rest of [SimulationManager.__init__]            *)
(* ===================================================================== *)

(** The [ads_startup_cmd] argument: [None], a text, or anything else, a
    list of texts among it. *)
Inductive startup_arg : Type :=
| StartupNone
| StartupStr (s : string)
| StartupOther.

(** The branches on [ads_startup_cmd].  The last one reads the attribute
    [self.ads_startup_cmd], which no branch before it has set. *)
Definition startup_cmd (ads_startup_cmd : startup_arg) : result (list string) :=
  match ads_startup_cmd with
  | StartupNone => Ok []
  | StartupStr s => Ok [s]
  | StartupOther =>
      Raise (OtherError "AttributeError"
               "'SimulationManager' object has no attribute 'ads_startup_cmd'")
  end.

(** [s.endswith(suffix)] and [s\[:-n\]]. *)
Definition endswith (s suffix : string) : bool :=
  startswith (string_rev s) (string_rev suffix).

Definition drop_last (n : nat) (s : string) : string :=
  substring 0 (String.length s - n) s.

(** [SimulationManager.__init__] after the sweep has been cast, on a
    workspace directory given by the text of its parent directory,
    without a slash at its end, and its own name.  The constructor gives
    the manager and the attribute [ads_startup_cmd].  A name without the
    ending [_wrk] leaves a path object as [workspaceName], to which no
    text can be added.  The entries of the dictionary display are
    evaluated in their order.  The directories the constructor makes at
    its end are not files and stay outside the file system here. *)
Definition SimulationManager_init (fs : filesystem)
           (workspace_parent workspace_name sim_name : string)
           (vars : sweep_input) (var_names : names_arg)
           (netlist_filename ads_install_dir : string)
           (ads_startup_cmd : startup_arg) (write_logs : bool)
  : result (SimulationManager * list string) :=
  sweep <- newSweepingVars vars var_names ;;
  let workspace_dir := workspace_parent ++ "/" ++ workspace_name in
  let netlist := workspace_dir ++ "/" ++ netlist_filename in
  match fs netlist with
  | None =>
      Raise (FileNotFoundError
               ("Netlist not found at specified Path " ++ dq ++ netlist ++ dq))
  | Some _ =>
      cmd <- startup_cmd ads_startup_cmd ;;
      cellName <- get_cell_name_from_netlist fs netlist ;;
      if endswith workspace_name "_wrk" then
        let workspaceName := drop_last 4 workspace_name in
        let mas := workspace_parent ++ "/" ++ workspaceName ++ "_mas" in
        Ok ({| mgr_sweep := sweep;
               mgr_simName := sim_name;
               mgr_writeLogs := write_logs;
               mgr_dirs := [("ADS_installDir", ads_install_dir);
                            ("ADS_workspaceDir", workspace_dir);
                            ("ADS_workspaceName", workspaceName);
                            ("ADS_cellName", cellName);
                            ("netlistFileName", netlist_filename);
                            ("MAS_workspaceDir", mas);
                            ("simName", sim_name);
                            ("MAS_outFileDir", mas ++ "/data");
                            ("MAS_logFileDir", mas ++ "/log")];
               mgr_staticVars := [] |},
            cmd)
      else
        Raise (TypeError "unsupported operand type(s) for +: 'PosixPath' and 'str'")
  end.

(* ===================================================================== *)
(** ** simulation.py: [SimulationHandler.run]                             *)
(* ===================================================================== *)

(** What the shell gives back for a command line: the return code and the
    bytes of the two streams. *)
Record Process : Type := {
  returncode : Z;
  stdout_bytes : list Byte.byte;
  stderr_bytes : list Byte.byte
}.

(** The attributes of a handler [run] reads. *)
Record SimulationHandler : Type := {
  h_workerName : string;
  h_dirs : dict string string;
  h_vars : dict label pyobj;
  h_staticVars : dict string pyobj;
  h_ads_startup_cmd : list string;
  h_tempWorkspaceDir : string
}.

(** [d\[k\]] *)
Definition dict_item (d : dict string string) (k : string) : result string :=
  match dict_get d k with
  | Some v => Ok v
  | None => Raise (KeyError k)
  end.

Section HandlerRun.
Context {C : Codec}.
(** [subprocess.Popen(cmd, shell=True)] with [communicate], and
    [os.path.isfile] after it. *)
Variable popen : string -> Process.
Variable os_isfile : string -> bool.

(** [SimulationHandler.run(outFileDir)], in the run directory the
    constructor has made, into which it changes first.  A directory given
    as [outFileDir] is a path object, which is true.  The branch for it
    reads [self.outFileDir], an attribute no statement sets. *)
Definition SimulationHandler_run (self : SimulationHandler)
           (outFileDir : option string) : result FinishedWorker :=
  netlistFileName <- dict_item (h_dirs self) "netlistFileName" ;;
  let adssim := "adssim " ++ netlistFileName in
  let commands := (h_ads_startup_cmd self ++ [adssim])%list in
  let combined_cmd := String.concat " && " commands in
  let process := popen combined_cmd in
  stdout_str <- robust_byte_decode (stdout_bytes process) ;;
  stderr_str <- robust_byte_decode (stderr_bytes process) ;;
  cellName <- dict_item (h_dirs self) "ADS_cellName" ;;
  let dsPath := h_tempWorkspaceDir self ++ "/" ++ cellName ++ ".ds" in
  match outFileDir with
  | Some _ =>
      if negb (os_isfile dsPath) then
        Raise (FileNotFoundError
                 ("Output File not found in expected location " ++ dsPath))
      else
        Raise (OtherError "AttributeError"
                 "'SimulationHandler' object has no attribute 'outFileDir'")
  | None =>
      Ok {| returnCode := returncode process;
            workerName := h_workerName self;
            fw_dirs := h_dirs self;
            fw_vars := h_vars self;
            fw_staticVars := h_staticVars self;
            logStr := stdout_str;
            errStr := stderr_str;
            origDataFilePath := dsPath;
            convDataFilePath := None;
            readError := None |}
  end.
End HandlerRun.

(* ===================================================================== *)
(** ** A test bench                                                       *)
(* ===================================================================== *)

(** A netlist of four lines, and a file system that holds it. *)
Definition bench_netlist : string :=
  "; design variables" ++ nl_str
  ++ "Vgs=0.5" ++ nl_str
  ++ "global Vds=3" ++ nl_str
  ++ "R1 n1 n2 R=50".

Definition bench_fs : filesystem :=
  fun p => if String.eqb p "netlist.log" then Some bench_netlist else None.

(** A sweep over [bias] with three values, and blocks over [freq]. *)
Definition bias : label := Some "bias".
Definition freq : label := Some "freq".
Definition s21 : label := Some "S21".

Definition bench_sweep : MultiIndex :=
  {| names := [bias]; tuples := [[PInt 0]; [PInt 1]; [PInt 2]] |}.

Definition bench_mgr : SimulationManager :=
  {| mgr_sweep := bench_sweep; mgr_simName := "sweep"; mgr_writeLogs := true;
     mgr_dirs := [("simName", "sweep")]; mgr_staticVars := [] |}.

(** The name of a run: the value of [bias] after the workspace name. *)
Definition bench_name (vars : dict label pyobj) : string :=
  match dict_get vars bias with
  | Some (PInt 0) => "amp_bias_0"
  | Some (PInt 1) => "amp_bias_1"
  | Some (PInt 2) => "amp_bias_2"
  | _ => "amp"
  end.

Definition bench_fw (vars : dict label pyobj) : FinishedWorker :=
  {| returnCode := 0; workerName := bench_name vars;
     fw_dirs := [("simName", "sweep")]; fw_vars := vars; fw_staticVars := [];
     logStr := "Total CPU time = 1.0 seconds."; errStr := EmptyString;
     origDataFilePath := bench_name vars ++ "_wrk/amp.ds";
     convDataFilePath := None; readError := None |}.

(** The block a run writes: two frequencies, or one where the simulator
    gave up early. *)
Definition bench_block (freqs : list Z) : Block :=
  {| blk_name := "SP1.SP"; blk_metadata := [("type", PStr "sweep")];
     blk_ivarnames := [freq];
     blk_data := {| columns := [freq; s21];
                    rows := map (fun f => [PInt f; PInt (f + 1)]) freqs |} |}.

(** Outside world: the run for [bias = 1] leaves no dataset, the run for
    [bias = 2] one that stops short. *)
#[local] Instance bench_externals : Externals :=
  {| handler_run := fun _ vars => Ok (bench_fw vars);
     isfile := fun p => negb (String.eqb p "amp_bias_1_wrk/amp.ds");
     read_file := fun p =>
       if String.eqb p "amp_bias_2_wrk/amp.ds" then Ok [bench_block [1%Z]]
       else Ok [bench_block [1%Z; 2%Z]];
     concat_other := fun a _ => Ok a;
     re_search := fun _ _ => Some "1.0";
     re_findall := fun _ _ => [];
     pyfloat := nat;
     float_zero := 0;
     float_add := Nat.add;
     float_of_str := fun _ => Some 1;
     cpu_time_line := fun _ => "Cumulated CPU Time" |}.

(** The same with a dataset reader that fails as it does without a
    license. *)
#[local] Instance bench_unreadable : Externals :=
  {| handler_run := fun _ vars => Ok (bench_fw vars);
     isfile := fun _ => true;
     read_file := fun _ => Raise (ChildProcessError "no license");
     concat_other := fun a _ => Ok a;
     re_search := fun _ _ => None;
     re_findall := fun _ _ => [];
     pyfloat := nat;
     float_zero := 0;
     float_add := Nat.add;
     float_of_str := fun _ => Some 1;
     cpu_time_line := fun _ => "Cumulated CPU Time" |}.

(** A block without independent variables, and the outside world in
    which the run for [bias = 0] writes it where the later runs write a
    block over [freq]. *)
Definition bench_scalar_block : Block :=
  {| blk_name := "SP1.SP"; blk_metadata := [("type", PStr "point")];
     blk_ivarnames := [];
     blk_data := {| columns := [s21]; rows := [[PInt 5]] |} |}.

#[local] Instance bench_clash : Externals :=
  {| handler_run := fun _ vars => Ok (bench_fw vars);
     isfile := fun _ => true;
     read_file := fun p =>
       if String.eqb p "amp_bias_0_wrk/amp.ds" then Ok [bench_scalar_block]
       else Ok [bench_block [1%Z; 2%Z]];
     concat_other := fun a _ => Ok a;
     re_search := fun _ _ => Some "1.0";
     re_findall := fun _ _ => [];
     pyfloat := nat;
     float_zero := 0;
     float_add := Nat.add;
     float_of_str := fun _ => Some 1;
     cpu_time_line := fun _ => "Cumulated CPU Time" |}.

(** The frame the three runs of the first outside world leave after
    concatenation: nothing for [bias = 1], one row short for [bias = 2]. *)
Definition bench_frame : DataFrame :=
  {| index_names := [bias; freq]; df_columns := [s21];
     df_rows := [([PInt 0; PInt 1], [PInt 2]);
                 ([PInt 0; PInt 2], [PInt 3]);
                 ([PInt 2; PInt 1], [PInt 2])] |}.

Definition bench_metadata : list BlockMeta :=
  [{| bm_name := "SP1.SP"; bm_metadata := [("type", PStr "sweep")] |}].

(** Three finished runs, two of them with the same warning in the log,
    and a pattern matcher that finds it. *)
Definition bench_warning_log : string := "Warning detected by hpeesofsim during HB analysis".

Definition bench_logged (name log : string) : FinishedWorker :=
  {| returnCode := 0; workerName := name;
     fw_dirs := []; fw_vars := []; fw_staticVars := [];
     logStr := log; errStr := EmptyString;
     origDataFilePath := name ++ "_wrk/amp.ds";
     convDataFilePath := None; readError := None |}.

#[local] Instance bench_logs : Externals :=
  {| handler_run := fun _ vars => Ok (bench_fw vars);
     isfile := fun _ => true;
     read_file := fun _ => Ok [];
     concat_other := fun a _ => Ok a;
     re_search := fun _ _ => Some "1.0";
     re_findall := fun pattern content =>
       if startswith pattern "(Warning" && String.eqb content bench_warning_log
       then [(bench_warning_log, "More than one mixing term has landed on frequency")]
       else [];
     pyfloat := nat;
     float_zero := 0;
     float_add := Nat.add;
     float_of_str := fun _ => Some 1;
     cpu_time_line := fun _ => "Cumulated CPU Time" |}.

(** A netlist as the simulator front end writes it: the hierarchy of the
    design in the first line. *)
Definition bench_hierarchy_netlist : string :=
  "; Top Design: " ++ dq ++ "amp_lib:amp_tb:schematic" ++ dq ++ nl_str
  ++ "Vgs=0.5" ++ nl_str.

Definition bench_hierarchy_fs : filesystem :=
  fun p => if String.eqb p "netlist.log" then Some bench_hierarchy_netlist else None.

(** A workspace [/home/user/amp_wrk] with that netlist in it. *)
Definition bench_workspace_fs : filesystem :=
  fun p => if String.eqb p "/home/user/amp_wrk/netlist.log"
           then Some bench_hierarchy_netlist else None.

(** A handler of the bench, and a shell whose simulator writes a byte
    that is no ASCII character. *)
Definition bench_handler : SimulationHandler :=
  {| h_workerName := "amp_bias_1";
     h_dirs := [("netlistFileName", "netlist.log"); ("ADS_cellName", "amp_tb")];
     h_vars := [(bias, PInt 1)];
     h_staticVars := [];
     h_ads_startup_cmd := ["module load ads"];
     h_tempWorkspaceDir := "/home/user/amp_mas/temp/amp_bias_1_wrk" |}.

Definition bench_popen (cmd : string) : Process :=
  if String.eqb cmd "module load ads && adssim netlist.log"
  then {| returncode := 0; stdout_bytes := [Byte.x6f; Byte.xff; Byte.x6b];
          stderr_bytes := [] |}
  else {| returncode := 127; stdout_bytes := []; stderr_bytes := [] |}.

(* ===================================================================== *)
(** * Part II.  Properties                                                *)
(* ===================================================================== *)

(** ** The result of a call that returned *)

Lemma bind_ok (A B : Type) (a : A) (k : A -> result B) : bind (Ok a) k = k a.
Proof. reflexivity. Qed.

(** ** Prefixes *)

Lemma append_assoc (a b c : string) : (a ++ b) ++ c = a ++ (b ++ c).
Proof. induction a; simpl; congruence. Qed.

Lemma append_nil_r (a : string) : a ++ "" = a.
Proof. induction a; simpl; congruence. Qed.

Lemma startswith_app (p t : string) : startswith (p ++ t) p = true.
Proof.
  induction p as [|c p IH]; simpl.
  - reflexivity.
  - rewrite Ascii.eqb_refl. exact IH.
Qed.

Lemma startswith_inv (s p : string) :
  startswith s p = true -> exists t, s = p ++ t.
Proof.
  revert s. induction p as [|b p IH]; intros s H.
  - exists s. reflexivity.
  - destruct s as [|a s]; simpl in H; [discriminate|].
    apply andb_true_iff in H. destruct H as [Hc Hs].
    apply Ascii.eqb_eq in Hc. subst b.
    destruct (IH _ Hs) as [t ->]. exists t. reflexivity.
Qed.

Lemma startswith_trans (s p q : string) :
  startswith s p = true -> startswith p q = true -> startswith s q = true.
Proof.
  intros Hp Hq.
  destruct (startswith_inv Hp) as [t ->].
  destruct (startswith_inv Hq) as [u ->].
  rewrite append_assoc. apply startswith_app.
Qed.

(** Two prefixes of one string: the shorter is a prefix of the longer. *)
Lemma startswith_comparable (s p q : string) :
  startswith s p = true -> startswith s q = true ->
  startswith p q = true \/ startswith q p = true.
Proof.
  revert s q. induction p as [|b p IH]; intros s q Hp Hq.
  - right. destruct q; reflexivity.
  - destruct q as [|c q]; [left; reflexivity|].
    destruct s as [|a s]; simpl in Hp, Hq; [discriminate|].
    apply andb_true_iff in Hp. destruct Hp as [Hb Hp].
    apply andb_true_iff in Hq. destruct Hq as [Hc Hq].
    apply Ascii.eqb_eq in Hb. apply Ascii.eqb_eq in Hc. subst b c.
    simpl. rewrite Ascii.eqb_refl. simpl.
    exact (IH _ _ Hp Hq).
Qed.

Lemma startswith_longer (p q : string) :
  startswith p q = true -> String.length q <= String.length p.
Proof.
  revert p. induction q as [|c q IH]; intros p H; simpl.
  - lia.
  - destruct p as [|a p]; simpl in H; [discriminate|].
    apply andb_true_iff in H. destruct H as [_ H].
    apply IH in H. simpl. lia.
Qed.

Lemma length_append (a b : string) :
  String.length (a ++ b) = String.length a + String.length b.
Proof. induction a; simpl; congruence. Qed.

Lemma startswith_app_of (m r p : string) :
  startswith m p = true -> startswith (m ++ r) p = true.
Proof. intro H. exact (startswith_trans (startswith_app m r) H). Qed.

(** The assignment prefix of a name never has its own [global] form as a
    prefix: that one is seven characters longer. *)
Lemma plain_not_global (n : string) :
  startswith (n ++ "=") ("global " ++ n ++ "=") = false.
Proof.
  destruct (startswith (n ++ "=") ("global " ++ n ++ "=")) eqn:E; [|reflexivity].
  apply startswith_longer in E. rewrite !length_append in E. simpl in E. lia.
Qed.

(** ** [modify_netlist]: one line *)

Section NetlistLines.
Variable value : Type.
Variable format_value : value -> string.

Lemma patch_line_plain (line n : string) (v : value) :
  startswith line (n ++ "=") = true ->
  patch_line format_value line (n, v) = n ++ "=" ++ format_value v ++ nl_str.
Proof. intro H. unfold patch_line. rewrite H. reflexivity. Qed.

Lemma patch_line_global (line n : string) (v : value) :
  startswith line (n ++ "=") = false ->
  startswith line ("global " ++ n ++ "=") = true ->
  patch_line format_value line (n, v) = "global " ++ n ++ "=" ++ format_value v ++ nl_str.
Proof. intros H1 H2. unfold patch_line. rewrite H1, H2. reflexivity. Qed.

Lemma patch_line_other (line n : string) (v : value) :
  startswith line (n ++ "=") = false ->
  startswith line ("global " ++ n ++ "=") = false ->
  patch_line format_value line (n, v) = line.
Proof. intros H1 H2. unfold patch_line. rewrite H1, H2. reflexivity. Qed.

(** The rewritten line keeps the prefix that made it match. *)
Lemma patch_line_keeps_plain (line n : string) (v : value) :
  startswith line (n ++ "=") = true ->
  startswith (patch_line format_value line (n, v)) (n ++ "=") = true.
Proof.
  intro H. rewrite (patch_line_plain v H).
  rewrite <- append_assoc. apply startswith_app.
Qed.

Lemma patch_line_keeps_global (line n : string) (v : value) :
  startswith line (n ++ "=") = false ->
  startswith line ("global " ++ n ++ "=") = true ->
  startswith (patch_line format_value line (n, v)) ("global " ++ n ++ "=") = true.
Proof.
  intros H1 H2. rewrite (patch_line_global v H1 H2).
  change ("global " ++ n ++ "=" ++ format_value v ++ nl_str)
    with ("global " ++ (n ++ "=" ++ format_value v ++ nl_str)).
  replace ("global " ++ (n ++ "=" ++ format_value v ++ nl_str))
    with (("global " ++ n ++ "=") ++ format_value v ++ nl_str).
  - apply startswith_app.
  - simpl. rewrite append_assoc. reflexivity.
Qed.

(** Two lines with a common prefix [pi], one step: either the step sends
    both to the same text, or both keep [pi]. *)
Lemma patch_line_common_prefix (z w pi : string) (e : string * value) :
  startswith z pi = true -> startswith w pi = true ->
  patch_line format_value z e = patch_line format_value w e \/
  (startswith (patch_line format_value z e) pi = true /\
   startswith (patch_line format_value w e) pi = true).
Proof.
  intros Hz Hw. destruct e as [n v].
  pose proof (plain_not_global n) as Hpg.
  destruct (startswith z (n ++ "=")) eqn:Zp.
  - (* z matches the plain form *)
    destruct (startswith_comparable Hz Zp) as [Hl | Hs].
    + (* the prefix is shorter than the window: w matches as well *)
      pose proof (startswith_trans Hw Hl) as Wp.
      left. rewrite (patch_line_plain v Zp), (patch_line_plain v Wp). reflexivity.
    + (* the window lies inside the prefix *)
      destruct (startswith w (n ++ "=")) eqn:Wp.
      * left. rewrite (patch_line_plain v Zp), (patch_line_plain v Wp). reflexivity.
      * destruct (startswith w ("global " ++ n ++ "=")) eqn:Wg.
        -- right. split.
           ++ exact (startswith_trans (patch_line_keeps_plain v Zp) Hs).
           ++ destruct (startswith_comparable Hw Wg) as [Hl' | Hs'].
              ** pose proof (startswith_trans Hs Hl') as C.
                 rewrite Hpg in C. discriminate.
              ** exact (startswith_trans (patch_line_keeps_global v Wp Wg) Hs').
        -- right. split.
           ++ exact (startswith_trans (patch_line_keeps_plain v Zp) Hs).
           ++ rewrite (patch_line_other v Wp Wg). exact Hw.
  - destruct (startswith z ("global " ++ n ++ "=")) eqn:Zg.
    + (* z matches the global form only *)
      destruct (startswith_comparable Hz Zg) as [Hl | Hs].
      * pose proof (startswith_trans Hw Hl) as Wg.
        destruct (startswith w (n ++ "=")) eqn:Wp.
        -- exfalso. destruct (startswith_comparable Hw Wp) as [Hl' | Hs'].
           ++ pose proof (startswith_trans Hz Hl') as C. congruence.
           ++ pose proof (startswith_trans Hs' Hl) as C. congruence.
        -- left. rewrite (patch_line_global v Zp Zg), (patch_line_global v Wp Wg).
           reflexivity.
      * destruct (startswith w (n ++ "=")) eqn:Wp.
        -- destruct (startswith_comparable Hw Wp) as [Hl' | Hs'].
           ++ pose proof (startswith_trans Hz Hl') as C. congruence.
           ++ right. split.
              ** exact (startswith_trans (patch_line_keeps_global v Zp Zg) Hs).
              ** exact (startswith_trans (patch_line_keeps_plain v Wp) Hs').
        -- destruct (startswith w ("global " ++ n ++ "=")) eqn:Wg.
           ++ left. rewrite (patch_line_global v Zp Zg), (patch_line_global v Wp Wg).
              reflexivity.
           ++ right. split.
              ** exact (startswith_trans (patch_line_keeps_global v Zp Zg) Hs).
              ** rewrite (patch_line_other v Wp Wg). exact Hw.
    + (* z is left alone *)
      rewrite (patch_line_other v Zp Zg).
      destruct (startswith w (n ++ "=")) eqn:Wp.
      * destruct (startswith_comparable Hw Wp) as [Hl' | Hs'].
        -- pose proof (startswith_trans Hz Hl') as C. congruence.
        -- right. split; [exact Hz|].
           exact (startswith_trans (patch_line_keeps_plain v Wp) Hs').
      * destruct (startswith w ("global " ++ n ++ "=")) eqn:Wg.
        -- destruct (startswith_comparable Hw Wg) as [Hl' | Hs'].
           ++ pose proof (startswith_trans Hz Hl') as C. congruence.
           ++ right. split; [exact Hz|].
              exact (startswith_trans (patch_line_keeps_global v Wp Wg) Hs').
        -- right. split; [exact Hz|]. rewrite (patch_line_other v Wp Wg). exact Hw.
Qed.

(** The same over the whole dictionary. *)
Lemma patch_common_prefix (d : dict string value) (z w pi : string) :
  startswith z pi = true -> startswith w pi = true ->
  patch format_value d z = patch format_value d w \/
  (startswith (patch format_value d z) pi = true /\ startswith (patch format_value d w) pi = true).
Proof.
  revert z w. induction d as [|e d IH]; intros z w Hz Hw.
  - right. split; assumption.
  - unfold patch. simpl.
    destruct (patch_line_common_prefix e Hz Hw) as [E | [Hz' Hw']].
    + left. rewrite E. reflexivity.
    + exact (IH _ _ Hz' Hw').
Qed.

Lemma patch_snoc (d : dict string value) (e : string * value) (line : string) :
  patch format_value (d ++ [e])%list line = patch_line format_value (patch format_value d line) e.
Proof. unfold patch. rewrite fold_left_app. reflexivity. Qed.

(** Patching a patched line changes nothing, whatever the names and the
    values are. *)
Lemma patch_idempotent (d : dict string value) (line : string) :
  patch format_value d (patch format_value d line) = patch format_value d line.
Proof.
  revert line. induction d as [|e d IH] using rev_ind; intro line.
  - reflexivity.
  - rewrite !patch_snoc.
    set (z := patch format_value d line).
    assert (Fz : patch format_value d z = z) by apply IH.
    destruct e as [n v].
    destruct (startswith z (n ++ "=")) eqn:Zp.
    + pose proof (patch_line_keeps_plain v Zp) as Kp.
      destruct (patch_common_prefix d Zp Kp) as [E | [_ Hw]].
      * rewrite <- E, Fz. reflexivity.
      * rewrite (patch_line_plain v Hw), (patch_line_plain v Zp). reflexivity.
    + destruct (startswith z ("global " ++ n ++ "=")) eqn:Zg.
      * pose proof (patch_line_keeps_global v Zp Zg) as Kg.
        destruct (patch_common_prefix d Zg Kg) as [E | [_ Hw]].
        -- rewrite <- E, Fz. reflexivity.
        -- set (w := patch format_value d (patch_line format_value z (n, v))) in *.
           assert (Wp : startswith w (n ++ "=") = false).
           { destruct (startswith w (n ++ "=")) eqn:Wp; [|reflexivity].
             destruct (startswith_comparable Hw Wp) as [Hl | Hs].
             - pose proof (startswith_trans Zg Hl) as C. congruence.
             - pose proof (plain_not_global n). congruence. }
           rewrite (patch_line_global v Wp Hw), (patch_line_global v Zp Zg).
           reflexivity.
      * rewrite (patch_line_other v Zp Zg). rewrite Fz.
        apply (patch_line_other v Zp Zg).
Qed.
End NetlistLines.

(** ** [modify_netlist]: several variables *)

Lemma no_char_app (c : ascii) (a b : string) :
  no_char c (a ++ b) = no_char c a && no_char c b.
Proof.
  induction a as [|x a IH]; simpl.
  - reflexivity.
  - rewrite IH. apply andb_assoc.
Qed.

Lemma no_char_prefix (c : ascii) (s p : string) :
  no_char c s = true -> startswith s p = true -> no_char c p = true.
Proof.
  intros Hs Hp. destruct (startswith_inv Hp) as [t ->].
  rewrite no_char_app in Hs. apply andb_true_iff in Hs. tauto.
Qed.

(** Two names without [=] whose assignment prefixes fit the same line are
    the same name. *)
Lemma same_assignment_prefix (x n m : string) :
  no_char "="%char n = true -> no_char "="%char m = true ->
  startswith x (n ++ "=") = true -> startswith x (m ++ "=") = true -> n = m.
Proof.
  revert x m. induction n as [|a n IH]; intros x m Hn Hm Hxn Hxm.
  - destruct m as [|c m]; [reflexivity|].
    destruct x as [|b x]; simpl in Hxn, Hxm; [discriminate|].
    apply andb_true_iff in Hxn. destruct Hxn as [E1 _].
    apply andb_true_iff in Hxm. destruct Hxm as [E2 _].
    apply Ascii.eqb_eq in E1. apply Ascii.eqb_eq in E2. subst b c.
    simpl in Hm. discriminate.
  - destruct x as [|b x]; simpl in Hxn; [discriminate|].
    apply andb_true_iff in Hxn. destruct Hxn as [E1 Hxn].
    apply Ascii.eqb_eq in E1. subst b.
    simpl in Hn. apply andb_true_iff in Hn. destruct Hn as [Ha Hn].
    destruct m as [|c m]; simpl in Hxm.
    + apply andb_true_iff in Hxm. destruct Hxm as [E2 _].
      rewrite E2 in Ha. discriminate.
    + apply andb_true_iff in Hxm. destruct Hxm as [E2 Hxm].
      apply Ascii.eqb_eq in E2. subst c.
      simpl in Hm. apply andb_true_iff in Hm. destruct Hm as [_ Hm].
      f_equal. exact (IH _ _ Hn Hm Hxn Hxm).
Qed.

(** A line does not fit the plain prefix of one plain name and the
    [global] prefix of another. *)
Lemma plain_and_global_prefix (x n m : string) :
  plain_name n = true -> no_char "="%char m = true ->
  startswith x (n ++ "=") = true ->
  startswith x ("global " ++ m ++ "=") = true -> False.
Proof.
  intros Hn Hm Hxn Hxg. unfold plain_name in Hn.
  apply andb_true_iff in Hn. destruct Hn as [Hne Hnb].
  assert (Hg : startswith x "global " = true).
  { apply (startswith_trans Hxg). apply (startswith_app "global " (m ++ "=")). }
  destruct (startswith_comparable Hxn Hg) as [H | H].
  - assert (C : no_char " "%char (n ++ "=") = true).
    { rewrite no_char_app, Hnb. reflexivity. }
    pose proof (no_char_prefix C H) as C'. discriminate C'.
  - assert (C : no_char "="%char "global " = true) by reflexivity.
    pose proof (no_char_prefix C H) as C'.
    rewrite no_char_app in C'. apply andb_true_iff in C'.
    destruct C' as [_ C']. discriminate C'.
Qed.

Section NetlistSelect.
Variable value : Type.
Variable format_value : value -> string.

(** A variable of another name leaves alone a line that fits [n=]. *)
Lemma patch_line_other_name_plain (x n m : string) (w : value) :
  plain_name n = true -> plain_name m = true -> m <> n ->
  startswith x (n ++ "=") = true ->
  patch_line format_value x (m, w) = x.
Proof.
  intros Hn Hm Hne Hx.
  pose proof Hn as Hn'. pose proof Hm as Hm'. unfold plain_name in Hn', Hm'.
  apply andb_true_iff in Hn'. apply andb_true_iff in Hm'.
  apply patch_line_other.
  - destruct (startswith x (m ++ "=")) eqn:E; [|reflexivity].
    exfalso. apply Hne. symmetry.
    apply (@same_assignment_prefix x n m); tauto.
  - destruct (startswith x ("global " ++ m ++ "=")) eqn:E; [|reflexivity].
    exfalso. apply (@plain_and_global_prefix x n m); tauto.
Qed.

(** And a line that fits [global n=]. *)
Lemma patch_line_other_name_global (x n m : string) (w : value) :
  plain_name n = true -> plain_name m = true -> m <> n ->
  startswith x ("global " ++ n ++ "=") = true ->
  patch_line format_value x (m, w) = x.
Proof.
  intros Hn Hm Hne Hx.
  pose proof Hn as Hn'. pose proof Hm as Hm'. unfold plain_name in Hn', Hm'.
  apply andb_true_iff in Hn'. apply andb_true_iff in Hm'.
  apply patch_line_other.
  - destruct (startswith x (m ++ "=")) eqn:E; [|reflexivity].
    exfalso. apply (@plain_and_global_prefix x m n); tauto.
  - destruct (startswith x ("global " ++ m ++ "=")) eqn:E; [|reflexivity].
    exfalso. apply Hne. symmetry.
    destruct (startswith_inv Hx) as [t Ht].
    destruct (startswith_inv E) as [u Hu].
    rewrite Ht in Hu. simpl in Hu.
    injection Hu as Hu.
    apply (@same_assignment_prefix ((n ++ "=") ++ t) n m); try tauto.
    + apply startswith_app.
    + rewrite Hu. apply startswith_app.
Qed.

(** With distinct plain names the variable whose prefix fits the line
    decides what is written, wherever it stands in the dictionary. *)
Lemma patch_selects_plain (d : dict string value) (n : string) (x : string) :
  NoDup (dict_keys d) ->
  (forall m, In m (dict_keys d) -> plain_name m = true) ->
  plain_name n = true ->
  startswith x (n ++ "=") = true ->
  (forall v, In (n, v) d ->
             patch format_value d x = n ++ "=" ++ format_value v ++ nl_str) /\
  (~ In n (dict_keys d) -> patch format_value d x = x).
Proof.
  revert x. induction d as [|[m w] d IH]; intros x Hnd Hall Hn Hx.
  - split; [intros v [] | reflexivity].
  - simpl in Hnd. inversion Hnd as [|? ? Hm Hnd']; subst.
    assert (Hall' : forall m', In m' (dict_keys d) -> plain_name m' = true).
    { intros m' Hin. apply Hall. right. exact Hin. }
    change (patch format_value ((m, w) :: d) x)
      with (patch format_value d (patch_line format_value x (m, w))).
    destruct (string_dec m n) as [-> | Hne].
    + rewrite (patch_line_plain format_value w Hx).
      assert (Hx' : startswith (n ++ "=" ++ format_value w ++ nl_str) (n ++ "=") = true).
      { rewrite <- append_assoc. apply startswith_app. }
      destruct (IH _ Hnd' Hall' Hn Hx') as [_ Hkeep].
      split.
      * intros v [Heq | Hin].
        -- injection Heq as <-. apply Hkeep. exact Hm.
        -- exfalso. apply Hm. apply in_map_iff. exists (n, v). split; [reflexivity | exact Hin].
      * intro Hno. exfalso. apply Hno. left. reflexivity.
    + rewrite (patch_line_other_name_plain w Hn (Hall m (or_introl eq_refl)) Hne Hx).
      destruct (IH _ Hnd' Hall' Hn Hx) as [Hsel Hkeep].
      split.
      * intros v [Heq | Hin]; [congruence | exact (Hsel v Hin)].
      * intro Hno. apply Hkeep. intro Hin. apply Hno. right. exact Hin.
Qed.

Lemma patch_selects_global (d : dict string value) (n : string) (x : string) :
  NoDup (dict_keys d) ->
  (forall m, In m (dict_keys d) -> plain_name m = true) ->
  plain_name n = true ->
  startswith x ("global " ++ n ++ "=") = true ->
  (forall v, In (n, v) d ->
             patch format_value d x
             = "global " ++ n ++ "=" ++ format_value v ++ nl_str) /\
  (~ In n (dict_keys d) -> patch format_value d x = x).
Proof.
  revert x. induction d as [|[m w] d IH]; intros x Hnd Hall Hn Hx.
  - split; [intros v [] | reflexivity].
  - simpl in Hnd. inversion Hnd as [|? ? Hm Hnd']; subst.
    assert (Hall' : forall m', In m' (dict_keys d) -> plain_name m' = true).
    { intros m' Hin. apply Hall. right. exact Hin. }
    change (patch format_value ((m, w) :: d) x)
      with (patch format_value d (patch_line format_value x (m, w))).
    destruct (string_dec m n) as [-> | Hne].
    + assert (Hp : startswith x (n ++ "=") = false).
      { destruct (startswith x (n ++ "=")) eqn:Ep; [|reflexivity].
        exfalso. pose proof Hn as Hn'. unfold plain_name in Hn'.
        apply andb_true_iff in Hn'.
        apply (@plain_and_global_prefix x n n); tauto. }
      pose proof (patch_line_keeps_global format_value w Hp Hx) as Hx'.
      rewrite (patch_line_global format_value w Hp Hx) in *.
      destruct (IH _ Hnd' Hall' Hn Hx') as [_ Hkeep].
      split.
      * intros v [Heq | Hin].
        -- injection Heq as <-. apply Hkeep. exact Hm.
        -- exfalso. apply Hm. apply in_map_iff. exists (n, v). split; [reflexivity | exact Hin].
      * intro Hno. exfalso. apply Hno. left. reflexivity.
    + rewrite (patch_line_other_name_global w Hn (Hall m (or_introl eq_refl)) Hne Hx).
      destruct (IH _ Hnd' Hall' Hn Hx) as [Hsel Hkeep].
      split.
      * intros v [Heq | Hin]; [congruence | exact (Hsel v Hin)].
      * intro Hno. apply Hkeep. intro Hin. apply Hno. right. exact Hin.
Qed.
End NetlistSelect.

(** ** [readlines] and [writelines] *)

Lemma no_nl_app (a b : string) : no_nl (a ++ b) = no_nl a && no_nl b.
Proof.
  induction a as [|c a IH]; simpl.
  - reflexivity.
  - rewrite IH. apply andb_assoc.
Qed.

Lemma no_nl_prefix (x p : string) :
  no_nl x = true -> startswith x p = true -> no_nl p = true.
Proof.
  intros Hx Hp. destruct (startswith_inv Hp) as [t ->].
  rewrite no_nl_app in Hx. apply andb_true_iff in Hx. tauto.
Qed.

Lemma readlines_wf (s : string) : wf_lines (readlines s).
Proof.
  induction s as [|c r IH]; simpl.
  - constructor.
  - destruct (Ascii.eqb c nl) eqn:E.
    + apply wf_cons; [|exact IH]. exists "". split; reflexivity.
    + destruct (readlines r) as [|l ls].
      * apply wf_last. split; [simpl; rewrite E; reflexivity | discriminate].
      * inversion IH as [| l' [Hn Hne] | l' ls' [b [Hb ->]] Hls]; subst.
        -- apply wf_last. split; [simpl; rewrite E, Hn; reflexivity | discriminate].
        -- apply wf_cons; [|exact Hls].
           exists (String c b). split; [simpl; rewrite E, Hb; reflexivity | reflexivity].
Qed.

Lemma readlines_no_nl (l : string) :
  no_nl l = true -> l <> "" -> readlines l = [l].
Proof.
  induction l as [|c r IH]; intros Hn Hne; [congruence|].
  simpl in Hn. apply andb_true_iff in Hn. destruct Hn as [Hc Hr].
  apply negb_true_iff in Hc. simpl. rewrite Hc.
  destruct r as [|c' r'].
  - reflexivity.
  - rewrite (IH Hr); [reflexivity | discriminate].
Qed.

Lemma readlines_full_line (b rest : string) :
  no_nl b = true ->
  readlines ((b ++ nl_str) ++ rest) = (b ++ nl_str) :: readlines rest.
Proof.
  induction b as [|c b IH]; intro Hn.
  - reflexivity.
  - simpl in Hn. apply andb_true_iff in Hn. destruct Hn as [Hc Hb].
    apply negb_true_iff in Hc. simpl. rewrite Hc.
    rewrite (IH Hb). reflexivity.
Qed.

Lemma readlines_writelines (ls : list string) :
  wf_lines ls -> readlines (writelines ls) = ls.
Proof.
  induction 1 as [| l [Hn Hne] | l ls [b [Hb ->]] Hls IH].
  - reflexivity.
  - unfold writelines. simpl. rewrite append_nil_r.
    apply readlines_no_nl; assumption.
  - change (writelines ((b ++ nl_str) :: ls))
      with ((b ++ nl_str) ++ writelines ls).
    rewrite (readlines_full_line _ Hb), IH. reflexivity.
Qed.

Lemma writelines_readlines (s : string) : writelines (readlines s) = s.
Proof.
  induction s as [|c r IH]; simpl.
  - reflexivity.
  - destruct (Ascii.eqb c nl) eqn:E.
    + apply Ascii.eqb_eq in E. subst c.
      unfold writelines in *. simpl. rewrite IH. reflexivity.
    + destruct (readlines r) as [|l ls].
      * unfold writelines in *. simpl in *. subst r. reflexivity.
      * unfold writelines in *. simpl in *. rewrite IH. reflexivity.
Qed.

(** A prefix that ends in [=] and fits a line holds no line feed. *)
Lemma match_prefix_no_nl (x m : string) :
  is_full_line x \/ no_nl x = true ->
  startswith x (m ++ "=") = true -> no_nl (m ++ "=") = true.
Proof.
  intros [[b [Hb ->]] | Hx] Hm.
  - revert b Hb Hm. induction m as [|c m IH]; intros b Hb Hm.
    + reflexivity.
    + destruct b as [|a b].
      * simpl in Hm. apply andb_true_iff in Hm. destruct Hm as [_ Hm].
        destruct m; discriminate.
      * simpl in Hm, Hb.
        apply andb_true_iff in Hm. destruct Hm as [Hc Hm].
        apply andb_true_iff in Hb. destruct Hb as [Ha Hb].
        apply Ascii.eqb_eq in Hc. subst c.
        simpl. rewrite Ha. simpl. exact (IH _ Hb Hm).
  - exact (no_nl_prefix Hx Hm).
Qed.

(** ** [modify_netlist]: the whole file *)

Section NetlistFile.
Variable value : Type.
Variable format_value : value -> string.

(** A line that matches none of the names goes through the inner loop
    untouched. *)
Lemma patch_no_match (d : dict string value) (line : string) :
  (forall n v, In (n, v) d ->
     startswith line (n ++ "=") = false /\
     startswith line ("global " ++ n ++ "=") = false) ->
  patch format_value d line = line.
Proof.
  induction d as [|[n v] d IH]; intro H.
  - reflexivity.
  - change (patch format_value ((n, v) :: d) line)
      with (patch format_value d (patch_line format_value line (n, v))).
    destruct (H n v (or_introl eq_refl)) as [H1 H2].
    rewrite (patch_line_other format_value v H1 H2). apply IH. intros n' v' Hin. apply (H n' v'). right. exact Hin.
Qed.

(** One step keeps a line a line, when the value holds no line feed. *)
Lemma patch_line_shape (x : string) (e : string * value) :
  is_full_line x \/ no_nl x = true ->
  no_nl (format_value (snd e)) = true ->
  patch_line format_value x e = x \/ is_full_line (patch_line format_value x e).
Proof.
  intros Hx Hv. destruct e as [n v]. simpl in Hv.
  destruct (startswith x (n ++ "=")) eqn:Xp.
  - right. rewrite (patch_line_plain format_value v Xp).
    exists (n ++ "=" ++ format_value v). split.
    + pose proof (match_prefix_no_nl Hx Xp) as Hm.
      rewrite no_nl_app in Hm. apply andb_true_iff in Hm. destruct Hm as [Hn _].
      rewrite !no_nl_app, Hn, Hv. reflexivity.
    + rewrite !append_assoc. reflexivity.
  - destruct (startswith x ("global " ++ n ++ "=")) eqn:Xg.
    + right. rewrite (patch_line_global format_value v Xp Xg).
      exists ("global " ++ n ++ "=" ++ format_value v). split.
      * assert (Hm : no_nl (("global " ++ n) ++ "=") = true).
        { apply (@match_prefix_no_nl x); [exact Hx|].
          rewrite append_assoc. exact Xg. }
        rewrite no_nl_app in Hm. apply andb_true_iff in Hm. destruct Hm as [Hn _].
        change ("global " ++ n ++ "=" ++ format_value v)
          with ("global " ++ (n ++ "=" ++ format_value v)).
        rewrite <- append_assoc, no_nl_app, Hn, no_nl_app, Hv. reflexivity.
      * simpl. rewrite !append_assoc. reflexivity.
    + left. apply (patch_line_other format_value v Xp Xg).
Qed.

Lemma patch_shape (d : dict string value) (x : string) :
  is_full_line x \/ no_nl x = true ->
  (forall n v, In (n, v) d -> no_nl (format_value v) = true) ->
  patch format_value d x = x \/ is_full_line (patch format_value d x).
Proof.
  revert x. induction d as [|e d IH]; intros x Hx Hd.
  - left. reflexivity.
  - assert (Hd' : forall n v, In (n, v) d -> no_nl (format_value v) = true).
    { intros n v Hin. apply (Hd n v). right. exact Hin. }
    assert (He : no_nl (format_value (snd e)) = true).
    { destruct e as [n v]. apply (Hd n v). left. reflexivity. }
    change (patch format_value (e :: d) x)
      with (patch format_value d (patch_line format_value x e)).
    destruct (patch_line_shape Hx He) as [E | F].
    + rewrite E. exact (IH x Hx Hd').
    + right. destruct (IH _ (or_introl F) Hd') as [E' | F'].
      * rewrite E'. exact F.
      * exact F'.
Qed.

Lemma map_patch_wf (d : dict string value) (ls : list string) :
  (forall n v, In (n, v) d -> no_nl (format_value v) = true) ->
  wf_lines ls -> wf_lines (map (patch format_value d) ls).
Proof.
  intros Hd. induction 1 as [| l [Hn Hne] | l ls Hl Hls IH]; simpl.
  - constructor.
  - destruct (@patch_shape d l (or_intror Hn) Hd) as [E | F].
    + rewrite E. apply wf_last. split; assumption.
    + apply wf_cons; [exact F | constructor].
  - apply wf_cons; [|exact IH].
    destruct (@patch_shape d l (or_introl Hl) Hd) as [E | F].
    + rewrite E. exact Hl.
    + exact F.
Qed.

(** Reading back what was written gives the lines that were written. *)
Lemma readlines_modify_text (text : string) (d : dict string value) :
  (forall n v, In (n, v) d -> no_nl (format_value v) = true) ->
  readlines (modify_text format_value text d) = modified_lines format_value text d.
Proof.
  intro Hd. unfold modify_text. apply readlines_writelines.
  apply map_patch_wf; [exact Hd | apply readlines_wf].
Qed.

Lemma modify_text_idempotent (text : string) (d : dict string value) :
  (forall n v, In (n, v) d -> no_nl (format_value v) = true) ->
  modify_text format_value (modify_text format_value text d) d
  = modify_text format_value text d.
Proof.
  intro Hd. unfold modify_text at 1. unfold modified_lines at 1.
  rewrite (readlines_modify_text text Hd).
  unfold modify_text, modified_lines. rewrite map_map.
  f_equal. apply map_ext. intro l. apply patch_idempotent.
Qed.

Lemma fs_write_same (fs : filesystem) (path text : string) :
  fs_write fs path text path = Some text.
Proof. unfold fs_write. rewrite String.eqb_refl. reflexivity. Qed.

Lemma fs_write_other (fs : filesystem) (path text p : string) :
  p <> path -> fs_write fs path text p = fs p.
Proof.
  intro H. unfold fs_write.
  destruct (String.eqb p path) eqn:E; [|reflexivity].
  apply String.eqb_eq in E. contradiction.
Qed.


End NetlistFile.

(** ** [robust_byte_decode] *)

Section Decode.
Context {C : Codec}.

Lemma robust_byte_decode_decodable (bs : list Byte.byte) (t : string) :
  decode bs = Decoded t -> robust_byte_decode bs = Ok t.
Proof.
  intro H. funelim (robust_byte_decode bs).
  - congruence.
  - congruence.
Qed.

Lemma robust_byte_decode_error (bs : list Byte.byte) (start stop : nat) :
  decode bs = UnicodeDecodeError start stop ->
  robust_byte_decode bs =
  bind (decode_strict (firstn start bs)) (fun head =>
  bind (robust_byte_decode (skipn stop bs)) (fun rest =>
  Ok (head ++ ("\x" ++ hex (slice bs start stop)) ++ rest))).
Proof.
  intro H. funelim (robust_byte_decode bs).
  - congruence.
  - clear H0. rewrite H1 in E. injection E as <- <-. reflexivity.
Qed.

Lemma slice_one (pre post : list Byte.byte) (b : Byte.byte) :
  slice (pre ++ b :: post)%list (List.length pre) (S (List.length pre)) = [b].
Proof.
  unfold slice.
  replace (S (List.length pre) - List.length pre) with 1 by lia.
  rewrite skipn_app, skipn_all, Nat.sub_diag. reflexivity.
Qed.

Lemma firstn_pre (pre post : list Byte.byte) (b : Byte.byte) :
  firstn (List.length pre) (pre ++ b :: post)%list = pre.
Proof.
  rewrite firstn_app, firstn_all, Nat.sub_diag. simpl. apply app_nil_r.
Qed.

Lemma skipn_post (pre post : list Byte.byte) (b : Byte.byte) :
  skipn (S (List.length pre)) (pre ++ b :: post)%list = post.
Proof.
  rewrite skipn_app.
  rewrite (skipn_all2 pre) by lia.
  replace (S (List.length pre) - List.length pre) with 1 by lia. reflexivity.
Qed.

(** One reported byte between two decodable parts. *)
Lemma robust_byte_decode_between
      (pre post : list Byte.byte) (b : Byte.byte) (t1 t2 : string) :
  decode pre = Decoded t1 ->
  decode post = Decoded t2 ->
  decode (pre ++ b :: post)%list
  = UnicodeDecodeError (List.length pre) (S (List.length pre)) ->
  robust_byte_decode (pre ++ b :: post)%list
  = Ok (t1 ++ ("\x" ++ hex_byte b) ++ t2).
Proof.
  intros H1 H2 H.
  rewrite (robust_byte_decode_error H).
  rewrite firstn_pre, skipn_post, slice_one.
  unfold decode_strict. rewrite H1.
  rewrite (robust_byte_decode_decodable H2).
  unfold hex, bind, fold_right. rewrite append_nil_r. reflexivity.
Qed.

(** C7.  A byte string whose one invalid byte [b] stands between the
    decodable [pre] and [post] is decoded, without an exception, to the
    text of [pre], the escape [\x] with the two hex digits of [b], and
    the text of [post]; a decodable byte string is decoded as [decode]
    does. *)
Theorem robust_byte_decode_one_invalid_byte :
  (forall (pre post : list Byte.byte) (b : Byte.byte) (t1 t2 : string),
      decode pre = Decoded t1 ->
      decode post = Decoded t2 ->
      decode (pre ++ b :: post)%list
      = UnicodeDecodeError (List.length pre) (S (List.length pre)) ->
      robust_byte_decode (pre ++ b :: post)%list
      = Ok (t1 ++ ("\x" ++ hex_byte b) ++ t2))
  /\
  (forall (bs : list Byte.byte) (t : string),
      decode bs = Decoded t -> robust_byte_decode bs = Ok t).
Proof.
  split.
  - intros pre post b t1 t2. apply robust_byte_decode_between.
  - intros bs t. apply robust_byte_decode_decodable.
Qed.
End Decode.

(** For the ASCII codec the hypotheses read on the bytes themselves. *)
Lemma ascii_scan_all_ok (bs : list Byte.byte) (i : nat) :
  forallb ascii_ok bs = true ->
  ascii_scan i bs = Decoded (string_of_list_ascii (map ascii_of_byte bs)).
Proof.
  revert i. induction bs as [|b bs IH]; intros i H; simpl in *.
  - reflexivity.
  - apply andb_true_iff in H. destruct H as [Hb Hbs].
    rewrite Hb, (IH _ Hbs). reflexivity.
Qed.

Lemma ascii_scan_first_bad (pre post : list Byte.byte) (b : Byte.byte) (i : nat) :
  forallb ascii_ok pre = true -> ascii_ok b = false ->
  ascii_scan i (pre ++ b :: post)%list
  = UnicodeDecodeError (i + List.length pre) (S (i + List.length pre)).
Proof.
  revert i. induction pre as [|a pre IH]; intros i Hp Hb; simpl in *.
  - rewrite Hb, Nat.add_0_r. reflexivity.
  - apply andb_true_iff in Hp. destruct Hp as [Ha Hp].
    rewrite Ha, (IH _ Hp Hb). rewrite <- plus_n_Sm. reflexivity.
Qed.

Lemma robust_byte_decode_ascii (pre post : list Byte.byte) (b : Byte.byte) :
  forallb ascii_ok pre = true -> forallb ascii_ok post = true ->
  ascii_ok b = false ->
  robust_byte_decode (pre ++ b :: post)%list
  = Ok (string_of_list_ascii (map ascii_of_byte pre)
        ++ ("\x" ++ hex_byte b)
        ++ string_of_list_ascii (map ascii_of_byte post)).
Proof.
  intros Hpre Hpost Hb.
  apply robust_byte_decode_between.
  - exact (ascii_scan_all_ok 0 Hpre).
  - exact (ascii_scan_all_ok 0 Hpost).
  - exact (ascii_scan_first_bad post 0 Hpre Hb).
Qed.

(** The bytes [b"ab\xffcd"] decode to [ab\xffcd], eight characters. *)
Lemma robust_byte_decode_one_invalid_byte_witness :
  robust_byte_decode (C := ascii_codec)
    [Byte.x61; Byte.x62; Byte.xff; Byte.x63; Byte.x64]
  = Ok "ab\xffcd".
Proof.
  exact (proj1 (@robust_byte_decode_one_invalid_byte ascii_codec)
           [Byte.x61; Byte.x62] [Byte.x63; Byte.x64] Byte.xff "ab" "cd"
           eq_refl eq_refl eq_refl).
Defined.

(** ** The sweep specification *)

Lemma map_nth_seq (A : Type) (d : A) (l : list A) :
  map (fun i => nth i l d) (seq 0 (List.length l)) = l.
Proof.
  induction l as [|a l IH]; simpl.
  - reflexivity.
  - f_equal. rewrite <- seq_shift, map_map. exact IH.
Qed.

Lemma map_nth_reversed_range (A : Type) (d : A) (l : list A) :
  map (fun i => nth i l d) (reversed_range (List.length l)) = rev l.
Proof.
  unfold reversed_range. rewrite map_rev, map_nth_seq. reflexivity.
Qed.

(** Reordering by the reversed range reverses the names and every tuple
    that is as long as the list of names. *)
Lemma reorder_levels_reversed (idx : MultiIndex) :
  Forall (fun t => List.length t = List.length (names idx)) (tuples idx) ->
  reorder_levels idx (reversed_range (List.length (names idx)))
  = {| names := rev (names idx); tuples := map (@rev pyobj) (tuples idx) |}.
Proof.
  intro H. unfold reorder_levels. f_equal.
  - apply map_nth_reversed_range.
  - apply map_ext_in. intros t Ht.
    rewrite Forall_forall in H. rewrite <- (H t Ht).
    apply map_nth_reversed_range.
Qed.

Lemma mapM_row_of_tuples (rows : list (list pyobj)) :
  mapM row_of (map PTuple rows) = Ok rows.
Proof.
  induction rows as [|r rows IH]; simpl.
  - reflexivity.
  - rewrite IH. reflexivity.
Qed.

Lemma max_length_uniform (n : nat) (rows : list (list pyobj)) :
  rows <> [] ->
  Forall (fun r => List.length r = n) rows ->
  fold_right Nat.max 0 (map (@List.length pyobj) rows) = n.
Proof.
  intros Hne H. induction H as [|r rows Hr Hrows IH]; [congruence|].
  simpl. rewrite Hr. destruct rows as [|r' rows'].
  - simpl. lia.
  - rewrite IH by discriminate. lia.
Qed.

Lemma pad_full (n : nat) (rows : list (list pyobj)) :
  Forall (fun r => List.length r = n) rows -> map (pad n) rows = rows.
Proof.
  intro H. induction H as [|r rows Hr Hrows IH]; simpl.
  - reflexivity.
  - rewrite IH. unfold pad. rewrite Hr, Nat.sub_diag. simpl.
    rewrite app_nil_r. reflexivity.
Qed.

Lemma not_all_empty (n : nat) (rows : list (list pyobj)) :
  rows <> [] -> 0 < n ->
  Forall (fun r => List.length r = n) rows ->
  forallb is_empty_tuple (map PTuple rows) = false.
Proof.
  intros Hne Hn H. destruct H as [|r rows Hr _]; [congruence|].
  simpl. destruct r; [simpl in Hr; lia | reflexivity].
Qed.

(** [from_tuples] on a non-empty list of tuples that all have one entry a
    name. *)
Lemma from_tuples_regular (rows : list (list pyobj)) (nms : list label) :
  rows <> [] -> nms <> [] ->
  Forall (fun r => List.length r = List.length nms) rows ->
  from_tuples (map PTuple rows) (NameList nms)
  = Ok {| names := nms; tuples := rows |}.
Proof.
  intros Hne Hn H. unfold from_tuples.
  destruct (map PTuple rows) eqn:E.
  - destruct rows; [congruence | discriminate].
  - rewrite <- E. rewrite mapM_row_of_tuples. simpl.
    rewrite (max_length_uniform Hne H).
    rewrite (@not_all_empty (List.length nms) rows Hne); [| |exact H].
    + rewrite Nat.eqb_refl, (pad_full H). reflexivity.
    + destruct nms; [congruence | simpl; lia].
Qed.

(** What the claim asks of the index built from the declared names and
    rows: the axes in reverse order, as many tuples, each reversed, and
    the pairs (name, value) of every tuple the same, in reverse order. *)
Definition reversed_index (in_names : list label)
           (in_rows : list (list pyobj)) (idx : MultiIndex) : Prop :=
  names idx = rev in_names /\
  List.length (tuples idx) = List.length in_rows /\
  tuples idx = map (@rev pyobj) in_rows /\
  map (combine (names idx)) (tuples idx)
  = map (fun r => rev (combine in_names r)) in_rows.

Lemma combine_rev (A B : Type) (l : list A) (r : list B) :
  List.length l = List.length r ->
  combine (rev l) (rev r) = rev (combine l r).
Proof.
  revert r. induction l as [|a l IH]; intros [|b r] H; simpl in *; try lia.
  - reflexivity.
  - injection H as H.
    assert (Hc : forall (x : list A) (y : list B) a' b',
               List.length x = List.length y ->
               combine (x ++ [a']) (y ++ [b']) = (combine x y ++ [(a', b')])%list).
    { clear. induction x as [|x0 x IHx]; intros [|y0 y] a' b' Hl; simpl in *; try lia.
      - reflexivity.
      - f_equal. apply IHx. lia. }
    rewrite Hc by (rewrite !length_rev; exact H).
    rewrite (IH _ H). reflexivity.
Qed.

Lemma reversed_index_intro (nms : list label) (rows : list (list pyobj)) :
  Forall (fun r => List.length r = List.length nms) rows ->
  reversed_index nms rows
    {| names := rev nms; tuples := map (@rev pyobj) rows |}.
Proof.
  intro H. unfold reversed_index. simpl.
  split; [reflexivity|]. split; [apply length_map|]. split; [reflexivity|].
  rewrite map_map. apply map_ext_in. intros r Hr.
  rewrite Forall_forall in H. apply combine_rev. symmetry. exact (H r Hr).
Qed.

(** C1.  For every valid sweep specification the constructor yields an
    index with the axes in the reverse of the declared order and one
    tuple, reversed likewise, for every declared tuple (for every scalar of
    a single-axis list), so that every tuple keeps its (name, value)
    pairs: for a non-empty list of tuples with one name a position, for a
    non-empty list of numbers with one string name, and for a pre-built
    index whose levels are all named. *)
Theorem newSweepingVars_reverses_axes :
  (forall (rows : list (list pyobj)) (nms : list string),
      rows <> [] -> nms <> [] ->
      Forall (fun r => List.length r = List.length nms) rows ->
      exists idx,
        newSweepingVars (InList (map PTuple rows)) (NameList (map Some nms)) = Ok idx /\
        reversed_index (map Some nms) rows idx)
  /\
  (forall (xs : list pyobj) (nm : string),
      xs <> [] -> forallb is_number xs = true ->
      exists idx,
        newSweepingVars (InList xs) (NameStr nm) = Ok idx /\
        reversed_index [Some nm] (map (fun x => [x]) xs) idx /\
        List.length (tuples idx) = List.length xs)
  /\
  (forall (idx0 : MultiIndex) (var_names : names_arg),
      existsb is_none (names idx0) = false ->
      Forall (fun t => List.length t = List.length (names idx0)) (tuples idx0) ->
      exists idx,
        newSweepingVars (InMultiIndex idx0) var_names = Ok idx /\
        reversed_index (names idx0) (tuples idx0) idx).
Proof.
  split; [|split].
  - intros rows nms Hne Hn H.
    exists {| names := rev (map Some nms); tuples := map (@rev pyobj) rows |}.
    split.
    + unfold newSweepingVars, check_vars.
      assert (Hall : forallb (fun item => is_iterable item || is_number item)
                       (map PTuple rows) = true).
      { rewrite forallb_forall. intros x Hx. apply in_map_iff in Hx.
        destruct Hx as [r [<- _]]. reflexivity. }
      rewrite Hall. destruct rows as [|r rows]; [congruence|].
      change (map PTuple (r :: rows)) with (PTuple r :: map PTuple rows) at 1.
      cbv beta iota. change (is_iterable (PTuple r)) with true. cbv iota.
      change (PTuple r :: map PTuple rows) with (map PTuple (r :: rows)).
      assert (Hn' : map Some nms <> []).
      { destruct nms; [congruence | discriminate]. }
      assert (H' : Forall (fun r : list pyobj =>
                             List.length r = List.length (map Some nms)) (r :: rows)).
      { rewrite length_map. exact H. }
      rewrite (from_tuples_regular Hne Hn' H'). simpl bind.
      rewrite reorder_levels_reversed; simpl.
      * reflexivity.
      * exact H'.
    + apply reversed_index_intro. rewrite length_map. exact H.
  - intros xs nm Hne Hnum.
    assert (Hl : Forall (fun r : list pyobj => List.length r = List.length [Some nm])
                   (map (fun x => [x]) xs)).
    { rewrite Forall_forall. intros r Hr. apply in_map_iff in Hr.
      destruct Hr as [x [<- _]]. reflexivity. }
    assert (Hne' : map (fun x : pyobj => [x]) xs <> []).
    { destruct xs; [congruence | discriminate]. }
    exists {| names := rev [Some nm];
              tuples := map (@rev pyobj) (map (fun x => [x]) xs) |}.
    split; [|split].
    + unfold newSweepingVars, check_vars.
      assert (Hall : forallb (fun item => is_iterable item || is_number item) xs = true).
      { rewrite forallb_forall in *. intros x Hx. rewrite (Hnum x Hx).
        apply orb_true_r. }
      rewrite Hall. destruct xs as [|x xs]; [congruence|].
      assert (Hx : is_number x = true).
      { simpl in Hnum. apply andb_true_iff in Hnum. tauto. }
      assert (Hi : is_iterable x = false).
      { destruct x; simpl in *; congruence. }
      rewrite Hi, Hx.
      replace (map (fun item => PTuple [item]) (x :: xs))
        with (map PTuple (map (fun x => [x]) (x :: xs)))
        by (rewrite map_map; reflexivity).
      rewrite (@from_tuples_regular _ [Some nm] Hne' ltac:(discriminate) Hl). simpl bind.
      rewrite reorder_levels_reversed; simpl.
      * reflexivity.
      * exact Hl.
    + apply (@reversed_index_intro [Some nm]). exact Hl.
    + simpl. rewrite !length_map. reflexivity.
  - intros idx0 var_names Hnm Hwf.
    exists {| names := rev (names idx0); tuples := map (@rev pyobj) (tuples idx0) |}.
    split.
    + unfold newSweepingVars, check_vars. rewrite Hnm. simpl bind.
      rewrite (reorder_levels_reversed Hwf). reflexivity.
    + apply reversed_index_intro. exact Hwf.
Qed.

(** The inputs the constructor turns down with a [ValueError]. *)
Inductive rejected : sweep_input -> names_arg -> Prop :=
| rej_unnamed_level idx var_names :
    In None (names idx) ->
    rejected (InMultiIndex idx) var_names
| rej_tuples_without_names first rest :
    forallb (fun item => is_iterable item || is_number item) (first :: rest) = true ->
    is_iterable first = true ->
    rejected (InList (first :: rest)) NoNames
| rej_scalars_without_name first rest var_names :
    forallb (fun item => is_iterable item || is_number item) (first :: rest) = true ->
    is_number first = true ->
    (forall s, var_names <> NameStr s) ->
    rejected (InList (first :: rest)) var_names
| rej_element items var_names item :
    In item items ->
    is_iterable item = false -> is_number item = false ->
    rejected (InList items) var_names
| rej_level_count rows nms :
    Exists (fun r => r <> []) rows ->
    fold_right Nat.max 0 (map (@List.length pyobj) rows) <> List.length nms ->
    rejected (InList (map PTuple rows)) (NameList nms)
| rej_not_iterable var_names :
    rejected InOther var_names.

Lemma some_row_not_empty (rows : list (list pyobj)) :
  Exists (fun r => r <> []) rows ->
  forallb is_empty_tuple (map PTuple rows) = false.
Proof.
  induction 1 as [r rows Hr | r rows _ IH]; simpl.
  - destruct r; [congruence | reflexivity].
  - rewrite IH. apply andb_false_r.
Qed.


(** Tuples of unequal length are not turned down either when the longest
    has one entry a name: the short ones are filled up. *)
Lemma newSweepingVars_accepts_short_tuple :
  newSweepingVars (InList [PTuple [PInt 1; PInt 2]; PTuple [PInt 3]])
    (NameList [Some "a"; Some "b"])
  = Ok {| names := [Some "b"; Some "a"];
          tuples := [[PInt 2; PInt 1]; [PNaN; PInt 3]] |}.
Proof. reflexivity. Qed.



Lemma newSweepingVars_reverses_axes_witness :
  exists idx,
    newSweepingVars
      (InList (map PTuple [[PInt 1; PStr "a"]; [PInt 2; PStr "b"]; [PInt 3; PStr "c"]]))
      (NameList (map Some ["n"; "s"])) = Ok idx /\
    reversed_index (map Some ["n"; "s"])
      [[PInt 1; PStr "a"]; [PInt 2; PStr "b"]; [PInt 3; PStr "c"]] idx.
Proof.
  apply (proj1 newSweepingVars_reverses_axes).
  - discriminate.
  - discriminate.
  - repeat constructor.
Defined.



(** ** One run *)

Section WorkerProps.
Context {E : Externals}.


(** An exception of another class leaves the worker function. *)
Lemma sim_worker_fcn_other_error
  (mgr : SimulationManager) (tuple : list pyobj) (fw : FinishedWorker)
  (cls msg : string) :
  handler_run mgr (dict_of_pairs (combine (names (mgr_sweep mgr)) tuple)) = Ok fw ->
  isfile (origDataFilePath fw) = true ->
  read_file (origDataFilePath fw) = Raise (OtherError cls msg) ->
  _sim_worker_fcn mgr tuple = Raise (OtherError cls msg).
Proof.
  intros Hrun Hfile Hread. unfold _sim_worker_fcn.
  rewrite Hrun. simpl bind. rewrite Hfile, Hread. reflexivity.
Qed.
End WorkerProps.


(** ** Collecting the results *)

Section CollectProps.
Context {E : Externals}.

(** The first result with blocks is taken over as it is: its blocks and
    its metadata become the lists of the merge. *)
Lemma collect_retvals_template (st : Collected) (retvals : RetVals)
      (data : list item) (m : list BlockMeta) :
  isFirstValidWorker st = true ->
  rv_data retvals = Some data -> rv_metadata retvals = Some m ->
  collect_retvals st retvals
  = Ok {| finishedWorkers := (finishedWorkers st ++ [rv_fw retvals])%list;
          concatBlocks := (concatBlocks st ++ data)%list;
          concatBlocksMetadata := m;
          isFirstValidWorker := false |}.
Proof.
  intros H1 H2 H3. unfold collect_retvals. rewrite H2, H1, H3. reflexivity.
Qed.

(** A result without blocks only adds its run to the finished ones. *)
Lemma collect_retvals_no_data (st : Collected) (retvals : RetVals) :
  rv_data retvals = None ->
  collect_retvals st retvals
  = Ok {| finishedWorkers := (finishedWorkers st ++ [rv_fw retvals])%list;
          concatBlocks := concatBlocks st;
          concatBlocksMetadata := concatBlocksMetadata st;
          isFirstValidWorker := isFirstValidWorker st |}.
Proof. intro H. unfold collect_retvals. rewrite H. reflexivity. Qed.

(** A later block that is no frame is passed over. *)
Lemma merge_block_skips_scalar (cb : list item) (b : nat) (blk : Block) :
  merge_block cb (b, IBlock blk) = Ok cb.
Proof. reflexivity. Qed.

(** A later frame goes behind the frame of the template with the same
    index names and columns. *)
Lemma merge_block_appends (cb : list item) (b : nat) (a df : DataFrame) :
  nth_error cb b = Some (IFrame a) ->
  index_names a = index_names df -> df_columns a = df_columns df ->
  merge_block cb (b, IFrame df)
  = Ok (list_set cb b
          (IFrame {| index_names := index_names a; df_columns := df_columns a;
                     df_rows := (df_rows a ++ df_rows df)%list |})).
Proof.
  intros Hn Hi Hc. unfold merge_block, pd_concat, concat_frames.
  rewrite Hn, Hi, Hc.
  assert (R : forall l : list label, list_eqb label_eqb l l = true).
  { induction l as [|x l IH]; simpl; [reflexivity|].
    rewrite IH, (proj2 (label_eqb_eq x x) eq_refl). reflexivity. }
  rewrite !R. reflexivity.
Qed.

(** A later frame at a place where the template holds a block without
    independent variables is not passed over: [pd.concat] raises. *)
Lemma merge_block_type_clash (cb : list item) (b : nat) (blk : Block)
      (df : DataFrame) :
  nth_error cb b = Some (IBlock blk) ->
  raises (merge_block cb (b, IFrame df)).
Proof.
  intro Hn. unfold merge_block, pd_concat. rewrite Hn.
  eexists. reflexivity.
Qed.

(** And a later frame at a place the template does not have. *)
Lemma merge_block_out_of_range (cb : list item) (b : nat) (df : DataFrame) :
  List.length cb <= b ->
  merge_block cb (b, IFrame df) = Raise IndexError.
Proof.
  intro H. unfold merge_block.
  rewrite (proj2 (nth_error_None cb b) H). reflexivity.
Qed.
End CollectProps.

(** C3, where the code leaves the claim.  The run for [bias = 0] yields a
    block without independent variables, the run for [bias = 1] a frame at
    the same place: the frame is not skipped, [run] ends with the
    [TypeError] of [pd.concat]. *)
Theorem run_type_clash_raises :
  run (E := bench_clash) bench_mgr
  = Raise (TypeError "cannot concatenate object of type Block; only Series and DataFrame objs are valid").
Proof. vm_compute. reflexivity. Qed.

(** ** Dictionaries *)

Section DictProps.
Context {K : Type} {HK : Key K} {V : Type}.

Lemma key_eqb_refl (k : K) : key_eqb k k = true.
Proof. apply key_eqb_eq. reflexivity. Qed.

Lemma key_eqb_neq (a b : K) : a <> b -> key_eqb a b = false.
Proof.
  intro H. destruct (key_eqb a b) eqn:E; [|reflexivity].
  apply key_eqb_eq in E. contradiction.
Qed.

Lemma dict_get_set_same (d : dict K V) (k : K) (v : V) :
  dict_get (dict_set d k v) k = Some v.
Proof.
  induction d as [|[k' v'] d IH]; simpl.
  - rewrite key_eqb_refl. reflexivity.
  - destruct (key_eqb k k') eqn:Ek; simpl; rewrite Ek; [reflexivity | exact IH].
Qed.

Lemma dict_get_set_other (d : dict K V) (k k' : K) (v : V) :
  k <> k' -> dict_get (dict_set d k v) k' = dict_get d k'.
Proof.
  intro Hne. induction d as [|[k0 v0] d IH]; simpl.
  - rewrite (key_eqb_neq (a := k') (b := k)); [reflexivity | congruence].
  - destruct (key_eqb k k0) eqn:Ek; simpl.
    + apply key_eqb_eq in Ek. subst k0.
      rewrite (key_eqb_neq (a := k') (b := k)); [reflexivity | congruence].
    + destruct (key_eqb k' k0); [reflexivity | exact IH].
Qed.

Lemma dict_get_none (d : dict K V) (k : K) :
  dict_get d k = None <-> ~ In k (dict_keys d).
Proof.
  induction d as [|[k' v'] d IH]; simpl.
  - tauto.
  - destruct (key_eqb k k') eqn:Ek.
    + apply key_eqb_eq in Ek. subst k'. split; [discriminate | intro H; tauto].
    + rewrite IH. split.
      * intros H [H1 | H1]; [subst k'; rewrite key_eqb_refl in Ek; discriminate | tauto].
      * tauto.
Qed.

Lemma dict_mem_in (d : dict K V) (k : K) :
  dict_mem d k = true <-> In k (dict_keys d).
Proof.
  unfold dict_mem. induction d as [|[k' v'] d IH]; simpl.
  - split; [discriminate | tauto].
  - destruct (key_eqb k k') eqn:Ek.
    + apply key_eqb_eq in Ek. subst k'. split; auto.
    + split; intro H.
      * right. apply IH. exact H.
      * destruct H as [H | H].
        -- subst k'. rewrite key_eqb_refl in Ek. discriminate.
        -- apply IH. exact H.
Qed.

Lemma dict_keys_set (d : dict K V) (k : K) (v : V) :
  dict_keys (dict_set d k v)
  = if dict_mem d k then dict_keys d else (dict_keys d ++ [k])%list.
Proof.
  unfold dict_mem. induction d as [|[k' v'] d IH]; simpl.
  - reflexivity.
  - destruct (key_eqb k k') eqn:Ek; simpl.
    + reflexivity.
    + rewrite IH. destruct (dict_get d k); reflexivity.
Qed.

Lemma dict_set_nodup (d : dict K V) (k : K) (v : V) :
  NoDup (dict_keys d) -> NoDup (dict_keys (dict_set d k v)).
Proof.
  intro H. rewrite dict_keys_set. destruct (dict_mem d k) eqn:M; [exact H|].
  apply NoDup_app; [exact H | repeat constructor; intros [] |].
  intros x Hx [<- | []].
  apply dict_mem_in in Hx. congruence.
Qed.

Lemma dict_get_in (d : dict K V) (k : K) (v : V) :
  NoDup (dict_keys d) -> In (k, v) d -> dict_get d k = Some v.
Proof.
  induction d as [|[k' v'] d IH]; simpl; intros Hnd Hin; [contradiction|].
  inversion Hnd as [|? ? Hk Hd]; subst.
  destruct Hin as [Heq | Hin].
  - injection Heq as -> ->. rewrite key_eqb_refl. reflexivity.
  - destruct (key_eqb k k') eqn:Ek.
    + apply key_eqb_eq in Ek. subst k'. exfalso. apply Hk.
      apply in_map_iff. exists (k, v). split; [reflexivity | exact Hin].
    + exact (IH Hd Hin).
Qed.

Lemma dict_get_some_in (d : dict K V) (k : K) (v : V) :
  dict_get d k = Some v -> In (k, v) d.
Proof.
  induction d as [|[k' v'] d IH]; simpl; intro H; [discriminate|].
  destruct (key_eqb k k') eqn:Ek.
  - apply key_eqb_eq in Ek. injection H as ->. left. congruence.
  - right. exact (IH H).
Qed.
End DictProps.

(** ** The summary of the logs *)

(** The runs, in the order of the data, whose dictionary [sel] has the
    message among its keys. *)
Definition exhibiting (sel : LogEntry -> dict string (list string))
           (data : dict string LogEntry) (msg : string) : list string :=
  map fst (filter (fun kv => dict_mem (sel (snd kv)) msg) data).

(** One of the two groupings [__summarize_logfiles] builds. *)
Definition grouped_by (sel : LogEntry -> dict string (list string))
           (data : dict string LogEntry) (init : dict string (list string))
  : dict string (list string) :=
  fold_left (fun s kv => group_messages s (dict_keys (sel (snd kv))) (fst kv))
            data init.

Definition runs_of (s : dict string (list string)) (m : string) : list string :=
  match dict_get s m with
  | Some l => l
  | None => []
  end.

Lemma summarize_logfiles_fold (data : dict string LogEntry)
      (w e : dict string (list string)) (r : ReadErrors) :
  fst (fold_left
         (fun acc kv =>
            let '(warningsSummary, errorsSummary, readErrorsSummary) := acc in
            let (key, value) := (kv : string * LogEntry) in
            (group_messages warningsSummary (dict_keys (le_simulatorWarnings value)) key,
             group_messages errorsSummary (dict_keys (le_simulatorErrors value)) key,
             count_read_error readErrorsSummary (le_readError value)))
         data (w, e, r))
  = (grouped_by le_simulatorWarnings data w, grouped_by le_simulatorErrors data e).
Proof.
  revert w e r. induction data as [|[key value] data IH]; intros w e r; simpl.
  - reflexivity.
  - rewrite IH. reflexivity.
Qed.

Lemma summarize_logfiles_groups (data : dict string LogEntry) :
  fst (fst (__summarize_logfiles data)) = grouped_by le_simulatorWarnings data [] /\
  snd (fst (__summarize_logfiles data)) = grouped_by le_simulatorErrors data [].
Proof.
  unfold __summarize_logfiles. rewrite summarize_logfiles_fold. split; reflexivity.
Qed.

Lemma group_append_get_same (A : Type) (d : dict string (list A)) (k : string) (x : A) :
  dict_get (group_append d k x) k
  = Some (match dict_get d k with Some l => l ++ [x] | None => [x] end)%list.
Proof.
  unfold group_append. destruct (dict_get d k); apply dict_get_set_same.
Qed.

Lemma group_append_get_other (A : Type) (d : dict string (list A)) (k k' : string) (x : A) :
  k <> k' -> dict_get (group_append d k x) k' = dict_get d k'.
Proof.
  intro H. unfold group_append.
  destruct (dict_get d k); apply dict_get_set_other; exact H.
Qed.

Lemma group_append_nodup (A : Type) (d : dict string (list A)) (k : string) (x : A) :
  NoDup (dict_keys d) -> NoDup (dict_keys (group_append d k x)).
Proof.
  intro H. unfold group_append. destruct (dict_get d k); apply dict_set_nodup; exact H.
Qed.

Lemma group_messages_nodup (s : dict string (list string)) (msgs : list string)
      (key : string) :
  NoDup (dict_keys s) -> NoDup (dict_keys (group_messages s msgs key)).
Proof.
  revert s. induction msgs as [|x msgs IH]; intros s H; simpl.
  - exact H.
  - apply IH. apply group_append_nodup. exact H.
Qed.

Lemma group_messages_get_other (s : dict string (list string)) (msgs : list string)
      (key m : string) :
  ~ In m msgs -> dict_get (group_messages s msgs key) m = dict_get s m.
Proof.
  revert s. induction msgs as [|x msgs IH]; intros s H; simpl.
  - reflexivity.
  - rewrite IH by (intro; apply H; right; assumption).
    apply group_append_get_other. intro; apply H; left; assumption.
Qed.

Lemma group_messages_get_in (s : dict string (list string)) (msgs : list string)
      (key m : string) :
  NoDup msgs -> In m msgs ->
  dict_get (group_messages s msgs key) m = Some (runs_of s m ++ [key])%list.
Proof.
  revert s. induction msgs as [|x msgs IH]; intros s Hnd Hin; simpl.
  - contradiction.
  - inversion Hnd as [|? ? Hx Hnd']; subst.
    destruct (string_dec x m) as [-> | Hne].
    + rewrite (group_messages_get_other _ key Hx), group_append_get_same.
      unfold runs_of. destruct (dict_get s m); reflexivity.
    + destruct Hin as [-> | Hin]; [congruence|].
      rewrite (IH _ Hnd' Hin). unfold runs_of.
      rewrite (group_append_get_other s key Hne). reflexivity.
Qed.

Lemma exhibiting_snoc (sel : LogEntry -> dict string (list string))
      (done : dict string LogEntry) (kv : string * LogEntry) (m : string) :
  exhibiting sel (done ++ [kv])%list m
  = (exhibiting sel done m
       ++ (if dict_mem (sel (snd kv)) m then [fst kv] else []))%list.
Proof.
  unfold exhibiting. rewrite filter_app, map_app. simpl.
  destruct (dict_mem (sel (snd kv)) m); reflexivity.
Qed.

(** The grouping holds, for every message, the runs that have it. *)
Lemma grouped_by_spec (sel : LogEntry -> dict string (list string))
      (rest done : dict string LogEntry) (s : dict string (list string)) :
  (forall kv, In kv rest -> NoDup (dict_keys (sel (snd kv)))) ->
  NoDup (dict_keys s) ->
  (forall m, dict_get s m = match exhibiting sel done m with
                            | [] => None
                            | l => Some l
                            end) ->
  NoDup (dict_keys (grouped_by sel rest s)) /\
  forall m, dict_get (grouped_by sel rest s) m
            = match exhibiting sel (done ++ rest)%list m with
              | [] => None
              | l => Some l
              end.
Proof.
  revert done s. induction rest as [|kv rest IH]; intros done s Hk Hnd Hs.
  - rewrite app_nil_r. split; assumption.
  - replace (done ++ kv :: rest)%list with ((done ++ [kv]) ++ rest)%list
      by (rewrite <- app_assoc; reflexivity).
    apply IH.
    + intros kv' Hin. apply Hk. right. exact Hin.
    + apply group_messages_nodup. exact Hnd.
    + intro m. rewrite exhibiting_snoc.
      destruct (dict_mem (sel (snd kv)) m) eqn:M.
      * rewrite group_messages_get_in.
        -- unfold runs_of. rewrite Hs.
           destruct (exhibiting sel done m); reflexivity.
        -- apply Hk. left. reflexivity.
        -- apply dict_mem_in. exact M.
      * rewrite group_messages_get_other.
        -- rewrite Hs, app_nil_r. reflexivity.
        -- intro Hin. apply dict_mem_in in Hin. congruence.
Qed.

Lemma NoDup_map_filter (A B : Type) (f : A -> B) (p : A -> bool) (l : list A) :
  NoDup (map f l) -> NoDup (map f (filter p l)).
Proof.
  induction l as [|a l IH]; simpl; intro H.
  - constructor.
  - inversion H as [|? ? Ha Hl]; subst. destruct (p a); simpl.
    + constructor; [|exact (IH Hl)].
      intro Hin. apply Ha. apply in_map_iff in Hin.
      destruct Hin as [x [Hx Hin]]. apply filter_In in Hin.
      apply in_map_iff. exists x. tauto.
    + exact (IH Hl).
Qed.

Lemma exhibiting_in (sel : LogEntry -> dict string (list string))
      (data : dict string LogEntry) (msg run : string) :
  In run (exhibiting sel data msg) <->
  exists entry, In (run, entry) data /\ In msg (dict_keys (sel entry)).
Proof.
  unfold exhibiting. rewrite in_map_iff. split.
  - intros [[k e] [Hk Hin]]. simpl in Hk. subst k.
    apply filter_In in Hin. destruct Hin as [Hin Hm]. simpl in Hm.
    exists e. split; [exact Hin | apply dict_mem_in; exact Hm].
  - intros [e [Hin Hm]]. exists (run, e). split; [reflexivity|].
    apply filter_In. split; [exact Hin | apply dict_mem_in; exact Hm].
Qed.

Section SummaryProps.
Context {E : Externals}.

Lemma extract_warnings_errors_nodup (content pattern : string) :
  NoDup (dict_keys (__extract_warnings_errors content pattern)).
Proof.
  unfold __extract_warnings_errors.
  set (step := fun (g : dict string (list string)) (m : string * string) =>
                 let (header, warningContent) := m in
                 group_append g header
                   (strip (lstrip_chars header (strip warningContent)))).
  unfold dict_keys. rewrite map_map. simpl.
  change (NoDup (dict_keys (fold_left step (re_findall pattern content) []))).
  assert (G : forall l g, NoDup (dict_keys g) -> NoDup (dict_keys (fold_left step l g))).
  { induction l as [|[h c] l IH]; intros g Hg; simpl.
    - exact Hg.
    - apply IH. apply group_append_nodup. exact Hg. }
  apply G. constructor.
Qed.

Lemma process_worker_logs_invariant (fws : list FinishedWorker)
      (data : dict string LogEntry) :
  NoDup (dict_keys data) ->
  (forall kv, In kv data -> exists fw, snd kv = log_entry fw) ->
  NoDup (dict_keys (fold_left (fun d fw => dict_set d (workerName fw) (log_entry fw))
                              fws data)) /\
  forall kv,
    In kv (fold_left (fun d fw => dict_set d (workerName fw) (log_entry fw)) fws data) ->
    exists fw, snd kv = log_entry fw.
Proof.
  revert data. induction fws as [|fw fws IH]; intros data Hnd Hall; simpl.
  - split; assumption.
  - apply IH.
    + apply dict_set_nodup. exact Hnd.
    + intros [k e] Hin. simpl.
      assert (Hs : forall (d : dict string LogEntry) k0 v0 kv0,
                 In kv0 (dict_set d k0 v0) -> In kv0 d \/ snd kv0 = v0).
      { clear. induction d as [|[k1 v1] d IHd]; intros k0 v0 kv0 H; simpl in H.
        - destruct H as [H | H]; [subst kv0 | contradiction]. right. reflexivity.
        - destruct (String.eqb k0 k1); simpl in H.
          + destruct H as [H | H]; [subst kv0; right; reflexivity | left; right; exact H].
          + destruct H as [H | H]; [subst kv0; left; left; reflexivity|].
            destruct (IHd _ _ _ H) as [H' | H']; [left; right; exact H' | right; exact H']. }
      destruct (Hs _ _ _ _ Hin) as [H | H].
      * exact (Hall _ H).
      * exists fw. exact H.
Qed.

Lemma process_worker_logs_nodup (fws : list FinishedWorker) :
  NoDup (dict_keys (__process_worker_logs fws)).
Proof.
  unfold __process_worker_logs.
  apply process_worker_logs_invariant; [constructor | intros kv []].
Qed.

Lemma process_worker_logs_entries (fws : list FinishedWorker) (kv : string * LogEntry) :
  In kv (__process_worker_logs fws) -> exists fw, snd kv = log_entry fw.
Proof.
  unfold __process_worker_logs.
  apply process_worker_logs_invariant; [constructor | intros kv' []].
Qed.

(** The line under a message that not all runs have. *)
Definition occurrences_line (n : nat) : string :=
  str_of_nat n ++ " " ++ (if Nat.eqb n 1 then "occurrence" else "occurrences") ++ ":".

(** What the claim asks of one of the two groupings: every message is a
    key once; under it stand the runs that have the message, each once, in
    the order of the data; and the printed entry names them all, or says
    [(All Simulations)] when they are as many as the runs. *)
Definition groups_runs (sel : LogEntry -> dict string (list string))
           (data : dict string LogEntry) (summary : dict string (list string)) : Prop :=
  NoDup (dict_keys summary) /\
  forall msg,
    let runs := exhibiting sel data msg in
    NoDup runs /\
    (forall run, In run runs <->
                 exists entry, In (run, entry) data /\ In msg (dict_keys (sel entry))) /\
    (runs = [] -> dict_get summary msg = None) /\
    (runs <> [] ->
     dict_get summary msg = Some runs /\
     (List.length runs = List.length data ->
      message_lines (List.length data) (msg, runs)
      = [msg; str_of_nat (List.length runs) ++ " occurrences (All Simulations)"; nl_str]) /\
     (List.length runs <> List.length data ->
      message_lines (List.length data) (msg, runs)
      = (msg
           :: occurrences_line (List.length runs)
           :: map (String.append "    ") runs
           ++ [nl_str])%list)).

Lemma grouped_by_groups_runs (sel : LogEntry -> dict string (list string))
      (data : dict string LogEntry) :
  NoDup (dict_keys data) ->
  (forall kv, In kv data -> NoDup (dict_keys (sel (snd kv)))) ->
  groups_runs sel data (grouped_by sel data []).
Proof.
  intros Hnd Hk.
  destruct (@grouped_by_spec sel data [] [] Hk (NoDup_nil _) (fun m => eq_refl))
    as [Hs Hget].
  simpl in Hget. split; [exact Hs|].
  intro msg. cbv zeta. split; [|split; [|split]].
  - unfold exhibiting. apply NoDup_map_filter. exact Hnd.
  - intro run. apply exhibiting_in.
  - intro H0. rewrite Hget, H0. reflexivity.
  - intro Hne. split; [|split].
    + rewrite Hget. destruct (exhibiting sel data msg); [congruence | reflexivity].
    + intro Hl. unfold message_lines. rewrite Hl, Nat.eqb_refl. reflexivity.
    + intro Hl. unfold message_lines.
      apply Nat.eqb_neq in Hl. rewrite Hl. reflexivity.
Qed.


(** In a non-empty section every entry of the grouping is printed, in
    the order of the grouping. *)
Lemma section_lines_entries (title none : string) (trailer : list string)
      (total : nat) (summary : dict string (list string)) :
  summary <> [] ->
  section_lines title none trailer total summary
  = ([title; dashes] ++ flat_map (message_lines total) summary)%list.
Proof.
  intro H. unfold section_lines. destruct summary; [congruence | reflexivity].
Qed.
End SummaryProps.

(** ** Equality of index entries *)

Fixpoint pyobj_nested_ind (P : pyobj -> Prop)
         (HInt : forall z, P (PInt z)) (HFloat : forall q, P (PFloat q))
         (HNaN : P PNaN) (HStr : forall s, P (PStr s)) (HNone : P PNone)
         (HTuple : forall l, Forall P l -> P (PTuple l)) (o : pyobj) : P o :=
  match o with
  | PInt z => HInt z
  | PFloat q => HFloat q
  | PNaN => HNaN
  | PStr s => HStr s
  | PNone => HNone
  | PTuple l =>
      HTuple l
        ((fix go (l : list pyobj) : Forall P l :=
            match l with
            | [] => Forall_nil P
            | x :: l' =>
                Forall_cons x
                  (pyobj_nested_ind HInt HFloat HNaN HStr HNone HTuple x) (go l')
            end) l)
  end.

Lemma pyobj_eqb_tuple (l m : list pyobj) :
  pyobj_eqb (PTuple l) (PTuple m) = list_eqb pyobj_eqb l m.
Proof.
  revert m. induction l as [|x l IH]; intros [|y m]; try reflexivity.
  simpl. f_equal. specialize (IH m). simpl in IH. exact IH.
Qed.

Lemma list_eqb_eq (A : Type) (eqb : A -> A -> bool) (l : list A) :
  Forall (fun x => forall y, eqb x y = true <-> x = y) l ->
  forall m, list_eqb eqb l m = true <-> l = m.
Proof.
  induction 1 as [|x l Hx Hl IH]; intros [|y m]; simpl;
    try (split; [discriminate | congruence]).
  - tauto.
  - rewrite andb_true_iff, Hx, IH. split.
    + intros [-> ->]. reflexivity.
    + intro H. injection H as -> ->. tauto.
Qed.

Lemma pyobj_eqb_eq (a b : pyobj) : pyobj_eqb a b = true <-> a = b.
Proof.
  revert b. induction a as [x | q | | s | | l IH] using pyobj_nested_ind;
    intros [y | q' | | t | | m]; simpl;
    try (split; [discriminate | congruence]); try tauto.
  - rewrite Z.eqb_eq. split; congruence.
  - destruct q as [n d], q' as [n' d']. simpl.
    rewrite andb_true_iff, Z.eqb_eq, Pos.eqb_eq. split.
    + intros [-> ->]. reflexivity.
    + intro H. injection H as -> ->. tauto.
  - rewrite String.eqb_eq. split; congruence.
  - change (pyobj_eqb (PTuple l) (PTuple m) = true <-> PTuple l = PTuple m).
    rewrite pyobj_eqb_tuple, (list_eqb_eq IH). split; congruence.
Qed.

Lemma tuple_eqb_eq (a b : list pyobj) : tuple_eqb a b = true <-> a = b.
Proof.
  unfold tuple_eqb. apply list_eqb_eq.
  rewrite Forall_forall. intros x _ y. apply pyobj_eqb_eq.
Qed.

Lemma tuples_eqb_eq (a b : list (list pyobj)) :
  list_eqb tuple_eqb a b = true <-> a = b.
Proof.
  apply list_eqb_eq. rewrite Forall_forall. intros x _ y. apply tuple_eqb_eq.
Qed.

(** ** Reindexing onto the full product *)

Lemma mem_in {K : Type} {HK : Key K} (x : K) (l : list K) :
  mem x l = true <-> In x l.
Proof.
  unfold mem. rewrite existsb_exists. split.
  - intros [y [Hy He]]. apply key_eqb_eq in He. subst y. exact Hy.
  - intro H. exists x. split; [exact H | apply key_eqb_refl].
Qed.

Lemma mem_not_in {K : Type} {HK : Key K} (x : K) (l : list K) :
  mem x l = false <-> ~ In x l.
Proof.
  split; intro H.
  - intro Hin. apply (proj2 (mem_in x l)) in Hin. congruence.
  - destruct (mem x l) eqn:M; [|reflexivity].
    apply (proj1 (mem_in x l)) in M. contradiction.
Qed.

(** The names that are no sweep axis are the native ones. *)
Lemma orig_ivarnames_native (sweep_names native : list label) :
  (forall n, In n native -> ~ In n sweep_names) ->
  filter (fun name => negb (mem name sweep_names)) (sweep_names ++ native)%list
  = native.
Proof.
  intro H. rewrite filter_app.
  assert (H1 : filter (fun name => negb (mem name sweep_names)) sweep_names = []).
  { assert (G : forall l, (forall n, In n l -> In n sweep_names) ->
                          filter (fun name => negb (mem name sweep_names)) l = []).
    { induction l as [|n l IH]; intro Hl; simpl; [reflexivity|].
      rewrite (proj2 (mem_in n sweep_names) (Hl n (or_introl eq_refl))). simpl.
      apply IH. intros n' Hn'. apply Hl. right. exact Hn'. }
    apply G. auto. }
  rewrite H1. simpl.
  induction native as [|n l IH]; simpl; [reflexivity|].
  rewrite (proj2 (mem_not_in n sweep_names) (H n (or_introl eq_refl))). simpl.
  f_equal. apply IH. intros n' Hn'. apply H. right. exact Hn'.
Qed.

Lemma count_label_not_in (n : label) (l : list label) :
  ~ In n l -> count_label n l = 0.
Proof.
  unfold count_label. induction l as [|x l IH]; intro H; simpl; [reflexivity|].
  destruct (label_eqb n x) eqn:Ex.
  - apply label_eqb_eq in Ex. subst x. exfalso. apply H. left. reflexivity.
  - apply IH. intro Hin. apply H. right. exact Hin.
Qed.

Lemma count_label_nodup (n : label) (l : list label) :
  NoDup l -> In n l -> count_label n l = 1.
Proof.
  unfold count_label. induction 1 as [|x l Hx Hl IH]; intro Hin; [contradiction|].
  simpl. destruct (label_eqb n x) eqn:Ex.
  - apply label_eqb_eq in Ex. subst x. simpl.
    f_equal. apply (count_label_not_in Hx).
  - destruct Hin as [-> | Hin].
    + rewrite (proj2 (label_eqb_eq n n) eq_refl) in Ex. discriminate.
    + exact (IH Hin).
Qed.

Lemma count_label_app (n : label) (a b : list label) :
  count_label n (a ++ b)%list = count_label n a + count_label n b.
Proof. unfold count_label. rewrite filter_app, length_app. reflexivity. Qed.

Section ReindexProps.
Context {E : Externals}.

Lemma get_level_values_native (df : DataFrame) (sweep_names native : list label)
      (name : label) :
  index_names df = (sweep_names ++ native)%list ->
  NoDup native -> (forall n, In n native -> ~ In n sweep_names) ->
  In name native ->
  get_level_values df name = Ok (level_values df name).
Proof.
  intros Hi Hnd Hdis Hin. unfold get_level_values.
  rewrite Hi, count_label_app.
  rewrite (count_label_not_in (Hdis _ Hin)), (count_label_nodup Hnd Hin).
  reflexivity.
Qed.

Lemma unique_values_native (df : DataFrame) (sweep_names native : list label) :
  index_names df = (sweep_names ++ native)%list ->
  NoDup native -> (forall n, In n native -> ~ In n sweep_names) ->
  mapM (fun name => lv <- get_level_values df name ;; Ok (unique lv)) native
  = Ok (map (fun name => unique (level_values df name)) native).
Proof.
  intros Hi Hnd Hdis.
  assert (G : forall l, (forall n, In n l -> In n native) ->
                mapM (fun name => lv <- get_level_values df name ;; Ok (unique lv)) l
                = Ok (map (fun name => unique (level_values df name)) l)).
  { induction l as [|n l IH]; intro Hl; simpl; [reflexivity|].
    rewrite (get_level_values_native Hi Hnd Hdis (Hl n (or_introl eq_refl))).
    simpl. rewrite IH; [reflexivity|].
    intros n' Hn'. apply Hl. right. exact Hn'. }
  apply G. auto.
Qed.

Lemma cartesian_length (ls : list (list pyobj)) (t : list pyobj) :
  In t (cartesian ls) -> List.length t = List.length ls.
Proof.
  revert t. induction ls as [|l ls IH]; intros t Hin; simpl in Hin.
  - destruct Hin as [<- | []]. reflexivity.
  - apply in_flat_map in Hin. destruct Hin as [x [_ Hin]].
    apply in_map_iff in Hin. destruct Hin as [t' [<- Ht']].
    simpl. f_equal. exact (IH _ Ht').
Qed.

Lemma cartesian_count (ls : list (list pyobj)) :
  List.length (cartesian ls)
  = fold_right Nat.mul 1 (map (@List.length pyobj) ls).
Proof.
  induction ls as [|l ls IH]; simpl; [reflexivity|].
  rewrite <- IH. clear IH.
  induction l as [|x l IHl]; simpl; [reflexivity|].
  rewrite length_app, length_map, IHl. reflexivity.
Qed.

(** The index of the full product. *)
Lemma new_index_regular (sweep : MultiIndex) (native : list label)
      (observed : list (list pyobj)) :
  native <> [] -> List.length observed = List.length native ->
  Forall (fun t => List.length t = List.length (names sweep)) (tuples sweep) ->
  from_tuples
    (map (fun ab => PTuple (fst ab ++ snd ab)%list)
         (list_prod (tuples sweep) (cartesian observed)))
    (NameList (names sweep ++ native)%list)
  = Ok {| names := (names sweep ++ native)%list;
          tuples := map (fun ab => (fst ab ++ snd ab)%list)
                        (list_prod (tuples sweep) (cartesian observed)) |}.
Proof.
  intros Hne Hlen Hwf.
  rewrite <- (map_map (fun ab : list pyobj * list pyobj => (fst ab ++ snd ab)%list) PTuple).
  set (full := map (fun ab : list pyobj * list pyobj => (fst ab ++ snd ab)%list)
                   (list_prod (tuples sweep) (cartesian observed))).
  assert (Hn : (names sweep ++ native)%list <> []).
  { destruct (names sweep); [exact Hne | discriminate]. }
  destruct full as [|t full'] eqn:Ef.
  - simpl. destruct (names sweep ++ native)%list; [congruence | reflexivity].
  - rewrite <- Ef. apply from_tuples_regular.
    + rewrite Ef. discriminate.
    + exact Hn.
    + rewrite Forall_forall. intros r Hr. unfold full in Hr.
      apply in_map_iff in Hr. destruct Hr as [[a b] [<- Hab]].
      apply in_prod_iff in Hab. destruct Hab as [Ha Hb]. simpl.
      rewrite Forall_forall in Hwf.
      rewrite !length_app, (Hwf a Ha), (cartesian_length Hb), Hlen. reflexivity.
Qed.

(** With every index tuple once in the frame, the row found under the
    tuple of a row is that row. *)
Lemma lookup_unique (rows : list (list pyobj * list pyobj))
      (k : list pyobj) (r : list pyobj) :
  unique_keys (map fst rows) = true -> In (k, r) rows ->
  option_map snd (find (fun row => tuple_eqb k (fst row)) rows) = Some r.
Proof.
  induction rows as [|[k' r'] rows IH]; intros Hu Hin; [contradiction|].
  simpl in Hu. apply andb_true_iff in Hu. destruct Hu as [Hk Hu].
  apply negb_true_iff in Hk. simpl.
  destruct (tuple_eqb k k') eqn:Ek.
  - apply tuple_eqb_eq in Ek. subst k'.
    destruct Hin as [Heq | Hin]; [injection Heq as ->; reflexivity|].
    exfalso. assert (C : existsb (tuple_eqb k) (map fst rows) = true).
    { apply existsb_exists. exists k. split.
      - apply in_map_iff. exists (k, r). split; [reflexivity | exact Hin].
      - apply tuple_eqb_eq. reflexivity. }
    congruence.
  - destruct Hin as [Heq | Hin].
    + injection Heq as -> ->.
      rewrite (proj2 (tuple_eqb_eq k k) eq_refl) in Ek. discriminate.
    + exact (IH Hu Hin).
Qed.

Lemma lookup_row_none (df : DataFrame) (key : list pyobj) :
  (forall row, In row (df_rows df) -> fst row <> key) ->
  lookup_row df key = None.
Proof.
  intro H. unfold lookup_row.
  destruct (find (fun row => tuple_eqb key (fst row)) (df_rows df)) eqn:F;
    [|reflexivity].
  apply find_some in F. destruct F as [Hin Hk].
  apply tuple_eqb_eq in Hk. exfalso. exact (H _ Hin (eq_sym Hk)).
Qed.

(** [reindex] on a frame without duplicate index tuples. *)
Lemma reindex_unique (df : DataFrame) (target : MultiIndex) :
  unique_keys (map fst (df_rows df)) = true ->
  reindex df target
  = Ok {| index_names := names target; df_columns := df_columns df;
          df_rows :=
            map (fun key =>
                   (key, match lookup_row df key with
                         | Some r => r
                         | None => nan_row df
                         end))
                (tuples target) |}.
Proof.
  intro Hu. unfold reindex. rewrite Hu.
  destruct (list_eqb tuple_eqb (map fst (df_rows df)) (tuples target)) eqn:Eq;
    [|reflexivity].
  apply tuples_eqb_eq in Eq. rewrite <- Eq.
  do 2 f_equal. rewrite map_map.
  rewrite <- (map_id (df_rows df)) at 1.
  apply map_ext_in. intros [k r] Hin. simpl.
  unfold lookup_row. rewrite (lookup_unique Hu Hin). reflexivity.
Qed.
End ReindexProps.



(** The frame the collection of the bench ends with is the one above. *)
Lemma collect_bench :
  exists st,
    collect (E := bench_externals) bench_mgr = Ok st /\
    concatBlocks st = [IFrame bench_frame] /\
    concatBlocksMetadata st = bench_metadata.
Proof. eexists. split; [vm_compute; reflexivity|]. split; reflexivity. Qed.

(** ** [run] with a run that left no dataset *)

Section RunProps.
Context {E : Externals}.

(** A worker function that returned has run the handler; the run it
    returns has the handler's name, and the exception object first in its
    read error when the dataset is not there. *)
Lemma sim_worker_fcn_returns (mgr : SimulationManager) (t : list pyobj)
      (rv : RetVals) :
  _sim_worker_fcn mgr t = Ok rv ->
  exists fw,
    handler_run mgr (dict_of_pairs (combine (names (mgr_sweep mgr)) t)) = Ok fw /\
    workerName (rv_fw rv) = workerName fw /\
    (isfile (origDataFilePath fw) = false ->
     exists e rest, readError (rv_fw rv) = Some (RExn e :: rest)).
Proof.
  unfold _sim_worker_fcn.
  destruct (handler_run mgr (dict_of_pairs (combine (names (mgr_sweep mgr)) t)))
    as [fw | e]; [|discriminate].
  rewrite bind_ok. intro H. exists fw. split; [reflexivity|].
  destruct (isfile (origDataFilePath fw)) eqn:F; simpl negb in H; cbv iota in H.
  - split; [|discriminate].
    destruct (read_file (origDataFilePath fw)) as [members | e].
    + destruct (mapM (process_block _) members); [|discriminate].
      rewrite bind_ok in H. injection H as <-. reflexivity.
    + destruct e; try discriminate; injection H as <-; reflexivity.
  - injection H as <-. split; [reflexivity|].
    intros _. eexists. eexists. reflexivity.
Qed.

Lemma collect_retvals_finished (st st' : Collected) (rv : RetVals) :
  collect_retvals st rv = Ok st' ->
  finishedWorkers st' = (finishedWorkers st ++ [rv_fw rv])%list.
Proof.
  unfold collect_retvals. destruct (rv_data rv) as [data|].
  - destruct (isFirstValidWorker st).
    + intro H. injection H as <-. reflexivity.
    + destruct (foldM merge_block (enumerate data) (concatBlocks st)); [|discriminate].
      rewrite bind_ok. intro H. injection H as <-. reflexivity.
  - intro H. injection H as <-. reflexivity.
Qed.

(** The finished runs are those of the sweep tuples, in their order. *)
Lemma collect_finished (mgr : SimulationManager) (l : list (list pyobj))
      (st0 st : Collected) :
  foldM (fun st tuple => retvals <- _sim_worker_fcn mgr tuple ;;
                         collect_retvals st retvals) l st0 = Ok st ->
  exists fws,
    finishedWorkers st = (finishedWorkers st0 ++ fws)%list /\
    Forall2 (fun t fw => exists rv, _sim_worker_fcn mgr t = Ok rv /\ rv_fw rv = fw)
            l fws.
Proof.
  revert st0. induction l as [|t l IH]; intros st0 H; simpl in H.
  - injection H as <-. exists []. rewrite app_nil_r. split; constructor.
  - destruct (_sim_worker_fcn mgr t) as [rv | e] eqn:W; [|discriminate].
    rewrite bind_ok in H.
    destruct (collect_retvals st0 rv) as [st1 | e] eqn:C; [|discriminate].
    rewrite bind_ok in H.
    destruct (IH _ H) as [fws [Hf HF]].
    exists (rv_fw rv :: fws). split.
    + rewrite Hf, (collect_retvals_finished C), <- app_assoc. reflexivity.
    + constructor; [|exact HF]. exists rv. split; [exact W | reflexivity].
Qed.

Lemma Forall2_in_right (A B : Type) (R : A -> B -> Prop) (l : list A)
      (l' : list B) (y : B) :
  Forall2 R l l' -> In y l' -> exists x, In x l /\ R x y.
Proof.
  induction 1 as [|x y' l l' Hxy HF IH]; intro Hin; [contradiction|].
  destruct Hin as [-> | Hin].
  - exists x. split; [left; reflexivity | exact Hxy].
  - destruct (IH Hin) as [x' [Hx' HR]]. exists x'. split; [right; exact Hx' | exact HR].
Qed.

Lemma process_worker_logs_later (fws : list FinishedWorker)
      (d : dict string LogEntry) (name : string) :
  (forall fw', In fw' fws -> workerName fw' <> name) ->
  dict_get (fold_left (fun d fw => dict_set d (workerName fw) (log_entry fw)) fws d)
           name
  = dict_get d name.
Proof.
  revert d. induction fws as [|fw fws IH]; intros d H; simpl.
  - reflexivity.
  - rewrite IH by (intros fw' Hin; apply H; right; exact Hin).
    apply dict_get_set_other. apply H. left. reflexivity.
Qed.

(** The entry under the name of a run is its own when no later run has
    the name. *)
Lemma process_worker_logs_get (fws1 fws2 : list FinishedWorker)
      (fw : FinishedWorker) :
  (forall fw', In fw' fws2 -> workerName fw' <> workerName fw) ->
  dict_get (__process_worker_logs (fws1 ++ fw :: fws2)%list) (workerName fw)
  = Some (log_entry fw).
Proof.
  intro H. unfold __process_worker_logs. rewrite fold_left_app. simpl.
  rewrite (process_worker_logs_later _ H). apply dict_get_set_same.
Qed.

Lemma write_logfile_raises (data : dict string LogEntry) (k : string)
      (entry : LogEntry) :
  In (k, entry) data -> json_serializable entry = false ->
  raises (write_logfile data).
Proof.
  intros Hin Hj. unfold write_logfile.
  destruct (forallb (fun kv => json_serializable (snd kv)) data) eqn:F.
  - rewrite forallb_forall in F. specialize (F _ Hin). simpl in F. congruence.
  - eexists. reflexivity.
Qed.

(** C5, where the code leaves the claim.  With the logs written (the
    default), a sweep one run of which left no dataset does not run to its
    end: [run] raises, at the latest when the log file is written, for
    the read error of that run holds the exception object.  (The name of
    the run is not taken again by a later run.) *)
Theorem run_raises_on_missing_output
        (mgr : SimulationManager) (before after : list (list pyobj))
        (t : list pyobj) (fw : FinishedWorker) :
  mgr_writeLogs mgr = true ->
  tuples (mgr_sweep mgr) = (before ++ t :: after)%list ->
  handler_run mgr (dict_of_pairs (combine (names (mgr_sweep mgr)) t)) = Ok fw ->
  isfile (origDataFilePath fw) = false ->
  (forall t' fw',
      In t' after ->
      handler_run mgr (dict_of_pairs (combine (names (mgr_sweep mgr)) t')) = Ok fw' ->
      workerName fw' <> workerName fw) ->
  raises (run mgr).
Proof.
  intros Hlogs Hsweep Hrun Hfile Hnames. unfold run.
  destruct (collect mgr) as [st | e] eqn:C; [|eexists; reflexivity].
  rewrite bind_ok.
  destruct (print_summary (__process_worker_logs (finishedWorkers st)))
    as [printed | e]; [|eexists; reflexivity].
  rewrite bind_ok, Hlogs.
  unfold collect in C. apply collect_finished in C.
  destruct C as [fws [Hf HF]]. simpl in Hf. rewrite Hsweep in HF.
  apply Forall2_app_inv_l in HF.
  destruct HF as [f1 [f2 [_ [HF2 ->]]]].
  inversion HF2 as [| ? fwt ? f3 [rv [W <-]] HF3]; subst.
  destruct (sim_worker_fcn_returns W) as [fw0 [Hrun0 [Hname Herr]]].
  rewrite Hrun in Hrun0. injection Hrun0 as <-.
  destruct (Herr Hfile) as [e [rest Hre]].
  assert (Hlater : forall fw', In fw' f3 -> workerName fw' <> workerName (rv_fw rv)).
  { intros fw' Hin. rewrite Hname.
    destruct (Forall2_in_right HF3 Hin) as [t' [Ht' [rv' [W' <-]]]].
    destruct (sim_worker_fcn_returns W') as [fw1 [Hrun1 [Hname1 _]]].
    rewrite Hname1. exact (Hnames _ _ Ht' Hrun1). }
  pose proof (process_worker_logs_get f1 Hlater) as Hget.
  rewrite <- Hf in Hget. apply dict_get_some_in in Hget.
  destruct (write_logfile_raises Hget) as [e' He'].
  - unfold json_serializable, log_entry. simpl. rewrite Hre. reflexivity.
  - rewrite He'. eexists. reflexivity.
Qed.
End RunProps.

Lemma run_raises_on_missing_output_witness :
  raises (run (E := bench_externals) bench_mgr).
Proof.
  apply (@run_raises_on_missing_output bench_externals bench_mgr
           [[PInt 0]] [[PInt 2]] [PInt 1] (bench_fw [(bias, PInt 1)])).
  - reflexivity.
  - reflexivity.
  - reflexivity.
  - reflexivity.
  - intros t' fw' [<- | []] H. injection H as <-. discriminate.
Defined.

(** The exception is the one of [json.dump]. *)
Lemma run_bench_not_serializable :
  run (E := bench_externals) bench_mgr
  = Raise (TypeError "Object of type FileNotFoundError is not JSON serializable").
Proof. vm_compute. reflexivity. Qed.

Section SummaryRaises.
Context {E : Externals}.

Lemma foldM_raises (S A : Type) (f : S -> A -> result S) (l : list A) (a : A) :
  In a l -> (forall s, raises (f s a)) -> forall s, raises (foldM f l s).
Proof.
  intros Hin Hf. induction l as [|x l IH]; intro s; [contradiction|].
  simpl. destruct Hin as [-> | Hin].
  - destruct (Hf s) as [e ->]. eexists. reflexivity.
  - destruct (f s x) as [s' | e]; [|eexists; reflexivity].
    rewrite bind_ok. exact (IH Hin s').
Qed.

(** [print_summary] itself raises when the log of a run holds no CPU
    time: [float(None)]. *)
Lemma print_summary_raises_without_cpu_time
      (data : dict string LogEntry) (k : string) (entry : LogEntry) :
  In (k, entry) data ->
  dict_get (le_simulatorData entry) "Total CPU time" = Some None ->
  raises (print_summary data).
Proof.
  intros Hin Hcpu. unfold print_summary.
  assert (R : raises (cumulated_cpu_time data)).
  { unfold cumulated_cpu_time. apply (foldM_raises Hin).
    intro s. simpl. rewrite Hcpu. eexists. reflexivity. }
  destruct R as [e ->]. eexists. reflexivity.
Qed.
End SummaryRaises.

(** Two of three runs have the same warning: one entry, both names. *)
Lemma summary_bench_logs :
  let data := __process_worker_logs (E := bench_logs)
                [bench_logged "amp_bias_0" bench_warning_log;
                 bench_logged "amp_bias_1" EmptyString;
                 bench_logged "amp_bias_2" bench_warning_log] in
  fst (fst (__summarize_logfiles data))
  = [(bench_warning_log, ["amp_bias_0"; "amp_bias_2"])] /\
  print_summary (E := bench_logs) data
  = Ok ["Cumulated CPU Time"; "Read 3/3 Files sucessfully ";
        "Simulation Errors:"; dashes; "No errors occurred."; nl_str;
        "Simulation Warnings:"; dashes;
        bench_warning_log; "2 occurrences:";
        "    amp_bias_0"; "    amp_bias_2"; nl_str].
Proof. split; vm_compute; reflexivity. Qed.

(* ===================================================================== *)
(** * Part III.  Further properties of the sources                        *)
(* ===================================================================== *)

From Stdlib Require Import Permutation Sorted.
From Stdlib Require OrderedTypeEx.

(** ** utilities.py: patching with several variables *)

Section NetlistMore.
Variable value : Type.
Variable format_value : value -> string.

(** X1.  With a dictionary of several variables whose names are distinct
    and hold neither [=] nor a blank, a line that starts with the
    assignment of one of them, plain or [global], is rewritten with the
    value of that variable, wherever the variable stands in the dictionary
    and whatever the other entries are. *)
Theorem patch_selects_variable
        (d : dict string value) (n : string) (v : value) (line : string) :
  NoDup (dict_keys d) ->
  (forall m, In m (dict_keys d) -> plain_name m = true) ->
  In (n, v) d ->
  (startswith line (n ++ "=") = true ->
   patch format_value d line = n ++ "=" ++ format_value v ++ nl_str) /\
  (startswith line ("global " ++ n ++ "=") = true ->
   patch format_value d line = "global " ++ n ++ "=" ++ format_value v ++ nl_str).
Proof.
  intros Hnd Hplain Hin.
  assert (Hn : plain_name n = true).
  { apply Hplain. unfold dict_keys. apply (in_map fst) in Hin. exact Hin. }
  split; intro Hs.
  - exact (proj1 (patch_selects_plain format_value Hnd Hplain Hn Hs) v Hin).
  - exact (proj1 (patch_selects_global format_value Hnd Hplain Hn Hs) v Hin).
Qed.

(** X2.  A file none of whose lines starts with the assignment of a
    variable of the dictionary is written back as it was read: after the
    call every path of the file system holds what it held before.  The
    empty dictionary is the plainest case. *)
Theorem modify_netlist_without_match_keeps_file
        (fs : filesystem) (path text : string) (d : dict string value) :
  fs path = Some text ->
  (forall line, In line (readlines text) ->
     forall n v, In (n, v) d ->
       startswith line (n ++ "=") = false /\
       startswith line ("global " ++ n ++ "=") = false) ->
  exists fs',
    modify_netlist format_value fs path d = Ok fs' /\
    forall p, fs' p = fs p.
Proof.
  intros Hfs Hno. unfold modify_netlist. rewrite Hfs.
  eexists. split; [reflexivity|].
  assert (Ht : modify_text format_value text d = text).
  { unfold modify_text, modified_lines.
    rewrite (map_ext_in (patch format_value d) (fun l => l)).
    - rewrite map_id. apply writelines_readlines.
    - intros line Hl. apply patch_no_match. intros n v Hin. exact (Hno line Hl n v Hin). }
  rewrite Ht. intro p. unfold fs_write.
  destruct (String.eqb p path) eqn:Ep; [|reflexivity].
  apply String.eqb_eq in Ep. subst p. symmetry. exact Hfs.
Qed.

(** X3.  The lines the loop builds are not changed by a second pass with
    the same dictionary, for any names and values, also when names
    repeat a prefix of one another or a value holds a line feed. *)
Theorem modified_lines_patched_once (d : dict string value) (lines : list string) :
  map (patch format_value d) (map (patch format_value d) lines)
  = map (patch format_value d) lines.
Proof.
  rewrite map_map. apply map_ext. intro line. apply patch_idempotent.
Qed.
End NetlistMore.

Lemma patch_selects_variable_witness :
  patch (fun v : string => v) [("Vds", "2"); ("Vgs", "1.5")] ("Vgs=0.5" ++ nl_str)
  = "Vgs=1.5" ++ nl_str.
Proof.
  refine (proj1 (@patch_selects_variable string (fun v => v)
                   [("Vds", "2"); ("Vgs", "1.5")] "Vgs" "1.5" ("Vgs=0.5" ++ nl_str)
                   _ _ _) _).
  - repeat constructor; simpl; intuition discriminate.
  - intros m [<-|[<-|[]]]; reflexivity.
  - simpl. auto.
  - reflexivity.
Defined.

Lemma modify_netlist_without_match_keeps_file_witness :
  exists fs',
    modify_netlist (fun v : string => v) bench_fs "netlist.log" [("Ids", "1")] = Ok fs' /\
    forall p, fs' p = bench_fs p.
Proof.
  apply (@modify_netlist_without_match_keeps_file string (fun v => v)
           bench_fs "netlist.log" bench_netlist).
  - reflexivity.
  - intros line Hl n v [Hnv|[]]. injection Hnv as <- <-.
    vm_compute in Hl.
    destruct Hl as [<-|[<-|[<-|[<-|[]]]]]; split; reflexivity.
Defined.

(** ** utilities.py: decoding never gives up *)

Section DecodeMore.
Context {C : Codec}.

Lemma robust_byte_decode_total :
  (forall bs start stop,
      decode bs = UnicodeDecodeError start stop ->
      exists t, decode (firstn start bs) = Decoded t) ->
  forall bs, exists t, robust_byte_decode bs = Ok t.
Proof.
  intros Hlaw bs.
  remember (List.length bs) as n eqn:Hn. revert bs Hn.
  induction n as [n IH] using lt_wf_ind. intros bs Hn.
  destruct (decode bs) as [t|start stop] eqn:E.
  - exists t. apply robust_byte_decode_decodable. exact E.
  - rewrite (robust_byte_decode_error E).
    destruct (Hlaw _ _ _ E) as [h Hh].
    unfold decode_strict. rewrite Hh. rewrite bind_ok.
    destruct (decode_range E) as [H1 H2].
    destruct (IH (List.length (skipn stop bs))) with (bs := skipn stop bs) as [r Hr].
    + rewrite length_skipn. lia.
    + reflexivity.
    + rewrite Hr. rewrite bind_ok. eexists. reflexivity.
Qed.

End DecodeMore.

Lemma ascii_scan_prefix_ok (bs : list Byte.byte) (i start stop : nat) :
  ascii_scan i bs = UnicodeDecodeError start stop ->
  forallb ascii_ok (firstn (start - i) bs) = true.
Proof.
  revert i. induction bs as [|b bs IH]; intros i H; simpl in H.
  - discriminate.
  - destruct (ascii_ok b) eqn:Eb.
    + destruct (ascii_scan (S i) bs) eqn:E; [discriminate|].
      injection H as -> ->.
      destruct (ascii_scan_range E) as [H1 _].
      replace (start - i) with (S (start - S i)) by lia.
      simpl. rewrite Eb. simpl. exact (IH _ E).
    + injection H as <- <-. rewrite Nat.sub_diag. reflexivity.
Qed.

Lemma ascii_prefix_decodes (bs : list Byte.byte) (start stop : nat) :
  decode (Codec := ascii_codec) bs = UnicodeDecodeError start stop ->
  exists t, decode (Codec := ascii_codec) (firstn start bs) = Decoded t.
Proof.
  intro H. simpl in H. apply ascii_scan_prefix_ok in H.
  rewrite Nat.sub_0_r in H.
  eexists. simpl. apply ascii_scan_all_ok. exact H.
Qed.


Lemma forallb_first_false (A : Type) (p : A -> bool) (l : list A) :
  forallb p l = false ->
  exists pre x post, l = (pre ++ x :: post)%list /\ forallb p pre = true /\ p x = false.
Proof.
  induction l as [|a l IH]; simpl; intro H; [discriminate|].
  destruct (p a) eqn:Ea; simpl in H.
  - destruct (IH H) as [pre [x [post [-> [H1 H2]]]]].
    exists (a :: pre), x, post. simpl. rewrite Ea, H1. auto.
  - exists [], a, l. auto.
Qed.

Lemma escape_ascii_all_ok (bs : list Byte.byte) :
  forallb ascii_ok bs = true ->
  fold_right (fun b acc => escape_ascii b ++ acc) EmptyString bs
  = string_of_list_ascii (map ascii_of_byte bs).
Proof.
  induction bs as [|b bs IH]; simpl; intro H; [reflexivity|].
  apply andb_prop in H. destruct H as [Hb H].
  unfold escape_ascii at 1. rewrite Hb. simpl. rewrite (IH H). reflexivity.
Qed.

Lemma fold_right_append_app (A : Type) (f : A -> string) (l m : list A) :
  fold_right (fun b acc => f b ++ acc) EmptyString (l ++ m)%list
  = fold_right (fun b acc => f b ++ acc) EmptyString l
    ++ fold_right (fun b acc => f b ++ acc) EmptyString m.
Proof.
  induction l as [|a l IH]; simpl; [reflexivity|].
  rewrite IH. symmetry. apply append_assoc.
Qed.


(** ** utilities.py: the cell name *)

Lemma findall_quoted_no_quote (s : string) (inside : option string) :
  no_char quote s = true -> findall_quoted inside s = [].
Proof.
  revert inside. induction s as [|c s IH]; intros inside H; simpl in *; [reflexivity|].
  apply andb_prop in H. destruct H as [Hc H].
  apply negb_true_iff in Hc. rewrite Hc.
  destruct inside; apply IH; exact H.
Qed.

Lemma findall_quoted_outside (pre s : string) :
  no_char quote pre = true ->
  findall_quoted None (pre ++ s) = findall_quoted None s.
Proof.
  induction pre as [|c pre IH]; simpl; intro H; [reflexivity|].
  apply andb_prop in H. destruct H as [Hc H].
  apply negb_true_iff in Hc. rewrite Hc. exact (IH H).
Qed.

Lemma findall_quoted_inside (body rest acc : string) :
  no_char quote body = true ->
  findall_quoted (Some acc) (body ++ dq ++ rest)
  = (acc ++ body) :: findall_quoted None rest.
Proof.
  revert acc. induction body as [|c body IH]; intros acc H.
  - simpl. rewrite append_nil_r. reflexivity.
  - simpl in H. apply andb_prop in H. destruct H as [Hc H].
    apply negb_true_iff in Hc.
    change (findall_quoted (Some acc) (String c (body ++ dq ++ rest))
            = (acc ++ String c body) :: findall_quoted None rest).
    cbn [findall_quoted]. rewrite Hc. rewrite (IH _ H).
    rewrite append_assoc. reflexivity.
Qed.

Lemma findall_quoted_first (pre body rest : string) :
  no_char quote pre = true -> no_char quote body = true ->
  findall_quoted None (pre ++ dq ++ body ++ dq ++ rest)
  = body :: findall_quoted None rest.
Proof.
  intros Hp Hb. rewrite (findall_quoted_outside _ Hp).
  change (findall_quoted (Some EmptyString) (body ++ dq ++ rest)
          = body :: findall_quoted None rest).
  exact (findall_quoted_inside rest EmptyString Hb).
Qed.

Lemma split_on_no_sep (sep : ascii) (s : string) :
  no_char sep s = true -> split_on sep s = [s].
Proof.
  induction s as [|c s IH]; simpl; intro H; [reflexivity|].
  apply andb_prop in H. destruct H as [Hc H].
  apply negb_true_iff in Hc. rewrite Hc. rewrite (IH H). reflexivity.
Qed.

Lemma split_on_piece (sep : ascii) (p r : string) :
  no_char sep p = true ->
  split_on sep (p ++ String sep r) = p :: split_on sep r.
Proof.
  induction p as [|c p IH]; simpl; intro H.
  - rewrite Ascii.eqb_refl. reflexivity.
  - apply andb_prop in H. destruct H as [Hc H].
    apply negb_true_iff in Hc. rewrite Hc. rewrite (IH H). reflexivity.
Qed.

Lemma split_on_concat (sep : ascii) (parts : list string) :
  parts <> [] ->
  Forall (fun p => no_char sep p = true) parts ->
  split_on sep (String.concat (String sep EmptyString) parts) = parts.
Proof.
  induction parts as [|p parts IH]; intros Hne H; [congruence|].
  inversion H as [|? ? Hp Hrest]; subst.
  destruct parts as [|q parts].
  - simpl. apply split_on_no_sep. exact Hp.
  - change (split_on sep (p ++ String sep (String.concat (String sep EmptyString) (q :: parts)))
            = p :: q :: parts).
    rewrite (split_on_piece _ Hp). rewrite IH; [reflexivity|discriminate|exact Hrest].
Qed.

Lemma no_char_concat (c sep : ascii) (parts : list string) :
  Ascii.eqb sep c = false ->
  Forall (fun p => no_char c p = true) parts ->
  no_char c (String.concat (String sep EmptyString) parts) = true.
Proof.
  intros Hsep. induction parts as [|p parts IH]; intro H; [reflexivity|].
  inversion H as [|? ? Hp Hrest]; subst.
  destruct parts as [|q parts].
  - exact Hp.
  - change (no_char c (p ++ String sep (String.concat (String sep EmptyString) (q :: parts)))
            = true).
    rewrite no_char_app, Hp. simpl. rewrite Hsep. simpl. exact (IH Hrest).
Qed.

(** X6.  When the first line of the netlist holds, as its first quoted
    text, a hierarchy of pieces joined by colons, the function returns the
    piece before the last one: the cell of [library:cell:view], whatever
    stands before the quoted text and after it. *)
Theorem get_cell_name_from_netlist_second_last
        (fs : filesystem) (path text pre rest : string)
        (libs : list string) (cell_name view : string) :
  fs path = Some text ->
  readline text
  = pre ++ dq ++ String.concat ":" (libs ++ [cell_name; view]) ++ dq ++ rest ->
  no_char quote pre = true ->
  Forall (fun p => no_char quote p = true) (libs ++ [cell_name; view]) ->
  Forall (fun p => no_char ":"%char p = true) (libs ++ [cell_name; view]) ->
  get_cell_name_from_netlist fs path = Ok cell_name.
Proof.
  intros Hfs Hline Hpre Hq Hc.
  unfold get_cell_name_from_netlist. rewrite Hfs, Hline.
  rewrite findall_quoted_first.
  - cbv zeta. rewrite split_on_concat.
    + rewrite rev_app_distr. reflexivity.
    + destruct libs; discriminate.
    + exact Hc.
  - exact Hpre.
  - apply no_char_concat; [reflexivity|exact Hq].
Qed.

(** X7.  The function raises [IndexError] when the first line of the
    file, or the empty text of an empty file, holds no double quote or
    only one, and when its first quoted text holds no colon. *)
Theorem get_cell_name_from_netlist_index_errors
        (fs : filesystem) (path text : string) :
  fs path = Some text ->
  (no_char quote (readline text) = true ->
   get_cell_name_from_netlist fs path = Raise IndexError) /\
  (forall pre post,
      readline text = pre ++ dq ++ post ->
      no_char quote pre = true -> no_char quote post = true ->
      get_cell_name_from_netlist fs path = Raise IndexError) /\
  (forall pre body rest,
      readline text = pre ++ dq ++ body ++ dq ++ rest ->
      no_char quote pre = true -> no_char quote body = true ->
      no_char ":"%char body = true ->
      get_cell_name_from_netlist fs path = Raise IndexError).
Proof.
  intro Hfs. unfold get_cell_name_from_netlist. rewrite Hfs.
  split; [|split].
  - intro H. rewrite (findall_quoted_no_quote None H). reflexivity.
  - intros pre post Hline Hpre Hpost. rewrite Hline.
    rewrite (findall_quoted_outside _ Hpre).
    change (match findall_quoted (Some EmptyString) post with
            | [] => Raise IndexError
            | first :: _ =>
                let hierarchy := split_on ":"%char first in
                match rev hierarchy with
                | _ :: name :: _ => Ok name
                | _ => @Raise string IndexError
                end
            end = Raise IndexError).
    rewrite (findall_quoted_no_quote (Some EmptyString) Hpost). reflexivity.
  - intros pre body rest Hline Hpre Hbody Hcolon. rewrite Hline.
    rewrite (findall_quoted_first rest Hpre Hbody).
    cbv zeta. rewrite (split_on_no_sep Hcolon). reflexivity.
Qed.

Lemma get_cell_name_from_netlist_second_last_witness :
  get_cell_name_from_netlist bench_hierarchy_fs "netlist.log" = Ok "amp_tb".
Proof.
  apply (@get_cell_name_from_netlist_second_last bench_hierarchy_fs "netlist.log"
           bench_hierarchy_netlist "; Top Design: " nl_str ["amp_lib"] "amp_tb" "schematic").
  - reflexivity.
  - reflexivity.
  - reflexivity.
  - repeat constructor.
  - repeat constructor.
Defined.

Lemma get_cell_name_from_netlist_index_errors_witness :
  get_cell_name_from_netlist bench_fs "netlist.log" = Raise IndexError.
Proof.
  apply (proj1 (@get_cell_name_from_netlist_index_errors bench_fs "netlist.log"
                  bench_netlist eq_refl)).
  reflexivity.
Defined.

(** ** Dictionaries filled in a loop *)

Section DictLoops.
Context {K : Type} {HK : Key K} {V : Type}.

Lemma dict_set_new (d : dict K V) (k : K) (v : V) :
  ~ In k (dict_keys d) -> dict_set d k v = (d ++ [(k, v)])%list.
Proof.
  induction d as [|[k' v'] d IH]; simpl; intro H; [reflexivity|].
  rewrite key_eqb_neq by (intro; subst; apply H; left; reflexivity).
  rewrite IH; [reflexivity|]. intro Hin. apply H. right. exact Hin.
Qed.

Lemma dict_fill_distinct (A : Type) (f : A -> K) (g : A -> V) (l : list A)
      (d : dict K V) :
  NoDup (dict_keys d ++ map f l)%list ->
  fold_left (fun d x => dict_set d (f x) (g x)) l d
  = (d ++ map (fun x => (f x, g x)) l)%list.
Proof.
  revert d. induction l as [|x l IH]; intros d H; simpl.
  - rewrite app_nil_r. reflexivity.
  - simpl in H.
    assert (Hx : ~ In (f x) (dict_keys d)).
    { intro Hin. apply NoDup_remove_2 in H. apply H. apply in_or_app. left. exact Hin. }
    rewrite (dict_set_new _ Hx). rewrite IH.
    + rewrite <- app_assoc. reflexivity.
    + unfold dict_keys. rewrite map_app. simpl. rewrite <- app_assoc. simpl.
      clear - H. unfold dict_keys in H.
      apply NoDup_remove_1 in H as H1. apply NoDup_remove_2 in H as H2.
      apply Permutation_NoDup with (l := (f x :: map fst d ++ map f l)%list).
      * apply Permutation_middle.
      * constructor; assumption.
Qed.

Lemma dict_get_map_values (W : Type) (h : V -> W) (d : dict K V) (k : K) :
  dict_get (map (fun kv => (fst kv, h (snd kv))) d) k = option_map h (dict_get d k).
Proof.
  induction d as [|[k' v'] d IH]; simpl; [reflexivity|].
  destruct (key_eqb k k'); [reflexivity|exact IH].
Qed.
End DictLoops.

(** ** logging.py: counting duplicates *)

(** The dictionary [countDict] and the text of one entry of the result,
    as [__summarize_list_duplicates] builds them. *)
Definition count_items (inputList : list string) : dict string nat :=
  fold_left (fun d it =>
               dict_set d it (match dict_get d it with
                              | Some n => n + 1
                              | None => 0 + 1
                              end))
            inputList ([] : dict string nat).

Definition occurrences_text (kv : string * nat) : string :=
  if Nat.ltb 1 (snd kv)
  then fst kv ++ nl_str ++ "(" ++ str_of_nat (snd kv) ++ " Occurences)"
  else fst kv.

Lemma summarize_list_duplicates_unfold (l : list string) :
  __summarize_list_duplicates l
  = map occurrences_text (sorted_by_count (count_items l)).
Proof. reflexivity. Qed.

Definition counted (done : list string) (x : string) : option nat :=
  if Nat.eqb (count_occ string_dec done x) 0 then None
  else Some (count_occ string_dec done x).

Lemma count_items_fold (rest done : list string) (d : dict string nat) :
  NoDup (dict_keys d) ->
  (forall x, dict_get d x = counted done x) ->
  let d' := fold_left (fun d it =>
                         dict_set d it (match dict_get d it with
                                        | Some n => n + 1
                                        | None => 0 + 1
                                        end)) rest d in
  NoDup (dict_keys d') /\ forall x, dict_get d' x = counted (done ++ rest)%list x.
Proof.
  revert done d. induction rest as [|it rest IH]; intros done d Hnd Hget; cbn zeta.
  - simpl. rewrite app_nil_r. auto.
  - simpl fold_left.
    replace (done ++ it :: rest)%list with ((done ++ [it]) ++ rest)%list
      by (rewrite <- app_assoc; reflexivity).
    apply IH.
    + apply dict_set_nodup. exact Hnd.
    + intro x. unfold counted. rewrite count_occ_app. simpl.
      destruct (string_dec it x) as [->|Hne].
      * rewrite dict_get_set_same. rewrite Hget. unfold counted.
        destruct (count_occ string_dec done x) as [|c]; simpl.
        -- reflexivity.
        -- replace (c + 1) with (S c) by lia. simpl.
           replace (c + 1) with (S c) by lia. reflexivity.
      * rewrite dict_get_set_other by exact Hne. rewrite Hget. unfold counted.
        rewrite Nat.add_0_r. reflexivity.
Qed.

Lemma count_items_spec (l : list string) :
  NoDup (dict_keys (count_items l)) /\
  forall x, dict_get (count_items l) x = counted l x.
Proof.
  exact (@count_items_fold l [] [] (NoDup_nil _) (fun x => eq_refl)).
Qed.

Lemma insert_by_count_perm (x : string * nat) (l : list (string * nat)) :
  Permutation (x :: l) (insert_by_count x l).
Proof.
  induction l as [|y l IH]; simpl; [apply Permutation_refl|].
  destruct (Nat.ltb (snd y) (snd x)); [apply Permutation_refl|].
  eapply perm_trans; [apply perm_swap|]. apply perm_skip. exact IH.
Qed.

Definition falling (a b : string * nat) : Prop := snd b <= snd a.

Lemma insert_by_count_sorted (x : string * nat) (l : list (string * nat)) :
  StronglySorted falling l -> StronglySorted falling (insert_by_count x l).
Proof.
  induction l as [|y l IH]; simpl; intro H.
  - constructor; constructor.
  - inversion H as [|? ? Hl Hy]; subst.
    destruct (Nat.ltb (snd y) (snd x)) eqn:Elt.
    + apply Nat.ltb_lt in Elt. constructor; [exact H|].
      constructor; [unfold falling; lia|].
      eapply Forall_impl; [|exact Hy]. unfold falling. intros z Hz. lia.
    + apply Nat.ltb_ge in Elt. constructor; [exact (IH Hl)|].
      eapply Permutation_Forall; [apply insert_by_count_perm|].
      constructor; [exact Elt|exact Hy].
Qed.

Lemma sorted_by_count_fold (items acc : list (string * nat)) :
  StronglySorted falling acc ->
  Permutation (acc ++ items)%list
              (fold_left (fun acc x => insert_by_count x acc) items acc) /\
  StronglySorted falling (fold_left (fun acc x => insert_by_count x acc) items acc).
Proof.
  revert acc. induction items as [|x items IH]; intros acc H; simpl.
  - rewrite app_nil_r. split; [apply Permutation_refl|exact H].
  - destruct (IH (insert_by_count x acc) (insert_by_count_sorted x H)) as [H1 H2].
    split; [|exact H2].
    eapply perm_trans; [|exact H1].
    eapply perm_trans; [apply Permutation_sym, Permutation_middle|].
    apply (Permutation_app_tail items (insert_by_count_perm x acc)).
Qed.

(** X8.  In the list [__summarize_list_duplicates] returns every
    distinct text of the input stands once, with the number of its
    occurrences in the input when it occurs more than once, and the texts
    are ordered by falling number of occurrences. *)
Theorem summarize_list_duplicates_counts (l : list string) :
  exists items : list (string * nat),
    __summarize_list_duplicates l = map occurrences_text items /\
    NoDup (map fst items) /\
    (forall x, In x (map fst items) <-> In x l) /\
    (forall x n, In (x, n) items -> n = count_occ string_dec l x /\ 1 <= n) /\
    StronglySorted falling items.
Proof.
  exists (sorted_by_count (count_items l)).
  destruct (count_items_spec l) as [Hnd Hget].
  destruct (@sorted_by_count_fold (count_items l) [] (SSorted_nil _)) as [Hperm Hsorted].
  simpl in Hperm. fold (sorted_by_count (count_items l)) in Hperm, Hsorted.
  assert (Hin : forall x n, In (x, n) (count_items l) ->
                            n = count_occ string_dec l x /\ 1 <= n).
  { intros x n H. apply (dict_get_in Hnd) in H. rewrite Hget in H.
    unfold counted in H.
    destruct (count_occ string_dec l x) as [|c]; simpl in H; [discriminate|].
    injection H as <-. split; [reflexivity|lia]. }
  assert (Hkeys : forall x, In x (dict_keys (count_items l)) <-> In x l).
  { intro x. rewrite (count_occ_In string_dec l x).
    rewrite <- (dict_mem_in (count_items l) x). unfold dict_mem.
    rewrite Hget. unfold counted.
    destruct (count_occ string_dec l x) as [|c]; simpl; split; intro H;
      try discriminate; try lia; reflexivity. }
  split; [reflexivity|]. split; [|split; [|split]].
  - eapply Permutation_NoDup; [|exact Hnd].
    apply Permutation_map. exact Hperm.
  - intro x. rewrite <- Hkeys. split; apply Permutation_in.
    + apply Permutation_map, Permutation_sym, Hperm.
    + apply Permutation_map, Hperm.
  - intros x n H. apply Hin. eapply Permutation_in; [|exact H].
    apply Permutation_sym, Hperm.
  - exact Hsorted.
Qed.

Lemma count_items_distinct (rest done : list string) :
  NoDup (done ++ rest)%list ->
  fold_left (fun d it =>
               dict_set d it (match dict_get d it with
                              | Some n => n + 1
                              | None => 0 + 1
                              end)) rest (map (fun x => (x, 1)) done)
  = map (fun x => (x, 1)) (done ++ rest)%list.
Proof.
  revert done. induction rest as [|it rest IH]; intros done H; cbn [fold_left].
  - rewrite app_nil_r. reflexivity.
  - assert (Hit : ~ In it (dict_keys (map (fun x : string => (x, 1)) done))).
    { unfold dict_keys. rewrite map_map. simpl. rewrite map_id.
      apply NoDup_remove_2 in H. intro Hin. apply H. apply in_or_app. left. exact Hin. }
    rewrite (proj2 (dict_get_none _ _) Hit).
    rewrite (dict_set_new _ Hit).
    replace (map (fun x : string => (x, 1)) done ++ [(it, 0 + 1)])%list
      with (map (fun x : string => (x, 1)) (done ++ [it])%list)
      by (rewrite map_app; reflexivity).
    rewrite IH; rewrite <- app_assoc; [reflexivity|exact H].
Qed.

Lemma insert_by_count_once (x : string) (acc : list (string * nat)) :
  Forall (fun kv => snd kv = 1) acc ->
  insert_by_count (x, 1) acc = (acc ++ [(x, 1)])%list.
Proof.
  induction acc as [|y acc IH]; simpl; intro H; [reflexivity|].
  inversion H as [|? ? Hy Hacc]; subst. rewrite Hy. simpl.
  rewrite (IH Hacc). reflexivity.
Qed.

Lemma sorted_by_count_once (l done : list string) :
  fold_left (fun acc x => insert_by_count x acc) (map (fun x => (x, 1)) l)
            (map (fun x => (x, 1)) done)
  = map (fun x => (x, 1)) (done ++ l)%list.
Proof.
  revert done. induction l as [|x l IH]; intro done; simpl.
  - rewrite app_nil_r. reflexivity.
  - rewrite insert_by_count_once.
    + replace (map (fun x : string => (x, 1)) done ++ [(x, 1)])%list
        with (map (fun x : string => (x, 1)) (done ++ [x])%list)
        by (rewrite map_app; reflexivity).
      rewrite IH. rewrite <- app_assoc. reflexivity.
    + apply Forall_forall. intros kv Hkv. apply in_map_iff in Hkv.
      destruct Hkv as [y [<- _]]. reflexivity.
Qed.

(** X9.  A list without repeated texts comes back from
    [__summarize_list_duplicates] as it went in: the same texts in the
    same order, none with a count. *)
Theorem summarize_list_duplicates_distinct (l : list string) :
  NoDup l -> __summarize_list_duplicates l = l.
Proof.
  intro H. rewrite summarize_list_duplicates_unfold.
  pose proof (@count_items_distinct l [] H) as Hc. cbn [map app] in Hc.
  pose proof (sorted_by_count_once l []) as Hs. cbn [map app] in Hs.
  unfold count_items. rewrite Hc. unfold sorted_by_count. rewrite Hs.
  rewrite map_map. unfold occurrences_text. simpl. apply map_id.
Qed.

Lemma summarize_list_duplicates_distinct_witness :
  __summarize_list_duplicates ["mixing term"; "no convergence"]
  = ["mixing term"; "no convergence"].
Proof.
  apply summarize_list_duplicates_distinct.
  repeat constructor; simpl; intuition discriminate.
Defined.

(** ** logging.py: messages grouped by their header *)

(** The text kept of the body of one match. *)
Definition cleaned (header body : string) : string :=
  strip (lstrip_chars header (strip body)).

(** The matches that carry the header, in the order of the log. *)
Definition matches_of (header : string) (matches : list (string * string))
  : list (string * string) :=
  filter (fun m => String.eqb (fst m) header) matches.

Lemma grouped_matches_fold (rest done : list (string * string))
      (g : dict string (list string)) :
  (forall h, dict_get g h = match matches_of h done with
                            | [] => None
                            | ms => Some (map (fun m => cleaned h (snd m)) ms)
                            end) ->
  forall h,
    dict_get (fold_left (fun g m =>
                           let (header, warningContent) := (m : string * string) in
                           group_append g header
                             (strip (lstrip_chars header (strip warningContent))))
                        rest g) h
    = match matches_of h (done ++ rest)%list with
      | [] => None
      | ms => Some (map (fun m => cleaned h (snd m)) ms)
      end.
Proof.
  revert done g. induction rest as [|[h0 w] rest IH]; intros done g Hg h.
  - simpl. rewrite app_nil_r. apply Hg.
  - cbn [fold_left].
    replace (done ++ (h0, w) :: rest)%list with ((done ++ [(h0, w)]) ++ rest)%list
      by (rewrite <- app_assoc; reflexivity).
    apply IH. clear h. intro h.
    unfold matches_of. rewrite filter_app. cbn [filter fst].
    destruct (String.eqb h0 h) eqn:Eh.
    + apply String.eqb_eq in Eh. subst h0.
      rewrite group_append_get_same. rewrite Hg. unfold matches_of.
      destruct (filter (fun m : string * string => String.eqb (fst m) h) done)
        as [|m ms]; [reflexivity|].
      change ((map (fun m0 : string * string => cleaned h (snd m0)) (m :: ms)
                 ++ [strip (lstrip_chars h (strip w))])%list)
        with ((map (fun m0 : string * string => cleaned h (snd m0)) (m :: ms)
                 ++ map (fun m0 : string * string => cleaned h (snd m0)) [(h, w)])%list).
      rewrite <- map_app. reflexivity.
    + apply String.eqb_neq in Eh.
      rewrite group_append_get_other by exact Eh.
      rewrite app_nil_r. apply Hg.
Qed.

Section LoggingMore.
Context {E : Externals}.

(** X10.  [__extract_warnings_errors] has one key for every header the
    pattern finds in the log and no other; under a header stand the
    bodies of all its matches, cleaned, in the order of the log and then
    summarised with their counts. *)
Theorem extract_warnings_errors_groups (content pattern header : string) :
  dict_get (__extract_warnings_errors content pattern) header
  = match matches_of header (re_findall pattern content) with
    | [] => None
    | ms => Some (__summarize_list_duplicates
                    (map (fun m => cleaned header (snd m)) ms))
    end.
Proof.
  unfold __extract_warnings_errors. cbv zeta.
  rewrite dict_get_map_values.
  rewrite (@grouped_matches_fold (re_findall pattern content) [] []
             (fun h => eq_refl) header).
  cbn [app].
  destruct (matches_of header (re_findall pattern content)); reflexivity.
Qed.

Lemma process_worker_logs_keys (fws : list FinishedWorker)
      (d : dict string LogEntry) (name : string) :
  In name (dict_keys (fold_left (fun d fw => dict_set d (workerName fw) (log_entry fw))
                                fws d))
  <-> In name (dict_keys d) \/ In name (map workerName fws).
Proof.
  revert d. induction fws as [|fw fws IH]; intro d; simpl.
  - tauto.
  - rewrite IH. rewrite dict_keys_set.
    destruct (dict_mem d (workerName fw)) eqn:Em.
    + apply dict_mem_in in Em. split; [tauto|].
      intros [H|[H|H]]; auto. subst name. auto.
    + rewrite in_app_iff. simpl. tauto.
Qed.

(** X11.  [__process_worker_logs] keeps one entry for every name of a
    finished run: the names are the keys, a name that occurs several
    times holds the entry of the last run of that name, and with distinct
    names the entries stand in the order of the runs. *)
Theorem process_worker_logs_one_entry_per_name (fws : list FinishedWorker) :
  NoDup (dict_keys (__process_worker_logs fws)) /\
  (forall name, In name (dict_keys (__process_worker_logs fws))
                <-> In name (map workerName fws)) /\
  (forall fws1 fw fws2,
      fws = (fws1 ++ fw :: fws2)%list ->
      (forall fw', In fw' fws2 -> workerName fw' <> workerName fw) ->
      dict_get (__process_worker_logs fws) (workerName fw) = Some (log_entry fw)) /\
  (NoDup (map workerName fws) ->
   __process_worker_logs fws = map (fun fw => (workerName fw, log_entry fw)) fws).
Proof.
  split; [apply process_worker_logs_nodup|]. split; [|split].
  - intro name. unfold __process_worker_logs.
    rewrite process_worker_logs_keys. simpl. tauto.
  - intros fws1 fw fws2 -> Hlater. apply process_worker_logs_get. exact Hlater.
  - intro Hnd. unfold __process_worker_logs.
    rewrite (@dict_fill_distinct _ _ _ _ workerName log_entry fws [] Hnd).
    reflexivity.
Qed.

Lemma worker_of_entry_name (kv : string * LogEntry) :
  workerName (worker_of_entry kv) = fst kv.
Proof. destruct kv. reflexivity. Qed.

Lemma read_logfile_entries (json_data : dict string LogEntry) :
  NoDup (dict_keys json_data) ->
  read_logfile json_data
  = map (fun kv => (fst kv, log_entry (worker_of_entry kv))) json_data.
Proof.
  intro Hnd. unfold read_logfile, __process_worker_logs.
  rewrite (@dict_fill_distinct _ _ _ _ workerName log_entry
             (map worker_of_entry json_data) []).
  - cbn [app]. rewrite map_map. apply map_ext.
    intro kv. rewrite worker_of_entry_name. reflexivity.
  - cbn [dict_keys map app]. rewrite map_map.
    rewrite (map_ext _ fst worker_of_entry_name). exact Hnd.
Qed.
End LoggingMore.

Definition has_read_error (entry : LogEntry) : bool :=
  match le_readError entry with
  | Some (_ :: _) => true
  | _ => false
  end.

Definition same_text (s : string) (y : rerr_item) : bool :=
  match y with
  | RText t => String.eqb s t
  | RExn _ => false
  end.

Lemma summarize_logfiles_read_errors_fold (data : dict string LogEntry)
      (w e : dict string (list string)) (r : ReadErrors) :
  snd (fold_left
         (fun acc kv =>
            let '(warningsSummary, errorsSummary, readErrorsSummary) := acc in
            let (key, value) := (kv : string * LogEntry) in
            (group_messages warningsSummary (dict_keys (le_simulatorWarnings value)) key,
             group_messages errorsSummary (dict_keys (le_simulatorErrors value)) key,
             count_read_error readErrorsSummary (le_readError value)))
         data (w, e, r))
  = fold_left (fun r kv => count_read_error r (le_readError (snd kv))) data r.
Proof.
  revert w e r. induction data as [|[k v] data IH]; intros w e r; [reflexivity|].
  cbn [fold_left]. rewrite IH. reflexivity.
Qed.

Lemma count_read_error_spec (r : ReadErrors) (entry : LogEntry) :
  let r' := count_read_error r (le_readError entry) in
  totalSims r' = totalSims r + 1 /\
  readErrorCount r' = readErrorCount r + (if has_read_error entry then 1 else 0) /\
  (forall x, In x (errors r) -> In x (errors r')) /\
  (forall x, In x (errors r') ->
             In x (errors r) \/ exists rest, le_readError entry = Some (x :: rest)) /\
  (forall x rest, le_readError entry = Some (x :: rest) ->
                  match x with
                  | RExn _ => In x (errors r')
                  | RText s => existsb (same_text s) (errors r') = true
                  end) /\
  ((forall s, List.length (filter (same_text s) (errors r)) <= 1) ->
   forall s, List.length (filter (same_text s) (errors r')) <= 1).
Proof.
  unfold count_read_error, has_read_error.
  destruct (le_readError entry) as [[|first items]|]; cbn [totalSims readErrorCount errors].
  - repeat split; try lia; auto. intros x rest H. discriminate.
  - destruct (rerr_in first (errors r)) eqn:Ein.
    + repeat split; try lia; auto.
      intros x rest H. injection H as <- <-.
      destruct first as [e|s]; [discriminate|]. exact Ein.
    + repeat split; try lia.
      * intros x H. apply in_or_app. left. exact H.
      * intros x H. apply in_app_or in H. destruct H as [H|[H|[]]]; [left; exact H|].
        right. exists items. congruence.
      * intros x rest H. injection H as <- <-.
        destruct first as [e|s].
        -- apply in_or_app. right. left. reflexivity.
        -- rewrite existsb_app. simpl. rewrite String.eqb_refl.
           rewrite orb_true_r. reflexivity.
      * intros Hone s. rewrite filter_app, length_app. cbn [filter].
        destruct first as [e|t]; cbn [same_text].
        -- simpl. specialize (Hone s). lia.
        -- destruct (String.eqb s t) eqn:Est; [|simpl; specialize (Hone s); lia].
           apply String.eqb_eq in Est. subst t.
           assert (Hnone : filter (same_text s) (errors r) = []).
           { clear - Ein. unfold rerr_in in Ein.
             induction (errors r) as [|y l IHl]; [reflexivity|].
             simpl in Ein. apply orb_false_iff in Ein. destruct Ein as [Hy Hl].
             simpl. destruct y as [e|t]; simpl in *.
             - exact (IHl Hl).
             - rewrite Hy. exact (IHl Hl). }
           rewrite Hnone. simpl. lia.
  - repeat split; try lia; auto. intros x rest H. discriminate.
Qed.

Lemma read_errors_fold (data : dict string LogEntry) (r : ReadErrors) :
  let r' := fold_left (fun r kv => count_read_error r (le_readError (snd kv))) data r in
  totalSims r' = totalSims r + List.length data /\
  readErrorCount r'
  = readErrorCount r + List.length (filter (fun kv => has_read_error (snd kv)) data) /\
  (forall x, In x (errors r) -> In x (errors r')) /\
  (forall x, In x (errors r') ->
             In x (errors r) \/
             exists kv rest, In kv data /\ le_readError (snd kv) = Some (x :: rest)) /\
  (forall kv x rest, In kv data -> le_readError (snd kv) = Some (x :: rest) ->
                     match x with
                     | RExn _ => In x (errors r')
                     | RText s => existsb (same_text s) (errors r') = true
                     end) /\
  ((forall s, List.length (filter (same_text s) (errors r)) <= 1) ->
   forall s, List.length (filter (same_text s) (errors r')) <= 1).
Proof.
  revert r. induction data as [|kv data IH]; intro r; cbn zeta.
  - simpl. repeat split; try lia; auto; try (intros kv x rest []).
  - cbn [fold_left].
    destruct (count_read_error_spec r (snd kv)) as [S1 [S2 [S3 [S4 [S5 S6]]]]].
    destruct (IH (count_read_error r (le_readError (snd kv))))
      as [I1 [I2 [I3 [I4 [I5 I6]]]]].
    cbn zeta in *.
    split; [|split; [|split; [|split; [|split]]]].
    + rewrite I1, S1. simpl. lia.
    + rewrite I2, S2. simpl. destruct (has_read_error (snd kv)); simpl; lia.
    + intros x H. apply I3, S3, H.
    + intros x H. apply I4 in H. destruct H as [H|[kv' [rest [H1 H2]]]].
      * apply S4 in H. destruct H as [H|[rest H]]; [left; exact H|].
        right. exists kv, rest. split; [left; reflexivity|exact H].
      * right. exists kv', rest. split; [right; exact H1|exact H2].
    + intros kv' x rest [<-|Hin] Hx.
      * specialize (S5 x rest Hx). destruct x as [e|s].
        -- apply I3. exact S5.
        -- apply existsb_exists in S5. destruct S5 as [y [Hy1 Hy2]].
           apply existsb_exists. exists y. split; [apply I3; exact Hy1|exact Hy2].
      * exact (I5 kv' x rest Hin Hx).
    + intros Hone. apply I6. apply S6. exact Hone.
Qed.

(** X12.  The read errors [__summarize_logfiles] reports: the total is
    the number of runs, the count is the number of runs with a non-empty
    [readError], so never more than the total; every listed element is
    the first element of the [readError] of a run, the first element of
    every such [readError] is listed, and no text is listed twice. *)
Theorem summarize_logfiles_read_errors (data : dict string LogEntry) :
  let r := snd (__summarize_logfiles data) in
  totalSims r = List.length data /\
  readErrorCount r = List.length (filter (fun kv => has_read_error (snd kv)) data) /\
  readErrorCount r <= totalSims r /\
  (forall x, In x (errors r) ->
             exists kv rest, In kv data /\ le_readError (snd kv) = Some (x :: rest)) /\
  (forall kv x rest, In kv data -> le_readError (snd kv) = Some (x :: rest) ->
                     match x with
                     | RExn _ => In x (errors r)
                     | RText s => existsb (same_text s) (errors r) = true
                     end) /\
  (forall s, List.length (filter (same_text s) (errors r)) <= 1).
Proof.
  cbn zeta. unfold __summarize_logfiles.
  rewrite summarize_logfiles_read_errors_fold.
  destruct (read_errors_fold data {| totalSims := 0; readErrorCount := 0; errors := [] |})
    as [H1 [H2 [H3 [H4 [H5 H6]]]]].
  cbn zeta in *. cbn [totalSims readErrorCount errors] in *.
  split; [exact H1|]. split; [exact H2|]. split.
  - rewrite H1, H2. simpl. apply filter_length_le.
  - split; [|split].
    + intros x H. apply H4 in H. destruct H as [[]|H]. exact H.
    + exact H5.
    + apply H6. intro s. simpl. lia.
Qed.

Section ReadLogProps.
Context {E : Externals}.

Lemma read_errors_none (data : dict string LogEntry) :
  (forall kv, In kv data -> has_read_error (snd kv) = false) ->
  totalSims (snd (__summarize_logfiles data)) = List.length data /\
  readErrorCount (snd (__summarize_logfiles data)) = 0.
Proof.
  intro H. unfold __summarize_logfiles.
  rewrite summarize_logfiles_read_errors_fold.
  destruct (read_errors_fold data {| totalSims := 0; readErrorCount := 0; errors := [] |})
    as [H1 [H2 _]].
  cbn zeta in *. cbn [totalSims readErrorCount] in *.
  split; [exact H1|]. rewrite H2. clear H1 H2.
  assert (Hnone : filter (fun kv => has_read_error (snd kv)) data = []).
  { induction data as [|kv data IH]; [reflexivity|].
    simpl. rewrite (H kv (or_introl eq_refl)). apply IH.
    intros kv' Hin. apply H. right. exact Hin. }
  rewrite Hnone. reflexivity.
Qed.

(** X13.  [read_logfile] gives every entry of the file, under its name
    and in the order of the file, the entry the processing makes of its
    return code, its two logs and its handler data, the simulator data,
    errors and warnings being read anew from the log text.  A read error
    is not taken over: the summary after [read_logfile] counts none.
    Reading the result again changes nothing. *)
Theorem read_logfile_restores_entries (json_data : dict string LogEntry) :
  NoDup (dict_keys json_data) ->
  read_logfile json_data
  = map (fun kv => (fst kv, log_entry (worker_of_entry kv))) json_data /\
  dict_keys (read_logfile json_data) = dict_keys json_data /\
  (forall name entry, In (name, entry) (read_logfile json_data) ->
                      le_readError entry = None) /\
  readErrorCount (snd (__summarize_logfiles (read_logfile json_data))) = 0 /\
  read_logfile (read_logfile json_data) = read_logfile json_data.
Proof.
  intro Hnd.
  assert (H1 := read_logfile_entries Hnd).
  assert (H2 : dict_keys (read_logfile json_data) = dict_keys json_data).
  { rewrite H1. unfold dict_keys. rewrite map_map. reflexivity. }
  assert (H3 : forall name entry, In (name, entry) (read_logfile json_data) ->
                                  le_readError entry = None).
  { intros name entry Hin. rewrite H1 in Hin. apply in_map_iff in Hin.
    destruct Hin as [[k e] [Heq _]]. injection Heq as <- <-. reflexivity. }
  split; [exact H1|]. split; [exact H2|]. split; [exact H3|]. split.
  - apply read_errors_none. intros [name entry] Hin.
    unfold has_read_error. simpl. rewrite (H3 name entry Hin). reflexivity.
  - rewrite (@read_logfile_entries E (read_logfile json_data)) by (rewrite H2; exact Hnd).
    rewrite H1. rewrite map_map. apply map_ext. intros [k e]. reflexivity.
Qed.

Lemma grouped_by_quiet (sel : LogEntry -> dict string (list string))
      (data : dict string LogEntry) (s : dict string (list string)) :
  (forall kv, In kv data -> sel (snd kv) = []) ->
  grouped_by sel data s = s.
Proof.
  revert s. induction data as [|kv data IH]; intros s H; [reflexivity|].
  unfold grouped_by. cbn [fold_left].
  rewrite (H kv (or_introl eq_refl)). simpl group_messages.
  apply IH. intros kv' Hin. apply H. right. exact Hin.
Qed.

(** X14.  When no run has a read error and no log holds an error or a
    warning, the summary is the line of the CPU time, the line that
    counts all runs as read, and the two sections with their sentence
    that nothing occurred. *)
Theorem print_summary_quiet (data : dict string LogEntry) (printed : list string) :
  (forall kv, In kv data ->
     le_simulatorErrors (snd kv) = [] /\ le_simulatorWarnings (snd kv) = [] /\
     has_read_error (snd kv) = false) ->
  print_summary data = Ok printed ->
  exists total,
    cumulated_cpu_time data = Ok total /\
    printed
    = [cpu_time_line total;
       "Read " ++ str_of_nat (List.length data) ++ "/"
               ++ str_of_nat (List.length data) ++ " Files sucessfully ";
       "Simulation Errors:"; dashes; "No errors occurred."; nl_str;
       "Simulation Warnings:"; dashes; "No warnings occurred."].
Proof.
  intros Hq Hp. unfold print_summary in Hp.
  destruct (cumulated_cpu_time data) as [total|e] eqn:Ec; [|discriminate].
  rewrite bind_ok in Hp. exists total. split; [reflexivity|].
  destruct (summarize_logfiles_groups data) as [Hw He].
  destruct (read_errors_none (data := data)) as [Ht Hc].
  { intros kv Hin. apply (Hq kv Hin). }
  rewrite (grouped_by_quiet (sel := le_simulatorWarnings)) in Hw
    by (intros kv Hin; apply (Hq kv Hin)).
  rewrite (grouped_by_quiet (sel := le_simulatorErrors)) in He
    by (intros kv Hin; apply (Hq kv Hin)).
  destruct (__summarize_logfiles data) as [[w e] r].
  cbn [fst snd] in Hw, He, Ht, Hc. subst w e.
  rewrite Hc, Ht in Hp. rewrite Nat.sub_0_r in Hp.
  cbn [Nat.eqb] in Hp. unfold section_lines in Hp. cbn [app] in Hp.
  injection Hp as <-. reflexivity.
Qed.
End ReadLogProps.

Lemma read_logfile_restores_entries_witness :
  readErrorCount
    (snd (__summarize_logfiles
            (read_logfile (E := bench_logs)
               [("amp_bias_0",
                 log_entry (E := bench_logs)
                   (set_readError (bench_logged "amp_bias_0" EmptyString)
                                  [RText unreadable_message]));
                ("amp_bias_1",
                 log_entry (E := bench_logs)
                   (bench_logged "amp_bias_1" bench_warning_log))])))
  = 0.
Proof.
  refine (proj1 (proj2 (proj2 (proj2
            (@read_logfile_restores_entries bench_logs _ _))))).
  repeat constructor; simpl; intuition discriminate.
Defined.

Lemma print_summary_quiet_witness :
  exists total,
    cumulated_cpu_time (E := bench_logs)
      (__process_worker_logs (E := bench_logs)
         [bench_logged "amp_bias_0" EmptyString; bench_logged "amp_bias_1" EmptyString])
    = Ok total /\
    ["Cumulated CPU Time"; "Read 2/2 Files sucessfully ";
     "Simulation Errors:"; dashes; "No errors occurred."; nl_str;
     "Simulation Warnings:"; dashes; "No warnings occurred."]
    = [cpu_time_line (Externals := bench_logs) total;
       "Read 2/2 Files sucessfully ";
       "Simulation Errors:"; dashes; "No errors occurred."; nl_str;
       "Simulation Warnings:"; dashes; "No warnings occurred."].
Proof.
  apply (@print_summary_quiet bench_logs
           (__process_worker_logs (E := bench_logs)
              [bench_logged "amp_bias_0" EmptyString;
               bench_logged "amp_bias_1" EmptyString])).
  - intros kv [<-|[<-|[]]]; repeat split; reflexivity.
  - reflexivity.
Defined.

(** ** simulation.py: the sweep specification, further *)

Lemma existsb_rev (A : Type) (p : A -> bool) (l : list A) :
  existsb p (rev l) = existsb p l.
Proof.
  induction l as [|a l IH]; [reflexivity|].
  simpl. rewrite existsb_app, IH. simpl. rewrite orb_false_r. apply orb_comm.
Qed.

Lemma map_rev_rev (A : Type) (l : list (list A)) :
  map (@rev A) (map (@rev A) l) = l.
Proof.
  rewrite map_map. rewrite <- (map_id l) at 2. apply map_ext.
  intro a. apply rev_involutive.
Qed.

(** X15.  The constructor undoes itself: given a complete, named index
    it keeps the reversed index, and given that reversed index, as a
    second manager would be, it keeps the index the caller began with. *)
Theorem newSweepingVars_twice (idx0 : MultiIndex) (var_names var_names' : names_arg) :
  existsb is_none (names idx0) = false ->
  Forall (fun t => List.length t = List.length (names idx0)) (tuples idx0) ->
  exists idx1,
    newSweepingVars (InMultiIndex idx0) var_names = Ok idx1 /\
    names idx1 = rev (names idx0) /\
    newSweepingVars (InMultiIndex idx1) var_names' = Ok idx0.
Proof.
  intros Hnames Hreg.
  exists {| names := rev (names idx0); tuples := map (@rev pyobj) (tuples idx0) |}.
  assert (H1 : newSweepingVars (InMultiIndex idx0) var_names
               = Ok {| names := rev (names idx0);
                       tuples := map (@rev pyobj) (tuples idx0) |}).
  { unfold newSweepingVars, check_vars. rewrite Hnames. rewrite bind_ok.
    rewrite (reorder_levels_reversed Hreg). reflexivity. }
  split; [exact H1|]. split; [reflexivity|].
  unfold newSweepingVars, check_vars. cbn [names tuples].
  rewrite existsb_rev, Hnames. rewrite bind_ok.
  rewrite reorder_levels_reversed.
  - cbn [names tuples]. rewrite rev_involutive, map_rev_rev.
    destruct idx0. reflexivity.
  - cbn [names tuples]. rewrite Forall_map. rewrite length_rev.
    eapply Forall_impl; [|exact Hreg]. intros t Ht. rewrite length_rev. exact Ht.
Qed.


Lemma NoDup_firstn (A : Type) (n : nat) (l : list A) : NoDup l -> NoDup (firstn n l).
Proof.
  revert n. induction l as [|a l IH]; intros n H; destruct n; simpl;
    try constructor.
  - inversion H as [|? ? Ha Hl]; subst. intro Hin. apply Ha.
    rewrite <- (firstn_skipn n l). apply in_or_app. left. exact Hin.
  - inversion H; subst. apply IH. assumption.
Qed.

Lemma map_fst_combine (A B : Type) (l : list A) (r : list B) :
  map fst (combine l r) = firstn (List.length r) l.
Proof.
  revert r. induction l as [|a l IH]; intros [|b r]; simpl; try reflexivity.
  rewrite IH. reflexivity.
Qed.

(** X17.  The dictionary of variables a run is started with pairs the
    level names with the values of its tuple, in the order of the
    levels, when the names are distinct; a value beyond the last name,
    or a name beyond the last value, is dropped. *)
Theorem worker_vars_in_level_order (nms : list label) (t : list pyobj) :
  NoDup nms ->
  dict_of_pairs (combine nms t) = combine nms t /\
  dict_keys (dict_of_pairs (combine nms t)) = firstn (List.length t) nms.
Proof.
  intro Hnd.
  assert (H : dict_of_pairs (combine nms t) = combine nms t).
  { unfold dict_of_pairs.
    rewrite (@dict_fill_distinct _ _ _ _ fst snd (combine nms t) []).
    - cbn [app]. rewrite <- (map_id (combine nms t)) at 2.
      apply map_ext. intros [a b]. reflexivity.
    - cbn [dict_keys map app]. rewrite map_fst_combine.
      apply NoDup_firstn. exact Hnd. }
  split; [exact H|]. rewrite H. apply map_fst_combine.
Qed.

Lemma newSweepingVars_twice_witness :
  exists idx1,
    newSweepingVars (InMultiIndex {| names := [bias; freq];
                                     tuples := [[PInt 0; PInt 1]; [PInt 0; PInt 2]] |})
                    NoNames = Ok idx1 /\
    names idx1 = rev [bias; freq] /\
    newSweepingVars (InMultiIndex idx1) NoNames
    = Ok {| names := [bias; freq]; tuples := [[PInt 0; PInt 1]; [PInt 0; PInt 2]] |}.
Proof.
  apply (@newSweepingVars_twice
           {| names := [bias; freq]; tuples := [[PInt 0; PInt 1]; [PInt 0; PInt 2]] |}
           NoNames NoNames).
  - reflexivity.
  - repeat constructor.
Defined.


Lemma worker_vars_in_level_order_witness :
  dict_of_pairs (combine [bias; freq] [PInt 1; PInt 2])
  = [(bias, PInt 1); (freq, PInt 2)].
Proof.
  refine (proj1 (@worker_vars_in_level_order [bias; freq] [PInt 1; PInt 2] _)).
  repeat constructor; simpl; intuition discriminate.
Defined.

(** ** simulation.py: the index of a processed block *)

(** What [t[c] = v] does to the columns and to one row. *)
Definition assign_cols (cols : list label) (c : label) : list label :=
  if mem c cols then cols else (cols ++ [c])%list.

Definition assign_row (cols : list label) (c : label) (v : pyobj) (r : list pyobj)
  : list pyobj :=
  if mem c cols then
    map (fun cx => if label_eqb c (fst cx) then v else snd cx) (combine cols r)
  else (r ++ [v])%list.

(** The loop [for newIndep in vars] on the columns and on one row. *)
Definition assign_all_cols (vars : dict label pyobj) (cols : list label) : list label :=
  fold_left (fun cols kv => assign_cols cols (fst kv)) vars cols.

Definition assign_all_row (vars : dict label pyobj) (cols : list label)
           (r : list pyobj) : list pyobj :=
  snd (fold_left (fun cr kv => (assign_cols (fst cr) (fst kv),
                                assign_row (fst cr) (fst kv) (snd kv) (snd cr)))
                 vars (cols, r)).

Lemma assign_column_rows (t : Table) (c : label) (v : pyobj) :
  assign_column t c v
  = {| columns := assign_cols (columns t) c;
       rows := map (assign_row (columns t) c v) (rows t) |}.
Proof.
  unfold assign_column, assign_cols, assign_row.
  destruct (mem c (columns t)); reflexivity.
Qed.

Lemma fold_assign_column (vars : dict label pyobj) (t : Table) :
  fold_left (fun t kv => assign_column t (fst kv) (snd kv)) vars t
  = {| columns := assign_all_cols vars (columns t);
       rows := map (assign_all_row vars (columns t)) (rows t) |}.
Proof.
  revert t. induction vars as [|[k v] vars IH]; intro t.
  - unfold assign_all_cols, assign_all_row. simpl.
    rewrite map_id. destruct t. reflexivity.
  - cbn [fold_left fst snd]. rewrite IH. rewrite assign_column_rows.
    cbn [columns rows]. rewrite map_map. reflexivity.
Qed.

Lemma label_eqb_refl (c : label) : label_eqb c c = true.
Proof. apply label_eqb_eq. reflexivity. Qed.

Lemma label_eqb_neq (a b : label) : a <> b -> label_eqb a b = false.
Proof.
  intro H. destruct (label_eqb a b) eqn:E; [|reflexivity].
  apply label_eqb_eq in E. contradiction.
Qed.

Lemma cell_replaced (cols : list label) (r : list pyobj) (c : label) (v : pyobj) :
  In c cols -> List.length r = List.length cols ->
  cell cols (map (fun cx => if label_eqb c (fst cx) then v else snd cx) (combine cols r)) c
  = v.
Proof.
  revert r. induction cols as [|c' cols IH]; intros [|x r] Hin Hlen;
    simpl in *; try contradiction; try discriminate.
  destruct (label_eqb c c') eqn:Ec; [reflexivity|].
  apply IH; [|lia].
  destruct Hin as [->|Hin]; [|exact Hin].
  rewrite label_eqb_refl in Ec. discriminate.
Qed.

Lemma cell_appended (cols : list label) (r : list pyobj) (c : label) (v : pyobj) :
  ~ In c cols -> List.length r = List.length cols ->
  cell (cols ++ [c]) (r ++ [v]) c = v.
Proof.
  revert r. induction cols as [|c' cols IH]; intros [|x r] Hin Hlen;
    simpl in *; try discriminate.
  - rewrite label_eqb_refl. reflexivity.
  - rewrite label_eqb_neq by (intro; subst; apply Hin; left; reflexivity).
    apply IH; [|lia]. intro H. apply Hin. right. exact H.
Qed.

Lemma cell_replaced_other (cols : list label) (r : list pyobj) (c c' : label)
      (v : pyobj) :
  c' <> c -> List.length r = List.length cols ->
  cell cols (map (fun cx => if label_eqb c (fst cx) then v else snd cx) (combine cols r)) c'
  = cell cols r c'.
Proof.
  intro Hne. revert r. induction cols as [|c0 cols IH]; intros [|x r] Hlen;
    simpl in *; try discriminate; try reflexivity.
  destruct (label_eqb c' c0) eqn:E0.
  - apply label_eqb_eq in E0. subst c0.
    rewrite label_eqb_neq by congruence. reflexivity.
  - apply IH. lia.
Qed.

Lemma cell_appended_other (cols : list label) (r : list pyobj) (c c' : label)
      (v : pyobj) :
  c' <> c -> List.length r = List.length cols ->
  cell (cols ++ [c]) (r ++ [v]) c' = cell cols r c'.
Proof.
  intro Hne. revert r. induction cols as [|c0 cols IH]; intros [|x r] Hlen;
    simpl in *; try discriminate.
  - rewrite label_eqb_neq by exact Hne. reflexivity.
  - destruct (label_eqb c' c0); [reflexivity|]. apply IH. lia.
Qed.

Lemma assign_row_length (cols : list label) (r : list pyobj) (c : label) (v : pyobj) :
  List.length r = List.length cols ->
  List.length (assign_row cols c v r) = List.length (assign_cols cols c).
Proof.
  intro H. unfold assign_row, assign_cols. destruct (mem c cols).
  - rewrite length_map, length_combine. lia.
  - rewrite !length_app. simpl. lia.
Qed.

Lemma cell_assign_same (cols : list label) (r : list pyobj) (c : label) (v : pyobj) :
  List.length r = List.length cols ->
  cell (assign_cols cols c) (assign_row cols c v r) c = v.
Proof.
  intro H. unfold assign_row, assign_cols. destruct (mem c cols) eqn:Em.
  - apply cell_replaced; [apply mem_in; exact Em|exact H].
  - apply cell_appended; [apply mem_not_in; exact Em|exact H].
Qed.

Lemma cell_assign_other (cols : list label) (r : list pyobj) (c c' : label) (v : pyobj) :
  c' <> c -> List.length r = List.length cols ->
  cell (assign_cols cols c) (assign_row cols c v r) c' = cell cols r c'.
Proof.
  intros Hne H. unfold assign_row, assign_cols. destruct (mem c cols).
  - apply cell_replaced_other; assumption.
  - apply cell_appended_other; assumption.
Qed.

Lemma assign_all_cells (vars : dict label pyobj) (cols : list label) (r : list pyobj) :
  NoDup (dict_keys vars) -> List.length r = List.length cols ->
  let cr := fold_left (fun cr kv => (assign_cols (fst cr) (fst kv),
                                     assign_row (fst cr) (fst kv) (snd kv) (snd cr)))
                      vars (cols, r) in
  fst cr = assign_all_cols vars cols /\
  List.length (snd cr) = List.length (fst cr) /\
  (forall k v, In (k, v) vars -> cell (fst cr) (snd cr) k = v) /\
  (forall c, ~ In c (dict_keys vars) -> cell (fst cr) (snd cr) c = cell cols r c).
Proof.
  revert cols r. induction vars as [|[k0 v0] vars IH]; intros cols r Hnd Hlen; cbn zeta.
  - simpl. repeat split; auto. intros k v [].
  - cbn [fold_left fst snd]. simpl in Hnd. inversion Hnd as [|? ? Hk0 Hrest]; subst.
    destruct (IH (assign_cols cols k0) (assign_row cols k0 v0 r) Hrest
                 (assign_row_length k0 v0 Hlen)) as [I1 [I2 [I3 I4]]].
    cbn zeta in *. split; [exact I1|]. split; [exact I2|]. split.
    + intros k v [Heq|Hin].
      * injection Heq as <- <-. rewrite (I4 k0 Hk0). apply cell_assign_same. exact Hlen.
      * apply I3. exact Hin.
    + intros c Hc. rewrite I4 by (intro H; apply Hc; right; exact H).
      apply cell_assign_other; [|exact Hlen].
      intro H. apply Hc. left. symmetry. exact H.
Qed.

Section ProcessBlockProps.
Context {E : Externals}.

(** X18.  The frame made of a block with independent variables is
    indexed by the names of the run's variables followed by the block's
    own, and the index of every row begins with the values of the run's
    variables and goes on with the row's own values of the block's
    variables; the rows keep their order. *)
Theorem process_block_index_values
        (vars : dict label pyobj) (block : Block) (df : DataFrame) :
  NoDup (dict_keys vars) ->
  (forall n, In n (blk_ivarnames block) -> ~ In n (dict_keys vars)) ->
  Forall (fun r => List.length r = List.length (columns (blk_data block)))
         (rows (blk_data block)) ->
  process_block vars block = Ok (IFrame df) ->
  index_names df = (dict_keys vars ++ blk_ivarnames block)%list /\
  map fst (df_rows df)
  = map (fun r => (map snd vars
                     ++ map (cell (columns (blk_data block)) r) (blk_ivarnames block))%list)
        (rows (blk_data block)).
Proof.
  intros Hnd Hdisj Hwf H. unfold process_block in H.
  destruct (Nat.eqb (List.length (blk_ivarnames block)) 0); [discriminate|].
  cbv zeta in H. rewrite fold_assign_column in H.
  unfold set_index in H. cbn [columns rows] in H.
  destruct (find _ _) in H; [discriminate|].
  rewrite bind_ok in H. injection H as <-. cbn [index_names df_rows].
  split; [reflexivity|].
  rewrite !map_map. cbn [fst]. apply map_ext_in. intros r Hr.
  rewrite Forall_forall in Hwf. specialize (Hwf r Hr).
  destruct (assign_all_cells Hnd Hwf) as [I1 [I2 [I3 I4]]]. cbn zeta in *.
  unfold assign_all_row. rewrite <- I1. rewrite map_app. f_equal.
  - unfold dict_keys. rewrite map_map. apply map_ext_in.
    intros [k v] Hkv. apply I3. exact Hkv.
  - apply map_ext_in. intros n Hn. apply I4. apply Hdisj. exact Hn.
Qed.
End ProcessBlockProps.

Lemma process_block_index_values_witness :
  exists df,
    process_block [(bias, PInt 2)] (bench_block [1%Z; 2%Z]) = Ok (IFrame df) /\
    index_names df = [bias; freq] /\
    map fst (df_rows df) = [[PInt 2; PInt 1]; [PInt 2; PInt 2]].
Proof.
  eexists. split; [reflexivity|].
  refine (@process_block_index_values [(bias, PInt 2)] (bench_block [1%Z; 2%Z]) _
            _ _ _ eq_refl).
  - repeat constructor; simpl; intuition discriminate.
  - intros n [<-|[]] [H|[]]. discriminate.
  - repeat constructor.
Defined.

(** ** simulation.py: what the collection keeps *)

Lemma foldM_invariant (S A : Type) (f : S -> A -> result S) (P : S -> Prop)
      (l : list A) (s s' : S) :
  (forall s a s', In a l -> P s -> f s a = Ok s' -> P s') ->
  P s -> foldM f l s = Ok s' -> P s'.
Proof.
  revert s. induction l as [|a l IH]; intros s Hstep Hs H; simpl in H.
  - injection H as <-. exact Hs.
  - destruct (f s a) as [s1|e] eqn:E; [|discriminate].
    rewrite bind_ok in H. apply (IH s1); [|eapply Hstep; eauto; left; reflexivity|exact H].
    intros s2 a' s3 Hin. apply Hstep. right. exact Hin.
Qed.

Lemma foldM_steps (S A : Type) (f : S -> A -> result S) (P : S -> Prop)
      (l : list A) (s s' : S) (a : A) :
  (forall s a s', In a l -> P s -> f s a = Ok s' -> P s') ->
  P s -> foldM f l s = Ok s' -> In a l ->
  exists s1 s2, P s1 /\ f s1 a = Ok s2.
Proof.
  revert s. induction l as [|x l IH]; intros s Hstep Hs H Hin; [contradiction|].
  simpl in H. destruct (f s x) as [s1|e] eqn:E; [|discriminate].
  rewrite bind_ok in H. destruct Hin as [->|Hin].
  - exists s, s1. auto.
  - apply (IH s1); [|eapply Hstep; eauto; left; reflexivity|exact H|exact Hin].
    intros s2 a' s3 Hin'. apply Hstep. right. exact Hin'.
Qed.

Lemma mapM_Forall2 (A B : Type) (f : A -> result B) (l : list A) (l' : list B) :
  mapM f l = Ok l' -> Forall2 (fun a b => f a = Ok b) l l'.
Proof.
  revert l'. induction l as [|a l IH]; intros l' H; simpl in H.
  - injection H as <-. constructor.
  - destruct (f a) as [b|e] eqn:E; [|discriminate]. rewrite bind_ok in H.
    destruct (mapM f l) as [bs|e]; [|discriminate]. rewrite bind_ok in H.
    injection H as <-. constructor; [exact E|]. apply IH. reflexivity.
Qed.

Lemma length_list_set (A : Type) (l : list A) (i : nat) (x : A) :
  List.length (list_set l i x) = List.length l.
Proof.
  revert i. induction l as [|a l IH]; intros [|i]; simpl; auto.
Qed.

Lemma Forall2_list_set (A B : Type) (R : A -> B -> Prop) (l : list A) (s : list B)
      (n : nat) (y : B) :
  Forall2 R l s ->
  (forall x, nth_error l n = Some x -> R x y) ->
  Forall2 R l (list_set s n y).
Proof.
  intro H. revert n. induction H as [|a b l s Hab Hls IH]; intros n Hy.
  - destruct n; constructor.
  - destruct n as [|n]; simpl.
    + constructor; [apply Hy; reflexivity|exact Hls].
    + constructor; [exact Hab|]. apply IH. exact Hy.
Qed.

Lemma Forall2_nth_error (A B : Type) (R : A -> B -> Prop) (l : list A) (s : list B)
      (n : nat) (x : A) :
  Forall2 R l s -> nth_error l n = Some x ->
  exists y, nth_error s n = Some y /\ R x y.
Proof.
  intro H. revert n. induction H as [|a b l s Hab Hls IH]; intros [|n] Hn;
    simpl in *; try discriminate.
  - injection Hn as <-. exists b. auto.
  - apply IH. exact Hn.
Qed.

Lemma Forall2_nth_error_right (A B : Type) (R : A -> B -> Prop) (l : list A)
      (s : list B) (n : nat) (y : B) :
  Forall2 R l s -> nth_error s n = Some y ->
  exists x, nth_error l n = Some x /\ R x y.
Proof.
  intro H. revert n. induction H as [|a b l s Hab Hls IH]; intros [|n] Hn;
    simpl in *; try discriminate.
  - injection Hn as <-. exists a. auto.
  - apply IH. exact Hn.
Qed.

Lemma nth_error_enumerate (A : Type) (l : list A) (n : nat) (x : A) :
  nth_error l n = Some x -> In (n, x) (enumerate l).
Proof.
  unfold enumerate. intro H.
  assert (G : forall k, In (k + n, x) (combine (seq k (List.length l)) l)).
  { revert n H. induction l as [|a l IH]; intros [|n] H k; simpl in *; try discriminate.
    - injection H as <-. left. rewrite Nat.add_0_r. reflexivity.
    - right. replace (k + S n) with (S k + n) by lia. apply IH. exact H. }
  exact (G 0).
Qed.

(** Two entries of the block list are of the same kind: two frames, or
    one and the same block. *)
Definition same_kind (x y : item) : Prop :=
  match x, y with
  | IFrame _, IFrame _ => True
  | IBlock a, IBlock b => a = b
  | _, _ => False
  end.

Lemma same_kind_refl (x : item) : same_kind x x.
Proof. destruct x; simpl; auto. Qed.

Lemma Forall2_same_kind_refl (l : list item) : Forall2 same_kind l l.
Proof. induction l; constructor; auto using same_kind_refl. Qed.

Section CollectMore.
Context {E : Externals}.

Lemma merge_block_frame (s s' : list item) (b : nat) (df : DataFrame) :
  merge_block s (b, IFrame df) = Ok s' ->
  exists a r, nth_error s b = Some (IFrame a) /\
              concat_frames a df = Ok r /\
              s' = list_set s b (IFrame r).
Proof.
  unfold merge_block.
  destruct (nth_error s b) as [[a|blk]|]; [|intro H; simpl in H; discriminate H
                                            |discriminate].
  unfold pd_concat. destruct (concat_frames a df) as [r|e] eqn:Ec; [|discriminate].
  rewrite !bind_ok. intro H. injection H as <-. exists a, r. repeat split. exact Ec.
Qed.

Lemma merge_block_same_kind (cb s s' : list item) (bx : nat * item) :
  Forall2 same_kind cb s -> merge_block s bx = Ok s' -> Forall2 same_kind cb s'.
Proof.
  intros Hk H. destruct bx as [b [df|blk]].
  - apply merge_block_frame in H. destruct H as [a [r [Hn [_ ->]]]].
    apply Forall2_list_set; [exact Hk|].
    intros x Hx. destruct (Forall2_nth_error Hk Hx) as [y [Hy Hxy]].
    rewrite Hn in Hy. injection Hy as <-. destruct x; simpl in *; auto.
  - simpl in H. injection H as <-. exact Hk.
Qed.

(** X19.  Merging the blocks of a later run into the collected ones
    keeps the list as long as it was, leaves every block without
    independent variables as the template run gave it, and leaves a frame
    where a frame was; and every frame the later run brings met a frame
    at its position. *)
Theorem merge_blocks_keeps_template (data cb cb' : list item) :
  foldM merge_block (enumerate data) cb = Ok cb' ->
  List.length cb' = List.length cb /\
  (forall n b, nth_error cb n = Some (IBlock b) -> nth_error cb' n = Some (IBlock b)) /\
  (forall n a, nth_error cb n = Some (IFrame a) ->
               exists a', nth_error cb' n = Some (IFrame a')) /\
  (forall n df, nth_error data n = Some (IFrame df) ->
                exists a, nth_error cb n = Some (IFrame a)).
Proof.
  intro H.
  assert (Hstep : forall s a s', In a (enumerate data) ->
                                 Forall2 same_kind cb s -> merge_block s a = Ok s' ->
                                 Forall2 same_kind cb s').
  { intros s a s' _. apply merge_block_same_kind. }
  assert (Hk : Forall2 same_kind cb cb').
  { exact (foldM_invariant Hstep (Forall2_same_kind_refl cb) H). }
  split; [symmetry; exact (Forall2_length Hk)|]. split; [|split].
  - intros n b Hn. destruct (Forall2_nth_error Hk Hn) as [y [Hy Hby]].
    destruct y; simpl in Hby; [contradiction|]. subst. exact Hy.
  - intros n a Hn. destruct (Forall2_nth_error Hk Hn) as [y [Hy Hay]].
    destruct y; simpl in Hay; [|contradiction]. eexists. exact Hy.
  - intros n df Hn. apply nth_error_enumerate in Hn.
    destruct (foldM_steps Hstep (Forall2_same_kind_refl cb) H Hn) as [s1 [s2 [Hs1 Hm]]].
    apply merge_block_frame in Hm. destruct Hm as [a [r [Ha _]]].
    destruct (Forall2_nth_error_right Hs1 Ha) as [x [Hx Hxa]].
    destruct x; simpl in Hxa; [|contradiction]. eexists. exact Hx.
Qed.

(** What a worker function that returned gives back: the run of the
    handler as it is with the blocks and as many metadata entries, or
    that run with a read error and no blocks. *)
Lemma sim_worker_fcn_shape (mgr : SimulationManager) (t : list pyobj) (rv : RetVals) :
  _sim_worker_fcn mgr t = Ok rv ->
  exists fw,
    handler_run mgr (dict_of_pairs (combine (names (mgr_sweep mgr)) t)) = Ok fw /\
    ((rv_fw rv = fw /\
      exists data meta, rv_data rv = Some data /\ rv_metadata rv = Some meta /\
                        List.length data = List.length meta)
     \/
     (exists items, rv_fw rv = set_readError fw items /\ items <> [] /\
                    rv_data rv = None /\ rv_metadata rv = None)).
Proof.
  unfold _sim_worker_fcn.
  destruct (handler_run mgr (dict_of_pairs (combine (names (mgr_sweep mgr)) t)))
    as [fw | e]; [|discriminate].
  rewrite bind_ok. intro H. exists fw. split; [reflexivity|].
  destruct (isfile (origDataFilePath fw)) eqn:F; simpl negb in H; cbv iota in H.
  - destruct (read_file (origDataFilePath fw)) as [members | e].
    + destruct (mapM (process_block _) members) as [blocks|] eqn:M; [|discriminate].
      rewrite bind_ok in H. injection H as <-. left. split; [reflexivity|].
      eexists. eexists. split; [reflexivity|]. split; [reflexivity|].
      apply mapM_Forall2 in M. apply Forall2_length in M.
      rewrite length_map. symmetry. exact M.
    + destruct e; try discriminate; injection H as <-; right;
        eexists; (split; [reflexivity|]); (split; [discriminate|]); auto.
  - injection H as <-. right.
    eexists. split; [reflexivity|]. split; [discriminate|]. auto.
Qed.


(** The state of the collection between two runs: before the first run
    with a dataset nothing is kept; after it the blocks are of the kind
    of the blocks of one run, and the metadata are that run's. *)
Definition collected_from (mgr : SimulationManager) (st : Collected) : Prop :=
  if isFirstValidWorker st then
    concatBlocks st = [] /\ concatBlocksMetadata st = []
  else
    exists t rv data,
      In t (tuples (mgr_sweep mgr)) /\
      _sim_worker_fcn mgr t = Ok rv /\
      rv_data rv = Some data /\
      rv_metadata rv = Some (concatBlocksMetadata st) /\
      Forall2 same_kind data (concatBlocks st).

Lemma collect_step_collected_from (mgr : SimulationManager) (st st' : Collected)
      (t : list pyobj) :
  In t (tuples (mgr_sweep mgr)) ->
  collected_from mgr st ->
  (retvals <- _sim_worker_fcn mgr t ;; collect_retvals st retvals) = Ok st' ->
  collected_from mgr st'.
Proof.
  intros Hin Hst H.
  destruct (_sim_worker_fcn mgr t) as [rv|e] eqn:W; [|discriminate].
  rewrite bind_ok in H. unfold collect_retvals in H.
  destruct (sim_worker_fcn_shape W)
    as [fw0 [_ [[_ [data [meta [Hd [Hm _]]]]]|[items [_ [_ [Hd Hm]]]]]]];
    rewrite Hd in H.
  - unfold collected_from in Hst. destruct (isFirstValidWorker st) eqn:F.
    + injection H as <-. unfold collected_from. cbn [isFirstValidWorker].
      exists t, rv, data. cbn [concatBlocks concatBlocksMetadata].
      destruct Hst as [-> _]. rewrite Hm. cbn [app].
      repeat split; auto using Forall2_same_kind_refl.
    + destruct (foldM merge_block (enumerate data) (concatBlocks st)) as [blocks|]
        eqn:M; [|discriminate].
      rewrite bind_ok in H. injection H as <-.
      unfold collected_from. cbn [isFirstValidWorker concatBlocks concatBlocksMetadata].
      destruct Hst as [t0 [rv0 [data0 [H1 [H2 [H3 [H4 H5]]]]]]].
      exists t0, rv0, data0. repeat split; auto.
      refine (foldM_invariant (P := Forall2 same_kind data0) _ H5 M).
      intros s a s' _. apply merge_block_same_kind.
  - injection H as <-. unfold collected_from in *.
    cbn [isFirstValidWorker concatBlocks concatBlocksMetadata]. exact Hst.
Qed.

(** X21.  When the collection ends with blocks, they come from a run of
    the sweep whose dataset was read: the metadata are that run's, entry
    for entry, and every collected block is of the kind of that run's
    block at the same position, a block without independent variables
    being that very block.  So there is one metadata entry for every
    collected block.  Without any dataset read, nothing is collected. *)
Theorem collect_keeps_template (mgr : SimulationManager) (st : Collected) :
  collect mgr = Ok st ->
  collected_from mgr st /\
  List.length (concatBlocks st) = List.length (concatBlocksMetadata st).
Proof.
  intro H. unfold collect in H.
  assert (G : collected_from mgr st).
  { refine (foldM_invariant (P := collected_from mgr) _ _ H).
    - intros s t s' Hin Hs Hstep. exact (collect_step_collected_from Hin Hs Hstep).
    - unfold collected_from. simpl. auto. }
  split; [exact G|].
  unfold collected_from in G. destruct (isFirstValidWorker st).
  - destruct G as [-> ->]. reflexivity.
  - destruct G as [t [rv [data [_ [W [Hd [Hm Hk]]]]]]].
    destruct (sim_worker_fcn_shape W)
      as [fw0 [_ [[_ [data' [meta [Hd' [Hm' Hlen]]]]]|[items [_ [_ [Hd' _]]]]]]];
      rewrite Hd in Hd'; [|discriminate].
    injection Hd' as <-. rewrite Hm in Hm'. injection Hm' as <-.
    rewrite <- (Forall2_length Hk). exact Hlen.
Qed.
End CollectMore.

Lemma nth_error_enumerate_eq (A : Type) (l : list A) (n : nat) (x : A) :
  nth_error l n = Some x -> nth_error (enumerate l) n = Some (n, x).
Proof.
  unfold enumerate. intro H.
  assert (G : forall k, nth_error (combine (seq k (List.length l)) l) n = Some (k + n, x)).
  { revert n H. induction l as [|a l IH]; intros [|n] H k; simpl in *; try discriminate.
    - injection H as <-. rewrite Nat.add_0_r. reflexivity.
    - replace (k + S n) with (S k + n) by lia. apply IH. exact H. }
  exact (G 0).
Qed.

Lemma length_enumerate (A : Type) (l : list A) :
  List.length (enumerate l) = List.length l.
Proof.
  unfold enumerate. rewrite length_combine, length_seq. apply Nat.min_id.
Qed.

Section ReconcileMore.
Context {E : Externals}.

Lemma reconcile_frame_block (mgr : SimulationManager) (metadata : list BlockMeta)
      (n : nat) (df : DataFrame) (blk : Block) :
  reconcile_frame mgr metadata n df = Ok blk ->
  exists m table,
    nth_error metadata n = Some m /\
    blk = {| blk_name := bm_name m;
             blk_metadata := dict_set (bm_metadata m) "__ivarnames__"
                                      (names_obj (index_names df));
             blk_ivarnames := index_names df;
             blk_data := table |}.
Proof.
  unfold reconcile_frame. cbv zeta.
  destruct (mapM _ _) as [uv|]; [|discriminate]. rewrite bind_ok.
  destruct (from_product _ _) as [ri|]; [|discriminate]. rewrite bind_ok.
  destruct (from_tuples _ _) as [ni|]; [|discriminate]. rewrite bind_ok.
  destruct (reindex _ _) as [df'|]; [|discriminate]. rewrite bind_ok.
  destruct (reset_index _) as [table|]; [|discriminate]. rewrite bind_ok.
  destruct (nth_error metadata n) as [m|]; [|discriminate].
  intro H. injection H as <-. exists m, table. auto.
Qed.

(** X22.  The reconciliation gives one block for every collected
    entry, at the same position: a block without independent variables
    as it was collected, and for a frame a block with the name of the
    metadata entry of that position, with the index names of the frame
    as its independent variables, and with the metadata of that entry to
    which the key [__ivarnames__] is added or in which it is replaced. *)
Theorem reconcile_one_block_per_entry
        (mgr : SimulationManager) (st : Collected) (blocks : list Block) :
  reconcile mgr st = Ok blocks ->
  List.length blocks = List.length (concatBlocks st) /\
  forall n x, nth_error (concatBlocks st) n = Some x ->
    exists blk,
      nth_error blocks n = Some blk /\
      match x with
      | IBlock b => blk = b
      | IFrame df =>
          exists m,
            nth_error (concatBlocksMetadata st) n = Some m /\
            blk_name blk = bm_name m /\
            blk_ivarnames blk = index_names df /\
            dict_get (blk_metadata blk) "__ivarnames__"
            = Some (names_obj (index_names df)) /\
            forall k, k <> "__ivarnames__" ->
                      dict_get (blk_metadata blk) k = dict_get (bm_metadata m) k
      end.
Proof.
  intro H. unfold reconcile in H. apply mapM_Forall2 in H.
  split.
  - rewrite <- (Forall2_length H). apply length_enumerate.
  - intros n x Hn. apply nth_error_enumerate_eq in Hn.
    destruct (Forall2_nth_error H Hn) as [blk [Hblk Hr]].
    exists blk. split; [exact Hblk|].
    unfold reconcile_item in Hr. cbn [fst snd] in Hr. destruct x as [df|b].
    + apply reconcile_frame_block in Hr. destruct Hr as [m [table [Hm ->]]].
      exists m. cbn [blk_name blk_ivarnames blk_metadata].
      split; [exact Hm|]. split; [reflexivity|]. split; [reflexivity|].
      split; [apply dict_get_set_same|].
      intros k Hk. apply dict_get_set_other. congruence.
    + injection Hr as <-. reflexivity.
Qed.
End ReconcileMore.

Section RunMore.
Context {E : Externals}.

Lemma simulator_data_cpu_time (log : string) :
  dict_get (simulator_data log) "Total CPU time"
  = Some (__extract_value log "Total CPU time +?= +?(.+?) seconds.").
Proof. reflexivity. Qed.

(** X23.  A sweep does not run to its end when the log of one run holds
    no line with the total CPU time, as the log of a simulator that did
    not start: the summary turns the missing value into a number, and
    [run] raises, with or without the log file being written.  (The name
    of the run is not taken again by a later run.) *)
Theorem run_raises_without_cpu_time
        (mgr : SimulationManager) (before after : list (list pyobj))
        (t : list pyobj) (fw : FinishedWorker) :
  tuples (mgr_sweep mgr) = (before ++ t :: after)%list ->
  handler_run mgr (dict_of_pairs (combine (names (mgr_sweep mgr)) t)) = Ok fw ->
  re_search "Total CPU time +?= +?(.+?) seconds." (logStr fw) = None ->
  (forall t' fw',
      In t' after ->
      handler_run mgr (dict_of_pairs (combine (names (mgr_sweep mgr)) t')) = Ok fw' ->
      workerName fw' <> workerName fw) ->
  raises (run mgr).
Proof.
  intros Hsweep Hrun Hcpu Hnames. unfold run.
  destruct (collect mgr) as [st | e] eqn:C; [|eexists; reflexivity].
  rewrite bind_ok.
  unfold collect in C. apply collect_finished in C.
  destruct C as [fws [Hf HF]]. simpl in Hf. rewrite Hsweep in HF.
  apply Forall2_app_inv_l in HF.
  destruct HF as [f1 [f2 [_ [HF2 ->]]]].
  inversion HF2 as [| ? fwt ? f3 [rv [W <-]] HF3]; subst.
  destruct (sim_worker_fcn_shape W) as [fw0 [Hrun0 Hshape]].
  rewrite Hrun in Hrun0. injection Hrun0 as <-.
  assert (Hsame : workerName (rv_fw rv) = workerName fw /\ logStr (rv_fw rv) = logStr fw).
  { destruct Hshape as [[-> _]|[items [-> _]]]; split; reflexivity. }
  destruct Hsame as [Hname Hlog].
  assert (Hlater : forall fw', In fw' f3 -> workerName fw' <> workerName (rv_fw rv)).
  { intros fw' Hin. rewrite Hname.
    destruct (Forall2_in_right HF3 Hin) as [t' [Ht' [rv' [W' <-]]]].
    destruct (sim_worker_fcn_returns W') as [fw1 [Hrun1 [Hname1 _]]].
    rewrite Hname1. exact (Hnames _ _ Ht' Hrun1). }
  pose proof (process_worker_logs_get f1 Hlater) as Hget.
  rewrite <- Hf in Hget. apply dict_get_some_in in Hget.
  destruct (print_summary_raises_without_cpu_time Hget) as [e' He'].
  - unfold log_entry. cbn [le_simulatorData]. rewrite simulator_data_cpu_time.
    unfold __extract_value. rewrite Hlog, Hcpu. reflexivity.
  - rewrite He'. eexists. reflexivity.
Qed.
End RunMore.

Lemma run_raises_without_cpu_time_witness :
  raises (run (E := bench_unreadable) bench_mgr).
Proof.
  apply (@run_raises_without_cpu_time bench_unreadable bench_mgr
           [[PInt 0]] [[PInt 2]] [PInt 1] (bench_fw [(bias, PInt 1)])).
  - reflexivity.
  - reflexivity.
  - reflexivity.
  - intros t' fw' [<- | []] H. injection H as <-. discriminate.
Defined.

Lemma merge_blocks_keeps_template_witness :
  exists cb',
    foldM (merge_block (E := bench_externals))
          (enumerate [IBlock bench_scalar_block; IFrame bench_frame])
          [IBlock bench_scalar_block; IFrame bench_frame] = Ok cb' /\
    List.length cb' = 2 /\
    nth_error cb' 0 = Some (IBlock bench_scalar_block).
Proof.
  destruct (foldM (merge_block (E := bench_externals))
                  (enumerate [IBlock bench_scalar_block; IFrame bench_frame])
                  [IBlock bench_scalar_block; IFrame bench_frame]) as [cb'|e] eqn:M.
  - exists cb'. split; [reflexivity|].
    destruct (merge_blocks_keeps_template (E := bench_externals) M) as [H1 [H2 _]].
    split; [exact H1|]. apply H2. reflexivity.
  - vm_compute in M. discriminate M.
Defined.


Lemma collect_keeps_template_witness :
  exists st,
    collect (E := bench_externals) bench_mgr = Ok st /\
    List.length (concatBlocks st) = List.length (concatBlocksMetadata st).
Proof.
  destruct (collect (E := bench_externals) bench_mgr) as [st|e] eqn:C.
  - exists st. split; [reflexivity|].
    exact (proj2 (collect_keeps_template C)).
  - vm_compute in C. discriminate C.
Defined.

Lemma reconcile_one_block_per_entry_witness :
  exists blocks,
    reconcile bench_mgr
      {| finishedWorkers := []; concatBlocks := [IBlock bench_scalar_block; IFrame bench_frame];
         concatBlocksMetadata := bench_metadata ++ bench_metadata;
         isFirstValidWorker := false |} = Ok blocks /\
    List.length blocks = 2.
Proof.
  destruct (reconcile bench_mgr
      {| finishedWorkers := []; concatBlocks := [IBlock bench_scalar_block; IFrame bench_frame];
         concatBlocksMetadata := bench_metadata ++ bench_metadata;
         isFirstValidWorker := false |}) as [blocks|e] eqn:R.
  - exists blocks. split; [reflexivity|].
    exact (proj1 (reconcile_one_block_per_entry R)).
  - vm_compute in R. discriminate R.
Defined.

(** ** evaluation.py: a reconciled block as a frame *)

Lemma find_none_all (A : Type) (p : A -> bool) (l : list A) :
  (forall x, In x l -> p x = false) -> find p l = None.
Proof.
  induction l as [|a l IH]; intro H; [reflexivity|].
  simpl. rewrite (H a (or_introl eq_refl)). apply IH.
  intros x Hx. apply H. right. exact Hx.
Qed.

Lemma filter_none (A : Type) (p : A -> bool) (l : list A) :
  (forall x, In x l -> p x = false) -> filter p l = [].
Proof.
  induction l as [|a l IH]; intro H; [reflexivity|].
  simpl. rewrite (H a (or_introl eq_refl)). apply IH.
  intros x Hx. apply H. right. exact Hx.
Qed.

Lemma filter_all (A : Type) (p : A -> bool) (l : list A) :
  (forall x, In x l -> p x = true) -> filter p l = l.
Proof.
  induction l as [|a l IH]; intro H; [reflexivity|].
  simpl. rewrite (H a (or_introl eq_refl)). f_equal. apply IH.
  intros x Hx. apply H. right. exact Hx.
Qed.

Lemma combine_app_same (A B : Type) (l1 l2 : list A) (r1 r2 : list B) :
  List.length l1 = List.length r1 ->
  combine (l1 ++ l2) (r1 ++ r2) = (combine l1 r1 ++ combine l2 r2)%list.
Proof.
  revert r1. induction l1 as [|a l1 IH]; intros [|b r1] H; simpl in *;
    try discriminate; [reflexivity|].
  rewrite IH by lia. reflexivity.
Qed.

Lemma map_snd_combine (A B : Type) (l : list A) (r : list B) :
  List.length r = List.length l -> map snd (combine l r) = r.
Proof.
  revert r. induction l as [|a l IH]; intros [|b r] H; simpl in *;
    try discriminate; [reflexivity|].
  rewrite IH by lia. reflexivity.
Qed.

Lemma in_combine_fst (A B : Type) (l : list A) (r : list B) (x : A * B) :
  In x (combine l r) -> In (fst x) l.
Proof. destruct x as [a b]. apply in_combine_l. Qed.

Lemma cell_index (nms cols : list label) (key cells : list pyobj) :
  NoDup nms -> List.length key = List.length nms ->
  map (cell (nms ++ cols) (key ++ cells)) nms = key.
Proof.
  revert key. induction nms as [|n nms IH]; intros [|k key] Hnd Hlen;
    simpl in *; try discriminate; [reflexivity|].
  inversion Hnd as [|? ? Hn Hrest]; subst.
  rewrite label_eqb_refl. f_equal.
  transitivity (map (cell (nms ++ cols) (key ++ cells)) nms).
  - apply map_ext_in. intros m Hm.
    rewrite label_eqb_neq; [reflexivity|]. intro Heq. subst. contradiction.
  - apply IH; [exact Hrest|lia].
Qed.

Lemma set_index_of_levels (nms cols : list label)
      (rws : list (list pyobj * list pyobj)) :
  NoDup nms -> (forall n, In n nms -> ~ In n cols) ->
  Forall (fun row => List.length (fst row) = List.length nms /\
                     List.length (snd row) = List.length cols) rws ->
  set_index {| columns := (nms ++ cols)%list;
               rows := map (fun row => (fst row ++ snd row)%list) rws |} nms
  = Ok {| index_names := nms; df_columns := cols; df_rows := rws |}.
Proof.
  intros Hnd Hdis Hwf. unfold set_index. cbn [columns rows].
  rewrite find_none_all.
  - f_equal. f_equal.
    + rewrite filter_app. rewrite filter_none, filter_all; [reflexivity| |].
      * intros c Hc. apply negb_true_iff. apply mem_not_in.
        intro Hin. exact (Hdis c Hin Hc).
      * intros n Hn. apply negb_false_iff. apply mem_in. exact Hn.
    + rewrite map_map. rewrite <- (map_id rws) at 2. apply map_ext_in.
      intros [key cells] Hrow. rewrite Forall_forall in Hwf.
      destruct (Hwf _ Hrow) as [Hk Hc]. cbn [fst snd] in *.
      rewrite (cell_index cols cells Hnd Hk). f_equal.
      rewrite combine_app_same by (symmetry; exact Hk).
      rewrite filter_app. rewrite filter_none, filter_all.
      * cbn [app]. apply map_snd_combine. exact Hc.
      * intros x Hx. apply in_combine_fst in Hx.
        apply negb_true_iff. apply mem_not_in. intro Hin. exact (Hdis _ Hin Hx).
      * intros x Hx. apply in_combine_fst in Hx.
        apply negb_false_iff. apply mem_in. exact Hx.
  - intros n Hn. apply negb_false_iff. apply mem_in. apply in_or_app. left. exact Hn.
Qed.

Lemma level_columns_named (nms : list label) :
  Forall (fun n => n <> None) nms -> level_columns nms = nms.
Proof.
  unfold level_columns, enumerate. generalize 0 as k.
  induction nms as [|n nms IH]; intros k H; [reflexivity|].
  inversion H as [|? ? Hn Hrest]; subst. cbn [List.length seq combine map fst snd].
  rewrite (IH (S k) Hrest). destruct n; [reflexivity|congruence].
Qed.

Section EvaluationProps.
Context {E : Externals}.

Lemma reconcile_frame_value
      (mgr : SimulationManager) (metadata : list BlockMeta) (nBlock : nat)
      (df : DataFrame) (native : list label) (m : BlockMeta) :
  let sweep := mgr_sweep mgr in
  let observed := map (fun name => unique (level_values df name)) native in
  let full := map (fun ab => (fst ab ++ snd ab)%list)
                  (list_prod (tuples sweep) (cartesian observed)) in
  index_names df = (names sweep ++ native)%list ->
  native <> [] -> NoDup native ->
  (forall n, In n native -> ~ In n (names sweep)) ->
  Forall (fun t => List.length t = List.length (names sweep)) (tuples sweep) ->
  unique_keys (map fst (df_rows df)) = true ->
  existsb (fun c => mem c (df_columns df))
          (level_columns (names sweep ++ native)%list) = false ->
  nth_error metadata nBlock = Some m ->
  reconcile_frame mgr metadata nBlock df
  = Ok {| blk_name := bm_name m;
          blk_metadata := dict_set (bm_metadata m) "__ivarnames__"
                                   (names_obj (names sweep ++ native)%list);
          blk_ivarnames := (names sweep ++ native)%list;
          blk_data :=
            {| columns := (level_columns (names sweep ++ native)
                             ++ df_columns df)%list;
               rows := map (fun row => (fst row ++ snd row)%list)
                           (map (fun key => (key, match lookup_row df key with
                                                  | Some r => r
                                                  | None => nan_row df
                                                  end)) full) |} |}.
Proof.
  intros sweep observed full Hi Hne Hnd Hdis Hwf Hu Hcol Hm.
  unfold reconcile_frame. fold sweep. rewrite Hi.
  rewrite (orig_ivarnames_native Hdis).
  rewrite (unique_values_native Hi Hnd Hdis). fold observed. rewrite bind_ok.
  assert (Hlen : List.length observed = List.length native).
  { unfold observed. apply length_map. }
  assert (Hprod : from_product observed native
                  = Ok {| names := native; tuples := cartesian observed |}).
  { unfold from_product. destruct observed as [|o obs] eqn:Eo.
    - destruct native; [congruence | discriminate].
    - rewrite <- Hlen, Nat.eqb_refl. reflexivity. }
  rewrite Hprod, bind_ok. cbn [names tuples].
  rewrite (new_index_regular Hne Hlen Hwf), bind_ok.
  rewrite (reindex_unique _ Hu), bind_ok.
  unfold reset_index. cbn [index_names df_columns df_rows names tuples].
  rewrite Hcol, bind_ok, Hm. fold full. reflexivity.
Qed.

End EvaluationProps.


(** ** simulation.py: the handler *)

Lemma NoDup_map_injective_in (A B : Type) (f : A -> B) (l : list A) :
  (forall x y, In x l -> In y l -> f x = f y -> x = y) ->
  NoDup l -> NoDup (map f l).
Proof.
  induction l as [|a l IH]; intros Hinj Hnd; simpl; [constructor|].
  inversion Hnd as [|? ? Ha Hl]; subst. constructor.
  - intro Hin. apply in_map_iff in Hin. destruct Hin as [y [Hy Hyl]].
    assert (y = a) by (apply Hinj; [right; exact Hyl|left; reflexivity|exact Hy]).
    subst. contradiction.
  - apply IH; [|exact Hl]. intros x y Hx Hy. apply Hinj; right; assumption.
Qed.

Section DictFill.
Context {K : Type} {HK : Key K} {V : Type}.

Lemma dict_fill_keys (A : Type) (f : A -> K) (g : A -> V) (l : list A)
      (d : dict K V) (k : K) :
  In k (dict_keys (fold_left (fun d x => dict_set d (f x) (g x)) l d))
  <-> In k (dict_keys d) \/ In k (map f l).
Proof.
  revert d. induction l as [|x l IH]; intro d; simpl.
  - tauto.
  - rewrite IH. rewrite dict_keys_set.
    destruct (dict_mem d (f x)) eqn:Em.
    + apply dict_mem_in in Em. split; [tauto|].
      intros [H|[H|H]]; auto. subst k. auto.
    + rewrite in_app_iff. simpl. tauto.
Qed.

Lemma dict_fill_nodup (A : Type) (f : A -> K) (g : A -> V) (l : list A)
      (d : dict K V) :
  NoDup (dict_keys d) ->
  NoDup (dict_keys (fold_left (fun d x => dict_set d (f x) (g x)) l d)).
Proof.
  revert d. induction l as [|x l IH]; intros d H; simpl; [exact H|].
  apply IH. apply dict_set_nodup. exact H.
Qed.

Lemma dict_fill_other (A : Type) (f : A -> K) (g : A -> V) (l : list A)
      (d : dict K V) (k : K) :
  (forall x, In x l -> f x <> k) ->
  dict_get (fold_left (fun d x => dict_set d (f x) (g x)) l d) k = dict_get d k.
Proof.
  revert d. induction l as [|x l IH]; intros d H; simpl; [reflexivity|].
  rewrite IH by (intros y Hy; apply H; right; exact Hy).
  apply dict_get_set_other. apply H. left. reflexivity.
Qed.

Lemma dict_fill_last (A : Type) (f : A -> K) (g : A -> V) (l1 l2 : list A)
      (x : A) (d : dict K V) :
  (forall y, In y l2 -> f y <> f x) ->
  dict_get (fold_left (fun d x => dict_set d (f x) (g x)) (l1 ++ x :: l2)%list d) (f x)
  = Some (g x).
Proof.
  intro H. rewrite fold_left_app. simpl.
  rewrite (@dict_fill_other _ f g l2 _ (f x) H). apply dict_get_set_same.
Qed.
End DictFill.

Lemma no_char_replace (a b : ascii) (s : string) :
  Ascii.eqb b a = false -> no_char a (replace_char a b s) = true.
Proof.
  intro Hab. induction s as [|c s IH]; [reflexivity|].
  simpl. rewrite IH. destruct (Ascii.eqb c a) eqn:Ec.
  - rewrite Hab. reflexivity.
  - rewrite Ec. reflexivity.
Qed.

Lemma replace_char_length (a b : ascii) (s : string) :
  String.length (replace_char a b s) = String.length s.
Proof. induction s as [|c s IH]; simpl; [reflexivity|]. rewrite IH. reflexivity. Qed.

Section HandlerProps.
Variable format_value : pyobj -> string.

Lemma suffixes_fold (A : Type) (f : A -> string) (l : list A) (w : string) :
  fold_left (fun w x => w ++ f x) l w
  = w ++ fold_right (fun x acc => f x ++ acc) EmptyString l.
Proof.
  revert w. induction l as [|x l IH]; intro w; simpl.
  - symmetry. apply append_nil_r.
  - rewrite IH. apply append_assoc.
Qed.

Lemma no_char_suffixes (A : Type) (f : A -> string) (c : ascii) (l : list A) :
  (forall x, no_char c (f x) = true) ->
  no_char c (fold_right (fun x acc => f x ++ acc) EmptyString l) = true.
Proof.
  intro H. induction l as [|x l IH]; [reflexivity|].
  simpl. rewrite no_char_app, H, IH. reflexivity.
Qed.

(** X25.  The name of a run is the workspace name followed by one text
    for every variable of the run, in their order, and the name of an
    output file has one such text for every static variable; no full
    stop stands in these texts, whatever the names and the values are,
    and each is two characters longer than the name and the value it is
    made of. *)
Theorem handler_workerName_suffix
        (workspaceName : string) (vars : dict label pyobj)
        (staticVars : dict string pyobj) :
  let suffix :=
    fold_right (fun kv acc => var_suffix format_value (label_str (fst kv)) (snd kv) ++ acc)
               EmptyString vars in
  handler_workerName format_value workspaceName vars = workspaceName ++ suffix /\
  no_char "."%char suffix = true /\
  no_char "."%char (staticVarApdx format_value staticVars) = true /\
  forall name v,
    String.length (var_suffix format_value name v)
    = 2 + String.length name + String.length (format_value v).
Proof.
  cbn zeta. split; [|split; [|split]].
  - unfold handler_workerName.
    apply (@suffixes_fold _
             (fun kv : label * pyobj =>
                var_suffix format_value (label_str (fst kv)) (snd kv))).
  - apply (@no_char_suffixes _
             (fun kv : label * pyobj =>
                var_suffix format_value (label_str (fst kv)) (snd kv))).
    intro kv. apply no_char_replace. reflexivity.
  - unfold staticVarApdx.
    rewrite (@suffixes_fold _
               (fun kv : string * pyobj => var_suffix format_value (fst kv) (snd kv))).
    apply (@no_char_suffixes _
             (fun kv : string * pyobj => var_suffix format_value (fst kv) (snd kv))).
    intro kv. apply no_char_replace. reflexivity.
  - intros name v. unfold var_suffix. rewrite replace_char_length.
    simpl. rewrite !length_append. simpl. lia.
Qed.

Lemma merged_vars_keys (vars : dict label pyobj) (st : dict string pyobj) (n : label) :
  In n (dict_keys (merged_vars vars st))
  <-> In n (dict_keys vars) \/ exists k, In k (dict_keys st) /\ n = Some k.
Proof.
  unfold merged_vars.
  rewrite (@dict_fill_keys _ _ _ _ (fun kv : string * pyobj => Some (fst kv)) snd
             st vars n).
  split; intros [H|H]; auto; right.
  - apply in_map_iff in H. destruct H as [[k v] [<- Hin]].
    exists k. split; [|reflexivity]. apply (in_map fst) in Hin. exact Hin.
  - destruct H as [k [Hin ->]]. unfold dict_keys in Hin.
    apply in_map_iff in Hin. destruct Hin as [[k' v] [<- Hin]].
    apply in_map_iff. exists (k', v). auto.
Qed.

Lemma merged_vars_static (vars : dict label pyobj) (st : dict string pyobj)
      (k : string) (v : pyobj) :
  NoDup (dict_keys st) -> In (k, v) st ->
  dict_get (merged_vars vars st) (Some k) = Some v.
Proof.
  intros Hnd Hin. apply in_split in Hin. destruct Hin as [l1 [l2 ->]].
  unfold merged_vars.
  apply (@dict_fill_last _ _ _ _ (fun kv : string * pyobj => Some (fst kv)) snd
           l1 l2 (k, v) vars).
  intros [k' v'] Hy Heq. cbn [fst] in Heq. injection Heq as ->.
  unfold dict_keys in Hnd. rewrite map_app in Hnd. simpl in Hnd.
  apply NoDup_remove_2 in Hnd. apply Hnd. apply in_or_app. right.
  apply (in_map fst) in Hy. exact Hy.
Qed.

Lemma merged_vars_swept (vars : dict label pyobj) (st : dict string pyobj) (n : label) :
  (forall k, In k (dict_keys st) -> n <> Some k) ->
  dict_get (merged_vars vars st) n = dict_get vars n.
Proof.
  intro H. unfold merged_vars. apply dict_fill_other.
  intros [k v] Hin Heq. cbn [fst] in Heq. apply (H k).
  - apply (in_map fst) in Hin. exact Hin.
  - symmetry. exact Heq.
Qed.

(** X26.  In the netlist of a run a variable that is both swept and
    static is written with its static value, and every other variable
    with its own: a line that starts with the assignment of a static
    variable gets the static value, a line that starts with the
    assignment of a swept variable that is not static gets the value of
    the run.  (The variables all have names, without [=] or blank.) *)
Theorem handler_patch_static_wins
        (vars : dict label pyobj) (static_vars : dict string pyobj) (line : string) :
  NoDup (dict_keys vars) -> ~ In None (dict_keys vars) ->
  NoDup (dict_keys static_vars) ->
  (forall m, In m (dict_keys (netlist_vars vars static_vars)) -> plain_name m = true) ->
  (forall k v, In (k, v) static_vars ->
     startswith line (k ++ "=") = true ->
     patch format_value (netlist_vars vars static_vars) line
     = k ++ "=" ++ format_value v ++ nl_str) /\
  (forall k v, In (Some k, v) vars -> ~ In k (dict_keys static_vars) ->
     startswith line (k ++ "=") = true ->
     patch format_value (netlist_vars vars static_vars) line
     = k ++ "=" ++ format_value v ++ nl_str).
Proof.
  intros Hv Hnone Hs Hplain.
  assert (Hm : NoDup (dict_keys (merged_vars vars static_vars))).
  { unfold merged_vars. apply dict_fill_nodup. exact Hv. }
  assert (Hsome : forall n, In n (dict_keys (merged_vars vars static_vars)) -> n <> None).
  { intros n Hn. apply merged_vars_keys in Hn. destruct Hn as [Hn|[k [_ ->]]].
    - intro Heq. subst. contradiction.
    - discriminate. }
  assert (Hr : NoDup (dict_keys (netlist_vars vars static_vars))).
  { unfold netlist_vars, dict_keys. rewrite map_map. cbn [fst].
    rewrite <- (map_map fst label_str).
    apply NoDup_map_injective_in; [|exact Hm].
    intros x y Hx Hy Heq. apply Hsome in Hx. apply Hsome in Hy.
    destruct x, y; simpl in Heq; congruence. }
  assert (Hin : forall k v, dict_get (merged_vars vars static_vars) (Some k) = Some v ->
                            In (k, v) (netlist_vars vars static_vars)).
  { intros k v Hget. apply dict_get_some_in in Hget.
    unfold netlist_vars. apply in_map_iff. exists (Some k, v). auto. }
  split.
  - intros k v Hkv Hline.
    assert (Hk : In (k, v) (netlist_vars vars static_vars)).
    { apply Hin. apply merged_vars_static; assumption. }
    assert (Hp : plain_name k = true).
    { apply Hplain. apply (in_map fst) in Hk. exact Hk. }
    exact (proj1 (patch_selects_plain format_value Hr Hplain Hp Hline) v Hk).
  - intros k v Hkv Hnot Hline.
    assert (Hk : In (k, v) (netlist_vars vars static_vars)).
    { apply Hin. rewrite merged_vars_swept.
      - apply dict_get_in; assumption.
      - intros k' Hk' Heq. injection Heq as ->. contradiction. }
    assert (Hp : plain_name k = true).
    { apply Hplain. apply (in_map fst) in Hk. exact Hk. }
    exact (proj1 (patch_selects_plain format_value Hr Hplain Hp Hline) v Hk).
Qed.
End HandlerProps.

Lemma handler_patch_static_wins_witness :
  patch (fun v => match v with PStr s => s | _ => "?" end)
        (netlist_vars [(Some "Vgs", PStr "0.7"); (Some "Vds", PStr "2")]
                      [("Vgs", PStr "1.5")])
        ("Vgs=0.5" ++ nl_str)
  = "Vgs=1.5" ++ nl_str.
Proof.
  refine (proj1 (@handler_patch_static_wins
                   (fun v => match v with PStr s => s | _ => "?" end)
                   [(Some "Vgs", PStr "0.7"); (Some "Vds", PStr "2")]
                   [("Vgs", PStr "1.5")] ("Vgs=0.5" ++ nl_str) _ _ _ _)
                "Vgs" (PStr "1.5") _ _).
  - repeat constructor; simpl; intuition discriminate.
  - simpl. intuition discriminate.
  - repeat constructor; simpl; intuition discriminate.
  - intros m [<-|[<-|[]]]; reflexivity.
  - left. reflexivity.
  - reflexivity.
Defined.

(** ** simulation.py: the environment of the simulator *)

Lemma insert_unique_in (x p : string) (l : list string) :
  In p (insert_unique x l) <-> p = x \/ In p l.
Proof.
  induction l as [|y l IH]; simpl.
  - intuition.
  - destruct (String.compare x y) eqn:Ec; simpl.
    + apply String.compare_eq_iff in Ec. subst y. intuition.
    + intuition.
    + rewrite IH. intuition.
Qed.

Lemma insert_unique_sorted (x : string) (l : list string) :
  StronglySorted OrderedTypeEx.String_as_OT.lt l ->
  StronglySorted OrderedTypeEx.String_as_OT.lt (insert_unique x l).
Proof.
  induction l as [|y l IH]; simpl; intro H.
  - constructor; constructor.
  - inversion H as [|? ? Hl Hy]; subst.
    destruct (String.compare x y) eqn:Ec.
    + exact H.
    + apply OrderedTypeEx.String_as_OT.cmp_lt in Ec.
      constructor; [exact H|]. constructor; [exact Ec|].
      eapply Forall_impl; [|exact Hy]. intros z Hz.
      exact (@OrderedTypeEx.String_as_OT.lt_trans x y z Ec Hz).
    + assert (Hyx : OrderedTypeEx.String_as_OT.lt y x).
      { apply OrderedTypeEx.String_as_OT.cmp_lt.
        change (String.compare y x = Lt).
        rewrite String.compare_antisym, Ec. reflexivity. }
      constructor; [exact (IH Hl)|].
      apply Forall_forall. intros z Hz. apply insert_unique_in in Hz.
      destruct Hz as [->|Hz]; [exact Hyx|].
      rewrite Forall_forall in Hy. exact (Hy z Hz).
Qed.

Lemma sorted_set_spec (l : list string) :
  StronglySorted OrderedTypeEx.String_as_OT.lt (sorted_set l) /\
  forall p, In p (sorted_set l) <-> In p l.
Proof.
  induction l as [|x l [IH1 IH2]]; simpl.
  - split; [constructor|tauto].
  - split; [apply insert_unique_sorted; exact IH1|].
    intro p. rewrite insert_unique_in, IH2. intuition.
Qed.

(** X27.  [update_environment] sets [HPEESOF_DIR] and rebuilds [PATH]
    from its pieces between semicolons and the [bin] directory of the
    installation: every piece of the old value and that directory stand
    in the new value once, in the order of their code points and not in
    the order they had, joined by semicolons and followed by [;.]; no
    other variable changes.  Without a [PATH] the call raises
    [KeyError]. *)
Theorem update_environment_path (environ : dict string string) (dir : string) :
  (forall path, dict_get environ "PATH" = Some path ->
     exists pieces,
       update_environment environ dir
       = Ok (dict_set (dict_set environ "HPEESOF_DIR" dir) "PATH"
                      (String.concat ";" pieces ++ ";.")) /\
       StronglySorted OrderedTypeEx.String_as_OT.lt pieces /\
       (forall p, In p pieces
                  <-> In p (split_on ";"%char path) \/ p = os_path_join dir "bin") /\
       forall environ',
         update_environment environ dir = Ok environ' ->
         dict_get environ' "HPEESOF_DIR" = Some dir /\
         dict_get environ' "PATH" = Some (String.concat ";" pieces ++ ";.") /\
         forall k, k <> "PATH" -> k <> "HPEESOF_DIR" ->
                   dict_get environ' k = dict_get environ k) /\
  (dict_get environ "PATH" = None ->
   update_environment environ dir = Raise (KeyError "PATH")).
Proof.
  assert (Hp : dict_get (dict_set environ "HPEESOF_DIR" dir) "PATH"
               = dict_get environ "PATH").
  { apply dict_get_set_other. discriminate. }
  split.
  - intros path Hpath.
    exists (sorted_set (split_on ";"%char path ++ [os_path_join dir "bin"])%list).
    destruct (sorted_set_spec (split_on ";"%char path ++ [os_path_join dir "bin"])%list)
      as [Hs Hin].
    assert (Hu : update_environment environ dir
                 = Ok (dict_set (dict_set environ "HPEESOF_DIR" dir) "PATH"
                         (String.concat ";"
                            (sorted_set (split_on ";"%char path
                                           ++ [os_path_join dir "bin"])%list)
                          ++ ";."))).
    { unfold update_environment. cbv zeta. rewrite Hp, Hpath. reflexivity. }
    split; [exact Hu|]. split; [exact Hs|]. split.
    + intro p. rewrite Hin, in_app_iff. simpl. intuition.
    + intros environ' H'. rewrite Hu in H'. injection H' as <-.
      split; [|split].
      * rewrite dict_get_set_other by discriminate. apply dict_get_set_same.
      * apply dict_get_set_same.
      * intros k Hk1 Hk2. rewrite !dict_get_set_other by congruence. reflexivity.
  - intro Hnone. unfold update_environment. cbv zeta. rewrite Hp, Hnone. reflexivity.
Qed.

(** ** simulation.py: what the constructor returns *)

Lemma list_ascii_of_string_app (a b : string) :
  list_ascii_of_string (a ++ b) = (list_ascii_of_string a ++ list_ascii_of_string b)%list.
Proof. induction a as [|c a IH]; simpl; [reflexivity|]. rewrite IH. reflexivity. Qed.

Lemma string_of_list_ascii_app_list (l m : list ascii) :
  string_of_list_ascii (l ++ m) = string_of_list_ascii l ++ string_of_list_ascii m.
Proof. induction l as [|c l IH]; simpl; [reflexivity|]. rewrite IH. reflexivity. Qed.

Lemma string_rev_app (a b : string) :
  string_rev (a ++ b) = string_rev b ++ string_rev a.
Proof.
  unfold string_rev. rewrite list_ascii_of_string_app, rev_app_distr.
  apply string_of_list_ascii_app_list.
Qed.

Lemma string_rev_involutive (s : string) : string_rev (string_rev s) = s.
Proof.
  unfold string_rev. rewrite list_ascii_of_string_of_list_ascii, rev_involutive.
  apply string_of_list_ascii_of_string.
Qed.

Lemma endswith_app (base suffix : string) : endswith (base ++ suffix) suffix = true.
Proof. unfold endswith. rewrite string_rev_app. apply startswith_app. Qed.

Lemma endswith_inv (s suffix : string) :
  endswith s suffix = true -> exists base, s = base ++ suffix.
Proof.
  unfold endswith. intro H. apply startswith_inv in H. destruct H as [t Ht].
  exists (string_rev t).
  rewrite <- (string_rev_involutive s), Ht, string_rev_app, string_rev_involutive.
  reflexivity.
Qed.

Lemma substring_prefix (a b : string) :
  substring 0 (String.length a) (a ++ b) = a.
Proof.
  induction a as [|c a IH]; simpl.
  - destruct b; reflexivity.
  - rewrite IH. reflexivity.
Qed.

Lemma drop_last_app (base suffix : string) :
  drop_last (String.length suffix) (base ++ suffix) = base.
Proof.
  unfold drop_last. rewrite length_append.
  replace (String.length base + String.length suffix - String.length suffix)
    with (String.length base) by lia.
  apply substring_prefix.
Qed.

(** X28.  The constructor returns a manager only for a workspace
    directory whose name ends with [_wrk], with a netlist in it, and with
    [None] or one text as start-up command: a list of commands, which the
    signature offers, is never accepted, nor a name without the ending.
    The manager then holds the index the casting of the sweep gave, the
    cell name of the netlist, the workspace name without the ending, and
    the directories with the ending [_mas] beside the workspace; it has
    no static variables. *)
Theorem SimulationManager_init_returns
        (fs : filesystem) (workspace_parent workspace_name sim_name : string)
        (vars : sweep_input) (var_names : names_arg)
        (netlist_filename ads_install_dir : string)
        (ads_startup_cmd : startup_arg) (write_logs : bool)
        (mgr : SimulationManager) (cmd : list string) :
  SimulationManager_init fs workspace_parent workspace_name sim_name vars var_names
    netlist_filename ads_install_dir ads_startup_cmd write_logs = Ok (mgr, cmd) ->
  let netlist := (workspace_parent ++ "/" ++ workspace_name) ++ "/" ++ netlist_filename in
  exists base text cellName,
    workspace_name = base ++ "_wrk" /\
    fs netlist = Some text /\
    ((ads_startup_cmd = StartupNone /\ cmd = []) \/
     (exists s, ads_startup_cmd = StartupStr s /\ cmd = [s])) /\
    newSweepingVars vars var_names = Ok (mgr_sweep mgr) /\
    get_cell_name_from_netlist fs netlist = Ok cellName /\
    dict_get (mgr_dirs mgr) "ADS_cellName" = Some cellName /\
    dict_get (mgr_dirs mgr) "ADS_workspaceName" = Some base /\
    dict_get (mgr_dirs mgr) "MAS_workspaceDir"
    = Some (workspace_parent ++ "/" ++ base ++ "_mas") /\
    dict_get (mgr_dirs mgr) "MAS_outFileDir"
    = Some ((workspace_parent ++ "/" ++ base ++ "_mas") ++ "/data") /\
    dict_get (mgr_dirs mgr) "MAS_logFileDir"
    = Some ((workspace_parent ++ "/" ++ base ++ "_mas") ++ "/log") /\
    mgr_simName mgr = sim_name /\ mgr_writeLogs mgr = write_logs /\
    mgr_staticVars mgr = [].
Proof.
  unfold SimulationManager_init. intro H. cbv zeta in *.
  destruct (newSweepingVars vars var_names) as [sweep|e]; [|discriminate].
  rewrite bind_ok in H.
  destruct (fs ((workspace_parent ++ "/" ++ workspace_name) ++ "/" ++ netlist_filename))
    as [text|] eqn:Hfs; [|discriminate].
  destruct (startup_cmd ads_startup_cmd) as [cmd'|e] eqn:Hcmd; [|discriminate].
  rewrite bind_ok in H.
  destruct (get_cell_name_from_netlist fs _) as [cellName|e] eqn:Hcell; [|discriminate].
  rewrite bind_ok in H.
  destruct (endswith workspace_name "_wrk") eqn:Hend; [|discriminate].
  apply endswith_inv in Hend. destruct Hend as [base ->].
  change 4 with (String.length "_wrk") in H. rewrite drop_last_app in H.
  injection H as <- <-.
  exists base, text, cellName.
  split; [reflexivity|]. split; [reflexivity|]. split.
  { destruct ads_startup_cmd; simpl in Hcmd.
    - left. injection Hcmd as <-. auto.
    - right. injection Hcmd as <-. eauto.
    - discriminate. }
  repeat split.
Qed.

Lemma SimulationManager_init_returns_witness :
  exists mgr,
    SimulationManager_init bench_workspace_fs "/home/user" "amp_wrk" "sweep"
      (InList [PInt 1; PInt 2]) (NameStr "bias") "netlist.log"
      "/opt/keysight/ADS2023_Update2" (StartupStr "module load ads") true
    = Ok (mgr, ["module load ads"]) /\
    dict_get (mgr_dirs mgr) "ADS_cellName" = Some "amp_tb" /\
    dict_get (mgr_dirs mgr) "MAS_workspaceDir" = Some "/home/user/amp_mas".
Proof.
  eexists. split; [reflexivity|].
  destruct (@SimulationManager_init_returns bench_workspace_fs "/home/user" "amp_wrk"
              "sweep" (InList [PInt 1; PInt 2]) (NameStr "bias") "netlist.log"
              "/opt/keysight/ADS2023_Update2" (StartupStr "module load ads") true
              _ _ eq_refl)
    as [base [text [cellName H]]].
  split; reflexivity.
Defined.

(** ** simulation.py: one run of the simulator *)

Section HandlerRunProps.
Context {C : Codec}.
Variable popen : string -> Process.
Variable os_isfile : string -> bool.

End HandlerRunProps.


(** ** logging.py: the read errors in the summary *)

Section SummaryReadErrors.
Context {E : Externals}.

(** X30.  The second text [print_summary] prints counts the runs read:
    the runs without read error out of all runs.  With no read error the
    section of the simulation errors follows at once; with one, the
    heading [Read Errors:] and a line of dashes follow, and among the
    printed texts stands, for every run with a read error, the text of
    its first element: the message of the exception for a missing
    dataset, the given text for an unreadable one. *)
Theorem print_summary_read_errors (data : dict string LogEntry) (printed : list string) :
  print_summary data = Ok printed ->
  let n := List.length data in
  let k := List.length (filter (fun kv => has_read_error (snd kv)) data) in
  nth_error printed 1
  = Some ("Read " ++ str_of_nat (n - k) ++ "/" ++ str_of_nat n ++ " Files sucessfully ") /\
  (k = 0 -> nth_error printed 2 = Some "Simulation Errors:") /\
  (0 < k -> nth_error printed 2 = Some "Read Errors:" /\
            nth_error printed 3 = Some dashes) /\
  (forall kv x rest, In kv data -> le_readError (snd kv) = Some (x :: rest) ->
                     In (rerr_str x) printed).
Proof.
  intro Hp. cbv zeta. unfold print_summary in Hp.
  destruct (cumulated_cpu_time data) as [total|e]; [|discriminate].
  rewrite bind_ok in Hp.
  assert (Hr : snd (__summarize_logfiles data)
               = fold_left (fun r kv => count_read_error r (le_readError (snd kv))) data
                           {| totalSims := 0; readErrorCount := 0; errors := [] |}).
  { unfold __summarize_logfiles. apply summarize_logfiles_read_errors_fold. }
  destruct (read_errors_fold data {| totalSims := 0; readErrorCount := 0; errors := [] |})
    as [H1 [H2 [_ [_ [H5 _]]]]].
  cbn zeta in H1, H2, H5. rewrite <- Hr in H1, H2, H5.
  cbn [totalSims readErrorCount] in H1, H2. simpl in H1, H2.
  destruct (__summarize_logfiles data) as [[w er] r]. cbn [snd] in H1, H2, H5.
  rewrite H1, H2 in Hp.
  set (k := List.length (filter (fun kv => has_read_error (snd kv)) data)) in *.
  injection Hp as <-.
  split; [reflexivity|]. split; [|split].
  - intro Hk. rewrite Hk. reflexivity.
  - intro Hk. destruct k as [|k']; [lia|]. split; reflexivity.
  - intros kv x rest Hin Hx.
    assert (Hk : Nat.eqb k 0 = false).
    { apply Nat.eqb_neq. unfold k. intro Hz. apply List.length_zero_iff_nil in Hz.
      assert (Hf : In kv (filter (fun kv => has_read_error (snd kv)) data)).
      { apply filter_In. split; [exact Hin|]. unfold has_read_error. rewrite Hx. reflexivity. }
      rewrite Hz in Hf. contradiction. }
    rewrite Hk.
    assert (Hlisted : In (rerr_str x) (map rerr_str (errors r))).
    { specialize (H5 kv x rest Hin Hx). destruct x as [e|s].
      - apply in_map. exact H5.
      - apply existsb_exists in H5. destruct H5 as [y [Hy Hs]].
        destruct y as [e|t]; simpl in Hs; [discriminate|].
        apply String.eqb_eq in Hs. subst t.
        apply in_map_iff. exists (RText s). auto. }
    right. right. apply in_or_app. left.
    right. right. apply in_or_app. left. exact Hlisted.
Qed.
End SummaryReadErrors.

Lemma print_summary_read_errors_witness :
  exists printed,
    print_summary (E := bench_logs)
      (__process_worker_logs (E := bench_logs)
         [set_readError (bench_logged "amp_bias_0" EmptyString)
            [RExn (FileNotFoundError "Output File not found in expected location amp.ds");
             RText no_output_message];
          bench_logged "amp_bias_1" EmptyString]) = Ok printed /\
    nth_error printed 1 = Some "Read 1/2 Files sucessfully " /\
    In "Output File not found in expected location amp.ds" printed.
Proof.
  destruct (print_summary (E := bench_logs)
      (__process_worker_logs (E := bench_logs)
         [set_readError (bench_logged "amp_bias_0" EmptyString)
            [RExn (FileNotFoundError "Output File not found in expected location amp.ds");
             RText no_output_message];
          bench_logged "amp_bias_1" EmptyString])) as [printed|e] eqn:P.
  - exists printed. split; [reflexivity|].
    destruct (print_summary_read_errors P) as [H1 [_ [_ H4]]].
    split; [exact H1|].
    refine (H4 ("amp_bias_0", _) _ _ (or_introl eq_refl) eq_refl).
  - vm_compute in P. discriminate P.
Defined.
